(** * A shallow embedding of [conv_net.py]

    The convolutional sequence-to-sequence model of [conv_net.py]: an
    [Encoder], an attention-augmented [Decoder] and the [Seq2Seq] wrapper.

    - Float tensors are three-dimensional arrays, modelled as a shape and an
      indexing function over a scalar type [F]; the arithmetic of [F] is a
      type class, so that structural results hold for any arithmetic, and
      numerical ones are proved at the instance of the real numbers.
    - Integer (token) tensors are two-dimensional arrays of [Z].
    - A Python exception is a value of [exn]; a computation that may raise
      returns a [Result].
    - Dropout draws from the global random generator: [forward] passes are
      written in a state-and-exception monad [M] over the generator. *)

From Stdlib Require Import ZArith List Bool Lia QArith Reals Lra Qreals.
Import ListNotations.

Local Open Scope nat_scope.

(** ** Exceptions and results *)

Inductive exn : Type :=
| AssertionError
| IndexError
| OverflowError
| RuntimeError
| UnboundLocalError
| ValueError.

Inductive Result (A : Type) : Type :=
| Ok (a : A)
| Raise (e : exn).

Arguments Ok {A} a.
Arguments Raise {A} e.

Definition bindR {A B : Type} (m : Result A) (f : A -> Result B) : Result B :=
  match m with
  | Ok a => f a
  | Raise e => Raise e
  end.

(** ** The random generator and the monad of forward passes *)

Record RNG : Type := { bits : nat -> bool; cursor : nat }.

Definition M (A : Type) : Type := RNG -> Result (A * RNG).

Definition ret {A : Type} (a : A) : M A := fun g => Ok (a, g).

Definition bind {A B : Type} (m : M A) (f : A -> M B) : M B :=
  fun g => match m g with
           | Ok (a, g') => f a g'
           | Raise e => Raise e
           end.

Definition raise {A : Type} (e : exn) : M A := fun _ => Raise e.

Definition lift {A : Type} (r : Result A) : M A :=
  fun g => match r with
           | Ok a => Ok (a, g)
           | Raise e => Raise e
           end.

(** Reading a local variable that no assignment has reached. *)
Definition local {A : Type} (v : option A) : M A :=
  match v with
  | Some a => ret a
  | None => raise UnboundLocalError
  end.

Declare Scope monad_scope.
Delimit Scope monad_scope with monad.

Notation "x <- m ;; k" := (bind m (fun x => k))
  (at level 61, m at next level, right associativity) : monad_scope.
Notation "' p <- m ;; k" := (bind m (fun x => match x with p => k end))
  (at level 61, p pattern, m at next level, right associativity) : monad_scope.
Notation "x <~ m ;; k" := (bindR m (fun x => k))
  (at level 61, m at next level, right associativity) : monad_scope.

Local Open Scope monad_scope.

(** Total correctness of a run: it returns, and the result satisfies [Q]. *)
Definition returns {A : Type} (m : M A) (g : RNG) (Q : A -> RNG -> Prop) : Prop :=
  exists a g', m g = Ok (a, g') /\ Q a g'.

(** The exceptions of a run: whatever it raises satisfies [E]. *)
Definition raises {A : Type} (m : M A) (g : RNG) (E : exn -> Prop) : Prop :=
  forall e, m g = Raise e -> E e.

(** The exceptions of tensor code: never an assertion failure. *)
Definition tensor_exn (e : exn) : Prop :=
  e = IndexError \/ e = RuntimeError \/ e = UnboundLocalError.

(** ** Scalars *)

Class Scalar (F : Type) : Type := {
  fzero : F;
  fone : F;
  fadd : F -> F -> F;
  fmul : F -> F -> F;
  fdiv : F -> F -> F;
  fopp : F -> F;
  fexp : F -> F;
  fsqrt : F -> F;
  of_Q : Q -> F
}.

(** ** Integer tensors of rank two *)

Record LongTensor : Type := {
  rows : nat;
  cols : nat;
  item : nat -> nat -> Z
}.

Definition all_lt (n : nat) (p : nat -> bool) : bool := forallb p (seq 0 n).

Definition all_lt2 (n m : nat) (p : nat -> nat -> bool) : bool :=
  all_lt n (fun i => all_lt m (p i)).

(** ** The tensor operations the model calls *)

Module Torch.
Section Ops.
Context {F : Type} {SF : Scalar F}.

Record Tensor : Type := {
  dim0 : nat;
  dim1 : nat;
  dim2 : nat;
  at3 : nat -> nat -> nat -> F
}.

Definition shape (x : Tensor) : nat * nat * nat := (dim0 x, dim1 x, dim2 x).

(** [fsum n f] is [f 0 + ... + f (n-1)]. *)
Fixpoint fsum (n : nat) (f : nat -> F) : F :=
  match n with
  | O => fzero
  | S n' => fadd (fsum n' f) (f n')
  end.

Definition sigmoid (x : F) : F := fdiv fone (fadd fone (fexp (fopp x))).

(** Broadcasting of one dimension: equal sizes, or one of them is 1. *)
Definition broadcast_dim (a b : nat) : Result nat :=
  if a =? b then Ok a
  else if a =? 1 then Ok b
  else if b =? 1 then Ok a
  else Raise RuntimeError.

Definition bidx (d i : nat) : nat := if d =? 1 then 0 else i.

(** [x + y], elementwise with broadcasting. *)
Definition add (x y : Tensor) : Result Tensor :=
  d0 <~ broadcast_dim (dim0 x) (dim0 y) ;;
  d1 <~ broadcast_dim (dim1 x) (dim1 y) ;;
  d2 <~ broadcast_dim (dim2 x) (dim2 y) ;;
  Ok {| dim0 := d0; dim1 := d1; dim2 := d2;
        at3 := fun i j k =>
          fadd (at3 x (bidx (dim0 x) i) (bidx (dim1 x) j) (bidx (dim2 x) k))
               (at3 y (bidx (dim0 y) i) (bidx (dim1 y) j) (bidx (dim2 y) k)) |}.

(** [x * s] for a one-element tensor [s]. *)
Definition mul_scalar (x : Tensor) (s : F) : Tensor :=
  {| dim0 := dim0 x; dim1 := dim1 x; dim2 := dim2 x;
     at3 := fun i j k => fmul (at3 x i j k) s |}.

(** [x.permute(0, 2, 1)]. *)
Definition permute021 (x : Tensor) : Tensor :=
  {| dim0 := dim0 x; dim1 := dim2 x; dim2 := dim1 x;
     at3 := fun i j k => at3 x i k j |}.

(** [torch.arange(0, n).unsqueeze(0).repeat(b, 1)]. *)
Definition arange_repeat (b n : nat) : LongTensor :=
  {| rows := b; cols := n; item := fun _ t => Z.of_nat t |}.

(** A Python int passed to a tensor method becomes a scalar of the library
    when it fits 64 bits, signed or unsigned. *)
Definition int_fits (v : Z) : bool := ((- 2 ^ 63 <=? v) && (v <? 2 ^ 64))%Z.

(** [torch.zeros(d0, d1, d2).fill_(v)] for a Python int [v]: [zeros] raises
    on a negative size, then [fill_] on an int that does not fit. *)
Definition full (d0 d1 : nat) (d2 : Z) (v : Z) : Result Tensor :=
  if (d2 <? 0)%Z then Raise RuntimeError
  else if negb (int_fits v) then Raise OverflowError
  else Ok {| dim0 := d0; dim1 := d1; dim2 := Z.to_nat d2;
             at3 := fun _ _ _ => of_Q (inject_Z v) |}.

(** [torch.cat((x, y), dim=2)]. *)
Definition cat2 (x y : Tensor) : Result Tensor :=
  if (dim0 x =? dim0 y) && (dim1 x =? dim1 y)
  then Ok {| dim0 := dim0 x; dim1 := dim1 x; dim2 := dim2 x + dim2 y;
             at3 := fun i j k =>
               if k <? dim2 x then at3 x i j k else at3 y i j (k - dim2 x) |}
  else Raise RuntimeError.

(** [torch.matmul] on two rank-three tensors: the batch dimension
    broadcasts, the inner dimensions must agree. *)
Definition matmul (x y : Tensor) : Result Tensor :=
  d0 <~ broadcast_dim (dim0 x) (dim0 y) ;;
  if dim2 x =? dim1 y
  then Ok {| dim0 := d0; dim1 := dim1 x; dim2 := dim2 y;
             at3 := fun b i j =>
               fsum (dim2 x) (fun l =>
                 fmul (at3 x (bidx (dim0 x) b) i l)
                      (at3 y (bidx (dim0 y) b) l j)) |}
  else Raise RuntimeError.

(** [F.softmax(x, dim=2)]. *)
Definition softmax (x : Tensor) : Tensor :=
  {| dim0 := dim0 x; dim1 := dim1 x; dim2 := dim2 x;
     at3 := fun b i j =>
       fdiv (fexp (at3 x b i j))
            (fsum (dim2 x) (fun j' => fexp (at3 x b i j'))) |}.

(** [F.glu(x, dim=1)]: the channel axis is halved. *)
Definition glu (x : Tensor) : Result Tensor :=
  if Nat.even (dim1 x)
  then Ok {| dim0 := dim0 x; dim1 := Nat.div2 (dim1 x); dim2 := dim2 x;
             at3 := fun b c t =>
               fmul (at3 x b c t) (sigmoid (at3 x b (Nat.div2 (dim1 x) + c) t)) |}
  else Raise RuntimeError.

End Ops.
End Torch.

(** ** The layers of [torch.nn] the model is built from *)

Module nn.
Section Layers.
Context {F : Type} {SF : Scalar F}.

Local Abbreviation Tensor := (@Torch.Tensor F).

(** [nn.Embedding(num_embeddings, embedding_dim)]. *)
Record Embedding : Type := {
  num_embeddings : nat;
  embedding_dim : nat;
  emb_weight : nat -> nat -> F
}.

Definition in_range (n : nat) (i : Z) : bool :=
  ((0 <=? i) && (i <? Z.of_nat n))%Z.

(** A lookup selects rows of the table. It raises as soon as one index is
    outside the table: [RuntimeError] when the table has no row to select
    from, [IndexError] otherwise. A lookup of no index returns. *)
Definition Embedding_forward (self : Embedding) (idx : LongTensor) : Result Tensor :=
  if all_lt2 (rows idx) (cols idx)
       (fun b t => in_range (num_embeddings self) (item idx b t))
  then Ok {| Torch.dim0 := rows idx; Torch.dim1 := cols idx;
             Torch.dim2 := embedding_dim self;
             Torch.at3 := fun b t e => emb_weight self (Z.to_nat (item idx b t)) e |}
  else if num_embeddings self =? 0 then Raise RuntimeError
  else Raise IndexError.

(** [nn.Linear(in_features, out_features)], applied to the last axis. *)
Record Linear : Type := {
  in_features : nat;
  out_features : nat;
  lin_weight : nat -> nat -> F;
  lin_bias : nat -> F
}.

Definition Linear_forward (self : Linear) (x : Tensor) : Result Tensor :=
  if Torch.dim2 x =? in_features self
  then Ok {| Torch.dim0 := Torch.dim0 x; Torch.dim1 := Torch.dim1 x;
             Torch.dim2 := out_features self;
             Torch.at3 := fun b t o =>
               fadd (Torch.fsum (in_features self) (fun i =>
                       fmul (Torch.at3 x b t i) (lin_weight self o i)))
                    (lin_bias self o) |}
  else Raise RuntimeError.

(** [nn.Conv1d(in_channels, out_channels, kernel_size, padding)], stride 1;
    the input is laid out as (batch, channels, length). *)
Record Conv1d : Type := {
  in_channels : nat;
  out_channels : nat;
  kernel_size : nat;
  padding : nat;
  conv_weight : nat -> nat -> nat -> F;
  conv_bias : nat -> F
}.

(** The weight tensor has shape (out, in, kernel): a negative size raises. *)
Definition Conv1d_init (in_c out_c : nat) (k p : Z)
    (w : nat -> nat -> nat -> F) (b : nat -> F) : Result Conv1d :=
  if (k <? 0)%Z then Raise RuntimeError
  else if (p <? 0)%Z then Raise RuntimeError
  else Ok {| in_channels := in_c; out_channels := out_c;
             kernel_size := Z.to_nat k; padding := Z.to_nat p;
             conv_weight := w; conv_bias := b |}.

(** The input with [p] zeros on both sides of the length axis. *)
Definition zero_padded (x : Tensor) (p b c i : nat) : F :=
  if (p <=? i) && (i <? p + Torch.dim2 x) then Torch.at3 x b c (i - p) else fzero.

Definition Conv1d_forward (self : Conv1d) (x : Tensor) : Result Tensor :=
  if negb (Torch.dim1 x =? in_channels self) then Raise RuntimeError
  else if out_channels self =? 0 then Raise RuntimeError
  else if Torch.dim2 x + 2 * padding self <? kernel_size self then Raise RuntimeError
  else Ok {| Torch.dim0 := Torch.dim0 x; Torch.dim1 := out_channels self;
             Torch.dim2 := Torch.dim2 x + 2 * padding self - kernel_size self + 1;
             Torch.at3 := fun b o t =>
               fadd (Torch.fsum (in_channels self) (fun c =>
                       Torch.fsum (kernel_size self) (fun j =>
                         fmul (conv_weight self o c j)
                              (zero_padded x (padding self) b c (t + j)))))
                    (conv_bias self o) |}.

(** [nn.Dropout(p)]; a module is in training mode when it is built. *)
Record Dropout : Type := {
  p : Q;
  training : bool
}.

Definition Dropout_init (prob : Q) : Result Dropout :=
  if Qle_bool 0 prob && Qle_bool prob 1
  then Ok {| p := prob; training := true |}
  else Raise ValueError.

(** In evaluation mode, with probability 0 or on a tensor of no element,
    the input is returned as it is; with probability 1 it is multiplied by
    zero; in both cases the generator is not touched. Otherwise every element
    is kept with the next bit of the generator and rescaled by the keep
    probability. *)
Definition Dropout_forward (self : Dropout) (x : Tensor) : M Tensor :=
  fun g =>
    if negb (training self) || Qeq_bool (p self) 0
       || (Torch.dim0 x * Torch.dim1 x * Torch.dim2 x =? 0)
    then Ok (x, g)
    else if Qeq_bool (p self) 1 then Ok (Torch.mul_scalar x fzero, g)
    else Ok ({| Torch.dim0 := Torch.dim0 x; Torch.dim1 := Torch.dim1 x;
                Torch.dim2 := Torch.dim2 x;
                Torch.at3 := fun i j k =>
                  if bits g (cursor g + ((i * Torch.dim1 x + j) * Torch.dim2 x + k))
                  then fdiv (Torch.at3 x i j k) (of_Q (1 - p self))
                  else fzero |},
             {| bits := bits g;
                cursor := cursor g + Torch.dim0 x * Torch.dim1 x * Torch.dim2 x |}).

(** [self.train(mode)] and [self.eval()]. *)
Definition train (self : Dropout) (mode : bool) : Dropout :=
  {| p := p self; training := mode |}.

Definition eval (self : Dropout) : Dropout := train self false.

End Layers.
End nn.

Fixpoint mapR {A B : Type} (f : A -> Result B) (l : list A) : Result (list B) :=
  match l with
  | [] => Ok []
  | a :: l' => b <~ f a ;; bs <~ mapR f l' ;; Ok (b :: bs)
  end.

(** ** [class Encoder] *)

Module Encoder.
Section Encoder.
Context {F : Type} {SF : Scalar F}.

Local Abbreviation Tensor := (@Torch.Tensor F).

Record Encoder : Type := {
  input_dim : nat;
  emb_dim : nat;
  hid_dim : nat;
  kernel_size : Z;
  scale : F;
  tok_embedding : @nn.Embedding F;
  pos_embedding : @nn.Embedding F;
  emb2hid : @nn.Linear F;
  hid2emb : @nn.Linear F;
  convs : list (@nn.Conv1d F);
  dropout : nn.Dropout
}.

(** The values the parameters hold: what the constructors draw at random,
    or what an optimizer has put there since. *)
Record Weights : Type := {
  tok_w : nat -> nat -> F;
  pos_w : nat -> nat -> F;
  emb2hid_w : nat -> nat -> F;
  emb2hid_b : nat -> F;
  hid2emb_w : nat -> nat -> F;
  hid2emb_b : nat -> F;
  conv_w : nat -> nat -> nat -> nat -> F;
  conv_b : nat -> nat -> F
}.

Definition __init__ (w : Weights) (input_dim emb_dim hid_dim n_layers : nat)
    (kernel_size : Z) (dropout : Q) : Result Encoder :=
  if negb (kernel_size mod 2 =? 1)%Z then Raise AssertionError
  else
    convs <~ mapR (fun i => nn.Conv1d_init hid_dim (2 * hid_dim) kernel_size
                              ((kernel_size - 1) / 2) (conv_w w i) (conv_b w i))
                  (seq 0 n_layers) ;;
    drop <~ nn.Dropout_init dropout ;;
    Ok {| input_dim := input_dim; emb_dim := emb_dim; hid_dim := hid_dim;
          kernel_size := kernel_size;
          scale := fsqrt (of_Q (1 # 2));
          tok_embedding := {| nn.num_embeddings := input_dim;
                              nn.embedding_dim := emb_dim;
                              nn.emb_weight := tok_w w |};
          pos_embedding := {| nn.num_embeddings := 100;
                              nn.embedding_dim := emb_dim;
                              nn.emb_weight := pos_w w |};
          emb2hid := {| nn.in_features := emb_dim; nn.out_features := hid_dim;
                        nn.lin_weight := emb2hid_w w; nn.lin_bias := emb2hid_b w |};
          hid2emb := {| nn.in_features := hid_dim; nn.out_features := emb_dim;
                        nn.lin_weight := hid2emb_w w; nn.lin_bias := hid2emb_b w |};
          convs := convs;
          dropout := drop |}.

(** One pass of the loop body over [conv]. *)
Definition stage (self : Encoder) (conv : nn.Conv1d) (conv_input : Tensor) : M Tensor :=
  dropped <- nn.Dropout_forward (dropout self) conv_input ;;
  conved <- lift (nn.Conv1d_forward conv dropped) ;;
  conved <- lift (Torch.glu conved) ;;
  summed <- lift (Torch.add conved conv_input) ;;
  ret (Torch.mul_scalar summed (scale self)).

(** The loop over [self.convs]; [conved] is bound by the first pass only. *)
Fixpoint loop (self : Encoder) (cs : list nn.Conv1d) (conv_input : Tensor)
    (conved : option Tensor) : M (Tensor * option Tensor) :=
  match cs with
  | [] => ret (conv_input, conved)
  | conv :: rest =>
      c <- stage self conv conv_input ;;
      loop self rest c (Some c)
  end.

Definition forward (self : Encoder) (src : LongTensor) : M (Tensor * Tensor) :=
  let pos := Torch.arange_repeat (rows src) (cols src) in
  tok_embedded <- lift (nn.Embedding_forward (tok_embedding self) src) ;;
  pos_embedded <- lift (nn.Embedding_forward (pos_embedding self) pos) ;;
  summed <- lift (Torch.add tok_embedded pos_embedded) ;;
  embedded <- nn.Dropout_forward (dropout self) summed ;;
  conv_input <- lift (nn.Linear_forward (emb2hid self) embedded) ;;
  let conv_input := Torch.permute021 conv_input in
  '(_, conved) <- loop self (convs self) conv_input None ;;
  conved <- local conved ;;
  conved <- lift (nn.Linear_forward (hid2emb self) (Torch.permute021 conved)) ;;
  summed <- lift (Torch.add conved embedded) ;;
  let combined := Torch.mul_scalar summed (scale self) in
  ret (conved, combined).

(** [self.train(mode)] sets the mode of every dropout of the module;
    [self.eval()] is [self.train(False)]. *)
Definition train (self : Encoder) (mode : bool) : Encoder :=
  {| input_dim := input_dim self; emb_dim := emb_dim self; hid_dim := hid_dim self;
     kernel_size := kernel_size self; scale := scale self;
     tok_embedding := tok_embedding self; pos_embedding := pos_embedding self;
     emb2hid := emb2hid self; hid2emb := hid2emb self; convs := convs self;
     dropout := nn.train (dropout self) mode |}.

Definition eval (self : Encoder) : Encoder := train self false.

End Encoder.
End Encoder.

(** ** [class Decoder] *)

Module Decoder.
Section Decoder.
Context {F : Type} {SF : Scalar F}.

Local Abbreviation Tensor := (@Torch.Tensor F).

Record Decoder : Type := {
  output_dim : nat;
  emb_dim : nat;
  hid_dim : nat;
  kernel_size : Z;
  pad_idx : Z;
  scale : F;
  tok_embedding : @nn.Embedding F;
  pos_embedding : @nn.Embedding F;
  emb2hid : @nn.Linear F;
  hid2emb : @nn.Linear F;
  attn_hid2emb : @nn.Linear F;
  attn_emb2hid : @nn.Linear F;
  out : @nn.Linear F;
  convs : list (@nn.Conv1d F);
  dropout : nn.Dropout
}.

Record Weights : Type := {
  tok_w : nat -> nat -> F;
  pos_w : nat -> nat -> F;
  emb2hid_w : nat -> nat -> F;
  emb2hid_b : nat -> F;
  hid2emb_w : nat -> nat -> F;
  hid2emb_b : nat -> F;
  attn_hid2emb_w : nat -> nat -> F;
  attn_hid2emb_b : nat -> F;
  attn_emb2hid_w : nat -> nat -> F;
  attn_emb2hid_b : nat -> F;
  out_w : nat -> nat -> F;
  out_b : nat -> F;
  conv_w : nat -> nat -> nat -> nat -> F;
  conv_b : nat -> nat -> F
}.

Definition __init__ (w : Weights) (output_dim emb_dim hid_dim n_layers : nat)
    (kernel_size : Z) (dropout : Q) (pad_idx : Z) : Result Decoder :=
  convs <~ mapR (fun i => nn.Conv1d_init hid_dim (2 * hid_dim) kernel_size 0
                            (conv_w w i) (conv_b w i))
                (seq 0 n_layers) ;;
  drop <~ nn.Dropout_init dropout ;;
  Ok {| output_dim := output_dim; emb_dim := emb_dim; hid_dim := hid_dim;
        kernel_size := kernel_size; pad_idx := pad_idx;
        scale := fsqrt (of_Q (1 # 2));
        tok_embedding := {| nn.num_embeddings := output_dim;
                            nn.embedding_dim := emb_dim;
                            nn.emb_weight := tok_w w |};
        pos_embedding := {| nn.num_embeddings := 100;
                            nn.embedding_dim := emb_dim;
                            nn.emb_weight := pos_w w |};
        emb2hid := {| nn.in_features := emb_dim; nn.out_features := hid_dim;
                      nn.lin_weight := emb2hid_w w; nn.lin_bias := emb2hid_b w |};
        hid2emb := {| nn.in_features := hid_dim; nn.out_features := emb_dim;
                      nn.lin_weight := hid2emb_w w; nn.lin_bias := hid2emb_b w |};
        attn_hid2emb := {| nn.in_features := hid_dim; nn.out_features := emb_dim;
                           nn.lin_weight := attn_hid2emb_w w;
                           nn.lin_bias := attn_hid2emb_b w |};
        attn_emb2hid := {| nn.in_features := emb_dim; nn.out_features := hid_dim;
                           nn.lin_weight := attn_emb2hid_w w;
                           nn.lin_bias := attn_emb2hid_b w |};
        out := {| nn.in_features := emb_dim; nn.out_features := output_dim;
                  nn.lin_weight := out_w w; nn.lin_bias := out_b w |};
        convs := convs;
        dropout := drop |}.

Definition calculate_attention (self : Decoder)
    (embedded conved encoder_conved encoder_combined : Tensor)
    : Result (Tensor * Tensor) :=
  conved_emb <~ nn.Linear_forward (attn_hid2emb self) (Torch.permute021 conved) ;;
  summed <~ Torch.add embedded conved_emb ;;
  let combined := Torch.mul_scalar summed (scale self) in
  energy <~ Torch.matmul combined (Torch.permute021 encoder_conved) ;;
  let attention := Torch.softmax energy in
  encoder_sum <~ Torch.add encoder_conved encoder_combined ;;
  attended_encoding <~ Torch.matmul attention encoder_sum ;;
  attended_encoding <~ nn.Linear_forward (attn_emb2hid self) attended_encoding ;;
  summed <~ Torch.add conved (Torch.permute021 attended_encoding) ;;
  let attended_combined := Torch.mul_scalar summed (scale self) in
  Ok (attention, attended_combined).

(** One pass of the loop body over [conv]; [conv_input] is rebound to the
    output of dropout before anything else reads it. *)
Definition stage (self : Decoder) (conv : nn.Conv1d)
    (embedded encoder_conved encoder_combined conv_input : Tensor)
    : M (Tensor * Tensor) :=
  conv_input <- nn.Dropout_forward (dropout self) conv_input ;;
  padding <- lift (Torch.full (Torch.dim0 conv_input) (Torch.dim1 conv_input)
                     (kernel_size self - 1) (pad_idx self)) ;;
  padded_conv_input <- lift (Torch.cat2 padding conv_input) ;;
  conved <- lift (nn.Conv1d_forward conv padded_conv_input) ;;
  conved <- lift (Torch.glu conved) ;;
  '(attention, conved) <- lift (calculate_attention self embedded conved
                                  encoder_conved encoder_combined) ;;
  summed <- lift (Torch.add conved conv_input) ;;
  ret (attention, Torch.mul_scalar summed (scale self)).

(** The loop over [self.convs]; [attention] and [conved] are bound by the
    first pass only. *)
Fixpoint loop (self : Decoder) (cs : list nn.Conv1d)
    (embedded encoder_conved encoder_combined conv_input : Tensor)
    (attention conved : option Tensor)
    : M (Tensor * option Tensor * option Tensor) :=
  match cs with
  | [] => ret (conv_input, attention, conved)
  | conv :: rest =>
      '(a, c) <- stage self conv embedded encoder_conved encoder_combined conv_input ;;
      loop self rest embedded encoder_conved encoder_combined c (Some a) (Some c)
  end.

Definition forward (self : Decoder) (trg : LongTensor)
    (encoder_conved encoder_combined : Tensor) : M (Tensor * Tensor) :=
  let pos := Torch.arange_repeat (rows trg) (cols trg) in
  tok_embedded <- lift (nn.Embedding_forward (tok_embedding self) trg) ;;
  pos_embedded <- lift (nn.Embedding_forward (pos_embedding self) pos) ;;
  summed <- lift (Torch.add tok_embedded pos_embedded) ;;
  embedded <- nn.Dropout_forward (dropout self) summed ;;
  conv_input <- lift (nn.Linear_forward (emb2hid self) embedded) ;;
  let conv_input := Torch.permute021 conv_input in
  '(_, attention, conved) <- loop self (convs self) embedded encoder_conved
                               encoder_combined conv_input None None ;;
  conved <- local conved ;;
  conved <- lift (nn.Linear_forward (hid2emb self) (Torch.permute021 conved)) ;;
  dropped <- nn.Dropout_forward (dropout self) conved ;;
  output <- lift (nn.Linear_forward (out self) dropped) ;;
  attention <- local attention ;;
  ret (output, attention).

Definition train (self : Decoder) (mode : bool) : Decoder :=
  {| output_dim := output_dim self; emb_dim := emb_dim self; hid_dim := hid_dim self;
     kernel_size := kernel_size self; pad_idx := pad_idx self; scale := scale self;
     tok_embedding := tok_embedding self; pos_embedding := pos_embedding self;
     emb2hid := emb2hid self; hid2emb := hid2emb self;
     attn_hid2emb := attn_hid2emb self; attn_emb2hid := attn_emb2hid self;
     out := out self; convs := convs self;
     dropout := nn.train (dropout self) mode |}.

Definition eval (self : Decoder) : Decoder := train self false.

End Decoder.
End Decoder.

(** ** [class Seq2Seq] *)

Module Seq2Seq.
Section Seq2Seq.
Context {F : Type} {SF : Scalar F}.

Local Abbreviation Tensor := (@Torch.Tensor F).

Record Seq2Seq : Type := {
  encoder : @Encoder.Encoder F;
  decoder : @Decoder.Decoder F
}.

Definition __init__ (encoder : @Encoder.Encoder F) (decoder : @Decoder.Decoder F)
    : Seq2Seq :=
  {| encoder := encoder; decoder := decoder |}.

Definition train (self : Seq2Seq) (mode : bool) : Seq2Seq :=
  {| encoder := Encoder.train (encoder self) mode;
     decoder := Decoder.train (decoder self) mode |}.

Definition eval (self : Seq2Seq) : Seq2Seq := train self false.

Definition forward (self : Seq2Seq) (src trg : LongTensor) : M (Tensor * Tensor) :=
  '(encoder_conved, encoder_combined) <- Encoder.forward (encoder self) src ;;
  '(output, attention) <- Decoder.forward (decoder self) trg encoder_conved
                            encoder_combined ;;
  ret (output, attention).

End Seq2Seq.
End Seq2Seq.

(** ** The arithmetic of the real numbers

    An exact arithmetic, for the concrete scenarios and for the facts that
    need one. The code computes in floating point: nothing is stated at this
    instance about rounding, overflow or NaN. *)

#[export] Instance R_scalar : Scalar R := {|
  fzero := 0%R;
  fone := 1%R;
  fadd := Rplus;
  fmul := Rmult;
  fdiv := Rdiv;
  fopp := Ropp;
  fexp := exp;
  fsqrt := sqrt;
  of_Q := Q2R
|}.

(** ** Predicates on inputs and statements of the specification *)

(** Every token is an index of a table of [n] rows. *)
Definition in_vocab (n : nat) (x : LongTensor) : Prop :=
  forall b t, b < rows x -> t < cols x -> (0 <= item x b t < Z.of_nat n)%Z.

(** Two token batches of one shape that agree on the positions before [k]. *)
Definition same_prefix (k : nat) (x y : LongTensor) : Prop :=
  rows x = rows y /\ cols x = cols y /\
  forall b t, b < rows x -> t < cols x -> t < k -> item x b t = item y b t.

Section Statements.
Context {F : Type} {SF : Scalar F}.

Local Abbreviation Tensor := (@Torch.Tensor F).

(** Two tensors laid out as (batch, position, feature) that have one shape
    and agree, in every row of the batch, on the positions before [k]. *)
Definition agree1 (k : nat) (x y : Tensor) : Prop :=
  Torch.shape x = Torch.shape y /\
  forall b t e, b < Torch.dim0 x -> t < k -> Torch.at3 x b t e = Torch.at3 y b t e.

(** The same for the layout (batch, channel, position). *)
Definition agree2 (k : nat) (x y : Tensor) : Prop :=
  Torch.shape x = Torch.shape y /\
  forall b c t, b < Torch.dim0 x -> t < k -> Torch.at3 x b c t = Torch.at3 y b c t.

(** A tensor that is the softmax, over its last axis of size [s], of some
    tensor of energies. *)
Definition softmax_over (s : nat) (a : Tensor) : Prop :=
  exists energy, Torch.dim2 energy = s /\ a = Torch.softmax energy.

(** Two optional tensors, both unbound or both bound and related. *)
Definition opt_rel (R : Tensor -> Tensor -> Prop) (x y : option Tensor) : Prop :=
  match x, y with
  | Some u, Some v => R u v
  | None, None => True
  | _, _ => False
  end.

(** The gated linear unit in the words of the specification: the channels
    are split into two halves of [h] channels, A and B, and the output is
    A times the sigmoid of B, elementwise. *)
Definition narrow1 (x : Tensor) (start len : nat) : Tensor :=
  {| Torch.dim0 := Torch.dim0 x; Torch.dim1 := len; Torch.dim2 := Torch.dim2 x;
     Torch.at3 := fun b c t => Torch.at3 x b (start + c) t |}.

Definition gated (a b : Tensor) : Tensor :=
  {| Torch.dim0 := Torch.dim0 a; Torch.dim1 := Torch.dim1 a; Torch.dim2 := Torch.dim2 a;
     Torch.at3 := fun i j k =>
       fmul (Torch.at3 a i j k) (Torch.sigmoid (Torch.at3 b i j k)) |}.

Definition glu_spec (h : nat) (x : Tensor) : Tensor :=
  gated (narrow1 x 0 h) (narrow1 x h h).

(** A residual stage in the words of the specification: dropout, a body,
    then the scaled sum of the body's output and a residual operand, which
    is the stage input either before or after dropout. *)
Inductive residual_operand : Type := BeforeDropout | AfterDropout.

Definition residual_stage {A : Type} (which : residual_operand)
    (drop : nn.Dropout) (scale : F) (body : Tensor -> Result (A * Tensor))
    (conv_input : Tensor) : M (A * Tensor) :=
  dropped <- nn.Dropout_forward drop conv_input ;;
  '(a, conved) <- lift (body dropped) ;;
  summed <- lift (Torch.add conved
                    match which with
                    | BeforeDropout => conv_input
                    | AfterDropout => dropped
                    end) ;;
  ret (a, Torch.mul_scalar summed scale).

(** What an encoder stage computes between dropout and the residual sum. *)
Definition encoder_body (conv : nn.Conv1d) (x : Tensor) : Result (unit * Tensor) :=
  conved <~ nn.Conv1d_forward conv x ;;
  conved <~ Torch.glu conved ;;
  Ok (tt, conved).

(** What a decoder stage computes between dropout and the residual sum. *)
Definition decoder_body (self : Decoder.Decoder) (conv : nn.Conv1d)
    (embedded encoder_conved encoder_combined x : Tensor)
    : Result (Tensor * Tensor) :=
  padding <~ Torch.full (Torch.dim0 x) (Torch.dim1 x) (Decoder.kernel_size self - 1)
               (Decoder.pad_idx self) ;;
  padded <~ Torch.cat2 padding x ;;
  conved <~ nn.Conv1d_forward conv padded ;;
  conved <~ Torch.glu conved ;;
  Decoder.calculate_attention self embedded conved encoder_conved encoder_combined.

(** The convolution of a stage: [h] channels in, [2 * h] out. *)
Record conv_wf (h ks pad : nat) (c : @nn.Conv1d F) : Prop := {
  wf_in_channels : nn.in_channels c = h;
  wf_out_channels : nn.out_channels c = 2 * h;
  wf_kernel_size : nn.kernel_size c = ks;
  wf_padding : nn.padding c = pad
}.

(** What [Encoder.__init__] establishes. *)
Record encoder_wf (enc : @Encoder.Encoder F) (input_dim emb_dim hid_dim n_layers : nat)
    (k : Z) : Prop := {
  ewf_odd : (k mod 2 = 1)%Z;
  ewf_kernel : Encoder.kernel_size enc = k;
  ewf_tok_num : nn.num_embeddings (Encoder.tok_embedding enc) = input_dim;
  ewf_tok_dim : nn.embedding_dim (Encoder.tok_embedding enc) = emb_dim;
  ewf_pos_num : nn.num_embeddings (Encoder.pos_embedding enc) = 100;
  ewf_pos_dim : nn.embedding_dim (Encoder.pos_embedding enc) = emb_dim;
  ewf_emb2hid_in : nn.in_features (Encoder.emb2hid enc) = emb_dim;
  ewf_emb2hid_out : nn.out_features (Encoder.emb2hid enc) = hid_dim;
  ewf_hid2emb_in : nn.in_features (Encoder.hid2emb enc) = hid_dim;
  ewf_hid2emb_out : nn.out_features (Encoder.hid2emb enc) = emb_dim;
  ewf_layers : length (Encoder.convs enc) = n_layers;
  ewf_convs : forall c, In c (Encoder.convs enc) ->
      (0 <= k)%Z /\ conv_wf hid_dim (Z.to_nat k) (Z.to_nat ((k - 1) / 2)) c
}.

(** What [Decoder.__init__] establishes. *)
Record decoder_wf (dec : @Decoder.Decoder F) (output_dim emb_dim hid_dim n_layers : nat)
    (k : Z) : Prop := {
  dwf_kernel : Decoder.kernel_size dec = k;
  dwf_tok_num : nn.num_embeddings (Decoder.tok_embedding dec) = output_dim;
  dwf_tok_dim : nn.embedding_dim (Decoder.tok_embedding dec) = emb_dim;
  dwf_pos_num : nn.num_embeddings (Decoder.pos_embedding dec) = 100;
  dwf_pos_dim : nn.embedding_dim (Decoder.pos_embedding dec) = emb_dim;
  dwf_emb2hid_in : nn.in_features (Decoder.emb2hid dec) = emb_dim;
  dwf_emb2hid_out : nn.out_features (Decoder.emb2hid dec) = hid_dim;
  dwf_hid2emb_in : nn.in_features (Decoder.hid2emb dec) = hid_dim;
  dwf_hid2emb_out : nn.out_features (Decoder.hid2emb dec) = emb_dim;
  dwf_attn_hid2emb_in : nn.in_features (Decoder.attn_hid2emb dec) = hid_dim;
  dwf_attn_hid2emb_out : nn.out_features (Decoder.attn_hid2emb dec) = emb_dim;
  dwf_attn_emb2hid_in : nn.in_features (Decoder.attn_emb2hid dec) = emb_dim;
  dwf_attn_emb2hid_out : nn.out_features (Decoder.attn_emb2hid dec) = hid_dim;
  dwf_out_in : nn.in_features (Decoder.out dec) = emb_dim;
  dwf_out_out : nn.out_features (Decoder.out dec) = output_dim;
  dwf_layers : length (Decoder.convs dec) = n_layers;
  dwf_convs : forall c, In c (Decoder.convs dec) ->
      (0 <= k)%Z /\ conv_wf hid_dim (Z.to_nat k) 0 c
}.

End Statements.

(** ** The end-to-end scenario of the specification

    batch 2, src_len 4, trg_len 3, emb_dim 8, hid_dim 16, two layers,
    kernel size 3, vocabularies of 10 and 12 tokens, pad index 0. *)

Module Scenario.

Definition encoder_weights : @Encoder.Weights R := {|
  Encoder.tok_w := fun i j => INR (i + j);
  Encoder.pos_w := fun i _ => INR i;
  Encoder.emb2hid_w := fun _ _ => 1%R;
  Encoder.emb2hid_b := fun _ => 0%R;
  Encoder.hid2emb_w := fun _ _ => 1%R;
  Encoder.hid2emb_b := fun _ => 0%R;
  Encoder.conv_w := fun _ _ _ _ => 1%R;
  Encoder.conv_b := fun _ _ => 0%R
|}.

Definition decoder_weights : @Decoder.Weights R := {|
  Decoder.tok_w := fun i j => INR (i + j);
  Decoder.pos_w := fun i _ => INR i;
  Decoder.emb2hid_w := fun _ _ => 1%R;
  Decoder.emb2hid_b := fun _ => 0%R;
  Decoder.hid2emb_w := fun _ _ => 1%R;
  Decoder.hid2emb_b := fun _ => 0%R;
  Decoder.attn_hid2emb_w := fun _ _ => 1%R;
  Decoder.attn_hid2emb_b := fun _ => 0%R;
  Decoder.attn_emb2hid_w := fun _ _ => 1%R;
  Decoder.attn_emb2hid_b := fun _ => 0%R;
  Decoder.out_w := fun _ _ => 1%R;
  Decoder.out_b := fun _ => 0%R;
  Decoder.conv_w := fun _ _ _ _ => 1%R;
  Decoder.conv_b := fun _ _ => 0%R
|}.

Definition src : LongTensor :=
  {| rows := 2; cols := 4; item := fun b t => Z.of_nat (b + t) |}.

Definition trg : LongTensor :=
  {| rows := 2; cols := 3; item := fun b t => Z.of_nat (b + t) |}.

(** [trg] with the tokens from position 2 on replaced. *)
Definition trg_altered : LongTensor :=
  {| rows := 2; cols := 3;
     item := fun b t => if t <? 2 then Z.of_nat (b + t) else 11%Z |}.

(** Encoder outputs of shape (2, 4, 8). *)
Definition encoder_conved : @Torch.Tensor R :=
  {| Torch.dim0 := 2; Torch.dim1 := 4; Torch.dim2 := 8;
     Torch.at3 := fun b s e => INR (b + s + e) |}.

Definition encoder_combined : @Torch.Tensor R :=
  {| Torch.dim0 := 2; Torch.dim1 := 4; Torch.dim2 := 8;
     Torch.at3 := fun b s e => INR (b * s + e) |}.

Definition generator : RNG := {| bits := Nat.even; cursor := 0 |}.

(** Two sequences of no token. *)
Definition empty_sequences : LongTensor :=
  {| rows := 2; cols := 0; item := fun _ _ => 0%Z |}.



(** A dropout of probability one half in training mode, a generator whose
    bits drop every element, a convolution of one channel with zero weights
    and a one-element tensor holding 1. *)
Definition dropout_half : nn.Dropout := {| nn.p := (1 # 2)%Q; nn.training := true |}.

Definition dropping_generator : RNG := {| bits := fun _ => false; cursor := 0 |}.

Definition zero_conv : @nn.Conv1d R :=
  {| nn.in_channels := 1; nn.out_channels := 2; nn.kernel_size := 1; nn.padding := 0;
     nn.conv_weight := fun _ _ _ => 0%R; nn.conv_bias := fun _ => 0%R |}.

Definition one : @Torch.Tensor R :=
  {| Torch.dim0 := 1; Torch.dim1 := 1; Torch.dim2 := 1;
     Torch.at3 := fun _ _ _ => 1%R |}.


(** The sequence 1, 2, 3, 4 on one channel, and two convolutions of kernel
    size 3 whose weights are all 1: one padded as in the encoder, one
    unpadded as in the decoder. *)
Definition ramp : @Torch.Tensor R :=
  {| Torch.dim0 := 1; Torch.dim1 := 1; Torch.dim2 := 4;
     Torch.at3 := fun _ _ t => INR (t + 1) |}.

Definition same_conv : @nn.Conv1d R :=
  {| nn.in_channels := 1; nn.out_channels := 2; nn.kernel_size := 3; nn.padding := 1;
     nn.conv_weight := fun _ _ _ => 1%R; nn.conv_bias := fun _ => 0%R |}.

Definition causal_conv : @nn.Conv1d R :=
  {| nn.in_channels := 1; nn.out_channels := 2; nn.kernel_size := 3; nn.padding := 0;
     nn.conv_weight := fun _ _ _ => 1%R; nn.conv_bias := fun _ => 0%R |}.

(** The input of a convolution stage: shape (2, 16, 4). *)
Definition conv_input : @Torch.Tensor R :=
  {| Torch.dim0 := 2; Torch.dim1 := 16; Torch.dim2 := 4;
     Torch.at3 := fun b c t => INR (b + c + t) |}.

End Scenario.

(** ** Statements of further properties *)

(** A run that neither reads nor advances the generator: it is the lifting
    of a result. *)
Definition generator_free {A : Type} (m : M A) : Prop :=
  exists r : Result A, forall g, m g = lift r g.

(** The positions of a batch fit the position table of 100 rows. *)
Definition positions_fit (x : LongTensor) : Prop := rows x = 0 \/ cols x <= 100.


Module Scenario2.

(** Other values for [encoder_combined]: shape (2, 4, 8). *)
Definition encoder_combined' : @Torch.Tensor R :=
  {| Torch.dim0 := 2; Torch.dim1 := 4; Torch.dim2 := 8;
     Torch.at3 := fun b s e => INR (7 * b + s * e) |}.

(** An embedded target and a stage output for it: shapes (2, 3, 8) and
    (2, 16, 3). *)
Definition embedded : @Torch.Tensor R :=
  {| Torch.dim0 := 2; Torch.dim1 := 3; Torch.dim2 := 8;
     Torch.at3 := fun b t e => INR (b + t + e) |}.

Definition conved : @Torch.Tensor R :=
  {| Torch.dim0 := 2; Torch.dim1 := 16; Torch.dim2 := 3;
     Torch.at3 := fun b c t => INR (b * c + t) |}.

(** [Scenario.src] with the tokens at position 3 replaced. *)
Definition src_altered : LongTensor :=
  {| rows := 2; cols := 4;
     item := fun b t => if t <? 3 then Z.of_nat (b + t) else 9%Z |}.

(** Two target sequences of 6 tokens, and the same with the tokens at
    position 0 replaced. *)
Definition trg_long : LongTensor :=
  {| rows := 2; cols := 6; item := fun b t => Z.of_nat (b + t) |}.

Definition trg_long_altered : LongTensor :=
  {| rows := 2; cols := 6;
     item := fun b t => if 0 <? t then Z.of_nat (b + t) else 11%Z |}.

End Scenario2.

(** Two token batches of one shape that agree at the rows and positions
    in [P]. *)
Definition same_tokens_on (P : nat -> nat -> Prop) (x y : LongTensor) : Prop :=
  rows x = rows y /\ cols x = cols y /\
  forall b t, b < rows x -> t < cols x -> P b t -> item x b t = item y b t.

(** The positions from [lo] to [hi], shrunk by [left] at the low end and by
    [right] at the high end. *)
Definition window (lo hi left right : Z) (t : nat) : Prop :=
  (lo + left <= Z.of_nat t)%Z /\ (Z.of_nat t + right <= hi)%Z.

Section WindowStatements.
Context {F : Type} {SF : Scalar F}.

Local Abbreviation Tensor := (@Torch.Tensor F).

(** Two tensors laid out as (batch, position, feature) that have one shape
    and agree at the rows and positions in [P]. *)
Definition agree1_on (P : nat -> nat -> Prop) (x y : Tensor) : Prop :=
  Torch.shape x = Torch.shape y /\
  forall b t e, b < Torch.dim0 x -> t < Torch.dim1 x -> P b t ->
    Torch.at3 x b t e = Torch.at3 y b t e.

(** The same for the layout (batch, channel, position). *)
Definition agree2_on (P : nat -> nat -> Prop) (x y : Tensor) : Prop :=
  Torch.shape x = Torch.shape y /\
  forall b c t, b < Torch.dim0 x -> t < Torch.dim2 x -> P b t ->
    Torch.at3 x b c t = Torch.at3 y b c t.

End WindowStatements.

(** A pad index that is a 64-bit signed integer, as the entries of a token
    tensor are. *)
Definition int64 (v : Z) : Prop := (- 2 ^ 63 <= v < 2 ^ 63)%Z.

Section GatedStatements.
Context {F : Type} {SF : Scalar F}.

Local Abbreviation Tensor := (@Torch.Tensor F).

(** The bodies of the two stages in the words of the specification: the
    convolution maps [h] channels to [2 * h], and the gated linear unit
    splits them into halves A and B of [h] channels and gives A times the
    sigmoid of B. *)
Definition gated_encoder_body (h : nat) (conv : nn.Conv1d) (x : Tensor)
    : Result (unit * Tensor) :=
  conved <~ nn.Conv1d_forward conv x ;;
  Ok (tt, glu_spec h conved).

Definition gated_decoder_body (h : nat) (self : Decoder.Decoder) (conv : nn.Conv1d)
    (embedded encoder_conved encoder_combined x : Tensor)
    : Result (Tensor * Tensor) :=
  padding <~ Torch.full (Torch.dim0 x) (Torch.dim1 x) (Decoder.kernel_size self - 1)
               (Decoder.pad_idx self) ;;
  padded <~ Torch.cat2 padding x ;;
  conved <~ nn.Conv1d_forward conv padded ;;
  Decoder.calculate_attention self embedded (glu_spec h conved) encoder_conved
    encoder_combined.

End GatedStatements.

(** * Proofs *)

(** ** The monad *)

Lemma bindR_Ok {A B : Type} (m : Result A) (f : A -> Result B) (b : B) :
  bindR m f = Ok b -> exists a, m = Ok a /\ f a = Ok b.
Proof.
  destruct m as [a|e]; simpl; intros H; [exists a; auto | discriminate].
Qed.

Lemma bind_Ok {A B : Type} (m : M A) (f : A -> M B) (g : RNG) (r : B * RNG) :
  bind m f g = Ok r -> exists a g', m g = Ok (a, g') /\ f a g' = Ok r.
Proof.
  unfold bind. destruct (m g) as [[a g']|e]; intros H; [exists a, g'; auto | discriminate].
Qed.

Lemma lift_Ok {A : Type} (r : Result A) (g : RNG) (a : A) (g' : RNG) :
  lift r g = Ok (a, g') -> r = Ok a /\ g' = g.
Proof.
  unfold lift. destruct r; intros H; inversion H; auto.
Qed.

Lemma ret_Ok {A : Type} (a b : A) (g g' : RNG) :
  ret a g = Ok (b, g') -> b = a /\ g' = g.
Proof.
  unfold ret. intros H; inversion H; auto.
Qed.

Lemma returns_ret {A : Type} (a : A) (g : RNG) (Q : A -> RNG -> Prop) :
  Q a g -> returns (ret a) g Q.
Proof. intros H; exists a, g; auto. Qed.

Lemma returns_bind {A B : Type} (m : M A) (f : A -> M B) (g : RNG)
    (Q : B -> RNG -> Prop) :
  returns m g (fun a g' => returns (f a) g' Q) -> returns (bind m f) g Q.
Proof.
  intros (a & g' & Hm & b & g'' & Hf & HQ).
  exists b, g''. unfold bind. rewrite Hm. auto.
Qed.

Lemma returns_lift {A : Type} (r : Result A) (g : RNG) (Q : A -> RNG -> Prop) :
  (exists a, r = Ok a /\ Q a g) -> returns (lift r) g Q.
Proof.
  intros (a & -> & HQ). exists a, g; auto.
Qed.

Lemma returns_weaken {A : Type} (m : M A) (g : RNG) (P Q : A -> RNG -> Prop) :
  returns m g P -> (forall a g', P a g' -> Q a g') -> returns m g Q.
Proof.
  intros (a & g' & Hm & HP) H. exists a, g'; auto.
Qed.

Lemma raises_bind {A B : Type} (m : M A) (f : A -> M B) (g : RNG) (E : exn -> Prop) :
  raises m g E -> (forall a g', m g = Ok (a, g') -> raises (f a) g' E) ->
  raises (bind m f) g E.
Proof.
  unfold raises, bind. intros Hm Hf e.
  destruct (m g) as [[a g']|e'] eqn:Eq.
  - apply Hf. reflexivity.
  - intros H; inversion H; subst. apply Hm. reflexivity.
Qed.

Lemma raises_lift {A : Type} (r : Result A) (g : RNG) (E : exn -> Prop) :
  (forall e, r = Raise e -> E e) -> raises (lift r) g E.
Proof.
  unfold raises, lift. intros H e. destruct r; intros H'; inversion H'; subst; auto.
Qed.

Lemma raises_ret {A : Type} (a : A) (g : RNG) (E : exn -> Prop) : raises (ret a) g E.
Proof. unfold raises, ret. discriminate. Qed.

(** ** Index ranges and broadcasting *)

Lemma all_lt_spec (n : nat) (p : nat -> bool) :
  all_lt n p = true <-> forall i, i < n -> p i = true.
Proof.
  unfold all_lt. rewrite forallb_forall. split.
  - intros H i Hi. apply H. apply in_seq. lia.
  - intros H i Hi. apply in_seq in Hi. apply H. lia.
Qed.

Lemma all_lt2_spec (n m : nat) (p : nat -> nat -> bool) :
  all_lt2 n m p = true <-> forall i j, i < n -> j < m -> p i j = true.
Proof.
  unfold all_lt2. rewrite all_lt_spec. split.
  - intros H i j Hi Hj. specialize (H i Hi). rewrite all_lt_spec in H. auto.
  - intros H i Hi. apply all_lt_spec. auto.
Qed.

Lemma in_range_spec (n : nat) (i : Z) :
  nn.in_range n i = true <-> (0 <= i < Z.of_nat n)%Z.
Proof. unfold nn.in_range. rewrite andb_true_iff, Z.leb_le, Z.ltb_lt. tauto. Qed.

Lemma broadcast_same (a : nat) : Torch.broadcast_dim a a = Ok a.
Proof. unfold Torch.broadcast_dim. rewrite Nat.eqb_refl. reflexivity. Qed.

Lemma broadcast_Ok (a b d : nat) :
  Torch.broadcast_dim a b = Ok d ->
  (a = d /\ b = d) \/ (a = 1 /\ b = d) \/ (a = d /\ b = 1).
Proof.
  unfold Torch.broadcast_dim.
  destruct (a =? b) eqn:E1; [apply Nat.eqb_eq in E1; intros H; inversion H; subst; auto|].
  destruct (a =? 1) eqn:E2; [apply Nat.eqb_eq in E2; intros H; inversion H; subst; auto|].
  destruct (b =? 1) eqn:E3; [apply Nat.eqb_eq in E3; intros H; inversion H; subst; auto|].
  discriminate.
Qed.

Lemma bidx_bound (a b d i : nat) :
  Torch.broadcast_dim a b = Ok d -> i < d ->
  Torch.bidx a i < a /\ Torch.bidx b i < b /\
  Torch.bidx a i <= i /\ Torch.bidx b i <= i.
Proof.
  intros H Hi. apply broadcast_Ok in H. unfold Torch.bidx.
  destruct (Nat.eqb_spec a 1); destruct (Nat.eqb_spec b 1); lia.
Qed.

Lemma broadcast_raises (a b : nat) (e : exn) :
  Torch.broadcast_dim a b = Raise e -> e = RuntimeError.
Proof.
  unfold Torch.broadcast_dim.
  destruct (a =? b); [discriminate|].
  destruct (a =? 1); [discriminate|].
  destruct (b =? 1); [discriminate|].
  intros H; inversion H; reflexivity.
Qed.

(** ** Shapes of the results of the tensor operations *)

Section OpFacts.
Context {F : Type} {SF : Scalar F}.

Local Abbreviation Tensor := (@Torch.Tensor F).

Lemma fsum_ext (n : nat) (f g : nat -> F) :
  (forall i, i < n -> f i = g i) -> Torch.fsum n f = Torch.fsum n g.
Proof.
  induction n as [|n IH]; intros H; simpl; [reflexivity|].
  rewrite IH by (intros; apply H; lia). rewrite H by lia. reflexivity.
Qed.

Lemma add_Ok_shape (x y z : Tensor) :
  Torch.add x y = Ok z ->
  Torch.broadcast_dim (Torch.dim0 x) (Torch.dim0 y) = Ok (Torch.dim0 z) /\
  Torch.broadcast_dim (Torch.dim1 x) (Torch.dim1 y) = Ok (Torch.dim1 z) /\
  Torch.broadcast_dim (Torch.dim2 x) (Torch.dim2 y) = Ok (Torch.dim2 z) /\
  forall i j k, Torch.at3 z i j k =
    fadd (Torch.at3 x (Torch.bidx (Torch.dim0 x) i) (Torch.bidx (Torch.dim1 x) j)
            (Torch.bidx (Torch.dim2 x) k))
         (Torch.at3 y (Torch.bidx (Torch.dim0 y) i) (Torch.bidx (Torch.dim1 y) j)
            (Torch.bidx (Torch.dim2 y) k)).
Proof.
  unfold Torch.add. intros H.
  apply bindR_Ok in H. destruct H as (d0 & H0 & H).
  apply bindR_Ok in H. destruct H as (d1 & H1 & H).
  apply bindR_Ok in H. destruct H as (d2 & H2 & H).
  inversion H; subst; clear H. simpl. auto.
Qed.

Lemma add_same_shape (x y : Tensor) :
  Torch.shape x = Torch.shape y ->
  exists z, Torch.add x y = Ok z /\ Torch.shape z = Torch.shape x.
Proof.
  unfold Torch.shape. intros H. inversion H as [[H0 H1 H2]].
  unfold Torch.add. rewrite H0, H1, H2, !broadcast_same. simpl.
  eexists; split; [reflexivity|]. unfold Torch.shape; simpl. reflexivity.
Qed.

Lemma add_raises (x y : Tensor) (e : exn) :
  Torch.add x y = Raise e -> e = RuntimeError.
Proof.
  unfold Torch.add.
  destruct (Torch.broadcast_dim (Torch.dim0 x) (Torch.dim0 y)) eqn:E0; simpl;
    [|intros H; inversion H; subst; eapply broadcast_raises; eauto].
  destruct (Torch.broadcast_dim (Torch.dim1 x) (Torch.dim1 y)) eqn:E1; simpl;
    [|intros H; inversion H; subst; eapply broadcast_raises; eauto].
  destruct (Torch.broadcast_dim (Torch.dim2 x) (Torch.dim2 y)) eqn:E2; simpl;
    [discriminate|intros H; inversion H; subst; eapply broadcast_raises; eauto].
Qed.

Lemma Embedding_forward_Ok (E : @nn.Embedding F) (idx : LongTensor) (y : Tensor) :
  nn.Embedding_forward E idx = Ok y ->
  Torch.shape y = (rows idx, cols idx, nn.embedding_dim E) /\
  forall b t e, Torch.at3 y b t e = nn.emb_weight E (Z.to_nat (item idx b t)) e.
Proof.
  unfold nn.Embedding_forward.
  destruct (all_lt2 _ _ _); [|destruct (_ =? _); discriminate].
  intros H; inversion H; subst; clear H.
  split; reflexivity.
Qed.

Lemma Embedding_forward_in_vocab (E : @nn.Embedding F) (idx : LongTensor) :
  in_vocab (nn.num_embeddings E) idx ->
  exists y, nn.Embedding_forward E idx = Ok y /\
            Torch.shape y = (rows idx, cols idx, nn.embedding_dim E).
Proof.
  intros H. unfold nn.Embedding_forward.
  replace (all_lt2 _ _ _) with true.
  - eexists; split; reflexivity.
  - symmetry. apply all_lt2_spec. intros b t Hb Ht. apply in_range_spec. auto.
Qed.

Lemma Embedding_forward_raises (E : @nn.Embedding F) (idx : LongTensor) (e : exn) :
  nn.Embedding_forward E idx = Raise e ->
  (nn.num_embeddings E = 0 /\ e = RuntimeError) \/
  (1 <= nn.num_embeddings E /\ e = IndexError).
Proof.
  unfold nn.Embedding_forward. destruct (all_lt2 _ _ _); [discriminate|].
  destruct (Nat.eqb_spec (nn.num_embeddings E) 0) as [E0|E0]; intros H; inversion H;
    [left; auto | right; split; [lia|reflexivity]].
Qed.

(** The positions of a batch fit a table of [n] rows when the batch is
    empty or no longer than [n]. *)
Lemma positions_in_vocab (n b s : nat) :
  b = 0 \/ s <= n -> in_vocab n (Torch.arange_repeat b s).
Proof.
  intros H i t Hi Ht. simpl in *. lia.
Qed.


Lemma Linear_forward_Ok (L : @nn.Linear F) (x y : Tensor) :
  nn.Linear_forward L x = Ok y ->
  Torch.dim2 x = nn.in_features L /\
  Torch.shape y = (Torch.dim0 x, Torch.dim1 x, nn.out_features L) /\
  forall b t o, Torch.at3 y b t o =
    fadd (Torch.fsum (nn.in_features L) (fun i =>
            fmul (Torch.at3 x b t i) (nn.lin_weight L o i)))
         (nn.lin_bias L o).
Proof.
  unfold nn.Linear_forward.
  destruct (Torch.dim2 x =? nn.in_features L) eqn:E; intros H; inversion H; subst; clear H.
  apply Nat.eqb_eq in E. repeat split; auto.
Qed.

Lemma Linear_forward_fits (L : @nn.Linear F) (x : Tensor) :
  Torch.dim2 x = nn.in_features L ->
  exists y, nn.Linear_forward L x = Ok y /\
            Torch.shape y = (Torch.dim0 x, Torch.dim1 x, nn.out_features L).
Proof.
  intros H. unfold nn.Linear_forward. rewrite H, Nat.eqb_refl.
  eexists; split; reflexivity.
Qed.

Lemma Linear_forward_raises (L : @nn.Linear F) (x : Tensor) (e : exn) :
  nn.Linear_forward L x = Raise e -> e = RuntimeError.
Proof.
  unfold nn.Linear_forward. destruct (_ =? _); intros H; inversion H; auto.
Qed.

Lemma Conv1d_forward_Ok (C : @nn.Conv1d F) (x y : Tensor) :
  nn.Conv1d_forward C x = Ok y ->
  Torch.dim1 x = nn.in_channels C /\
  nn.kernel_size C <= Torch.dim2 x + 2 * nn.padding C /\
  Torch.shape y = (Torch.dim0 x, nn.out_channels C,
                   Torch.dim2 x + 2 * nn.padding C - nn.kernel_size C + 1) /\
  forall b o t, Torch.at3 y b o t =
    fadd (Torch.fsum (nn.in_channels C) (fun c =>
            Torch.fsum (nn.kernel_size C) (fun j =>
              fmul (nn.conv_weight C o c j)
                   (nn.zero_padded x (nn.padding C) b c (t + j)))))
         (nn.conv_bias C o).
Proof.
  unfold nn.Conv1d_forward.
  destruct (Torch.dim1 x =? nn.in_channels C) eqn:E1; cbn [negb]; [|discriminate].
  destruct (nn.out_channels C =? 0); [discriminate|].
  destruct (Torch.dim2 x + 2 * nn.padding C <? nn.kernel_size C) eqn:E3; [discriminate|].
  intros H; inversion H; subst; clear H.
  apply Nat.eqb_eq in E1. apply Nat.ltb_ge in E3. repeat split; auto.
Qed.

Lemma Conv1d_forward_fits (C : @nn.Conv1d F) (x : Tensor) :
  Torch.dim1 x = nn.in_channels C ->
  1 <= nn.out_channels C ->
  nn.kernel_size C <= Torch.dim2 x + 2 * nn.padding C ->
  exists y, nn.Conv1d_forward C x = Ok y /\
            Torch.shape y = (Torch.dim0 x, nn.out_channels C,
                             Torch.dim2 x + 2 * nn.padding C - nn.kernel_size C + 1).
Proof.
  intros H1 H2 H3. unfold nn.Conv1d_forward.
  rewrite H1, Nat.eqb_refl. cbn [negb].
  destruct (nn.out_channels C =? 0) eqn:E2; [apply Nat.eqb_eq in E2; lia|].
  destruct (_ <? _) eqn:E3; [apply Nat.ltb_lt in E3; lia|].
  eexists; split; reflexivity.
Qed.

Lemma Conv1d_forward_raises (C : @nn.Conv1d F) (x : Tensor) (e : exn) :
  nn.Conv1d_forward C x = Raise e -> e = RuntimeError.
Proof.
  unfold nn.Conv1d_forward.
  destruct (negb _); [intros H; inversion H; auto|].
  destruct (_ =? 0); [intros H; inversion H; auto|].
  destruct (_ <? _); intros H; inversion H; auto.
Qed.

Lemma div2_double (h : nat) : Nat.div2 (2 * h) = h.
Proof. apply Nat.div2_double. Qed.

Lemma even_double (h : nat) : Nat.even (2 * h) = true.
Proof. rewrite Nat.even_mul. reflexivity. Qed.

(** On a tensor of [2 * h] channels, [F.glu] is the gated unit of the
    specification with halves of [h] channels. *)
Lemma glu_halves (h : nat) (x : Tensor) :
  Torch.dim1 x = 2 * h -> Torch.glu x = Ok (glu_spec h x).
Proof.
  intros H. unfold Torch.glu, glu_spec, gated, narrow1. simpl.
  rewrite H, even_double, div2_double. reflexivity.
Qed.

Lemma glu_Ok (x y : Tensor) :
  Torch.glu x = Ok y ->
  Torch.dim1 x = 2 * Nat.div2 (Torch.dim1 x) /\
  Torch.shape y = (Torch.dim0 x, Nat.div2 (Torch.dim1 x), Torch.dim2 x) /\
  forall b c t, Torch.at3 y b c t =
    fmul (Torch.at3 x b c t)
         (Torch.sigmoid (Torch.at3 x b (Nat.div2 (Torch.dim1 x) + c) t)).
Proof.
  unfold Torch.glu. destruct (Nat.even _) eqn:E; intros H; inversion H; subst; clear H.
  split; [|split; reflexivity].
  pose proof (Nat.div2_odd (Torch.dim1 x)) as Hd.
  rewrite <- Nat.negb_even, E in Hd. simpl in Hd. lia.
Qed.

Lemma glu_raises (x : Tensor) (e : exn) : Torch.glu x = Raise e -> e = RuntimeError.
Proof.
  unfold Torch.glu. destruct (Nat.even _); intros H; inversion H; auto.
Qed.

Lemma full_Ok (d0 d1 : nat) (d2 : Z) (v : Z) (y : Tensor) :
  Torch.full d0 d1 d2 v = Ok y ->
  (0 <= d2)%Z /\ Torch.shape y = (d0, d1, Z.to_nat d2) /\
  (forall i j k, Torch.at3 y i j k = of_Q (inject_Z v)) /\
  Torch.int_fits v = true.
Proof.
  unfold Torch.full. destruct (d2 <? 0)%Z eqn:E; [discriminate|].
  destruct (Torch.int_fits v) eqn:Ev; [|discriminate].
  intros H; inversion H; subst; clear H.
  apply Z.ltb_ge in E. repeat split; auto.
Qed.

Lemma full_fits (d0 d1 : nat) (d2 : Z) (v : Z) :
  (0 <= d2)%Z -> Torch.int_fits v = true ->
  exists y, Torch.full d0 d1 d2 v = Ok y /\ Torch.shape y = (d0, d1, Z.to_nat d2).
Proof.
  intros Hd Hv. unfold Torch.full. apply Z.ltb_ge in Hd. rewrite Hd, Hv.
  eexists; split; reflexivity.
Qed.


Lemma cat2_Ok (x y z : Tensor) :
  Torch.cat2 x y = Ok z ->
  Torch.dim0 x = Torch.dim0 y /\ Torch.dim1 x = Torch.dim1 y /\
  Torch.shape z = (Torch.dim0 x, Torch.dim1 x, Torch.dim2 x + Torch.dim2 y) /\
  forall i j k, Torch.at3 z i j k =
    if k <? Torch.dim2 x then Torch.at3 x i j k else Torch.at3 y i j (k - Torch.dim2 x).
Proof.
  unfold Torch.cat2.
  destruct (_ && _) eqn:E; intros H; inversion H; subst; clear H.
  apply andb_true_iff in E. destruct E as [E0 E1].
  apply Nat.eqb_eq in E0. apply Nat.eqb_eq in E1. repeat split; auto.
Qed.

Lemma cat2_raises (x y : Tensor) (e : exn) :
  Torch.cat2 x y = Raise e -> e = RuntimeError.
Proof.
  unfold Torch.cat2. destruct (_ && _); intros H; inversion H; auto.
Qed.

Lemma matmul_Ok (x y z : Tensor) :
  Torch.matmul x y = Ok z ->
  Torch.broadcast_dim (Torch.dim0 x) (Torch.dim0 y) = Ok (Torch.dim0 z) /\
  Torch.dim2 x = Torch.dim1 y /\
  Torch.dim1 z = Torch.dim1 x /\ Torch.dim2 z = Torch.dim2 y /\
  forall b i j, Torch.at3 z b i j =
    Torch.fsum (Torch.dim2 x) (fun l =>
      fmul (Torch.at3 x (Torch.bidx (Torch.dim0 x) b) i l)
           (Torch.at3 y (Torch.bidx (Torch.dim0 y) b) l j)).
Proof.
  unfold Torch.matmul. intros H. apply bindR_Ok in H. destruct H as (d & Hd & H).
  destruct (Torch.dim2 x =? Torch.dim1 y) eqn:E; inversion H; subst; clear H.
  apply Nat.eqb_eq in E. simpl. repeat split; auto.
Qed.

Lemma matmul_raises (x y : Tensor) (e : exn) :
  Torch.matmul x y = Raise e -> e = RuntimeError.
Proof.
  unfold Torch.matmul.
  destruct (Torch.broadcast_dim _ _) eqn:E0; simpl;
    [|intros H; inversion H; subst; eapply broadcast_raises; eauto].
  destruct (_ =? _); intros H; inversion H; auto.
Qed.

Lemma Dropout_forward_Ok (d : nn.Dropout) (x y : Tensor) (g g' : RNG) :
  nn.Dropout_forward d x g = Ok (y, g') -> Torch.shape y = Torch.shape x.
Proof.
  unfold nn.Dropout_forward. destruct (_ || _); [|destruct (Qeq_bool _ _)];
    intros H; inversion H; subst; reflexivity.
Qed.

Lemma Dropout_forward_returns (d : nn.Dropout) (x : Tensor) (g : RNG) :
  returns (nn.Dropout_forward d x) g (fun y _ => Torch.shape y = Torch.shape x).
Proof.
  unfold returns, nn.Dropout_forward. destruct (_ || _); [|destruct (Qeq_bool _ _)];
    do 2 eexists; split; reflexivity.
Qed.

Lemma Dropout_forward_eval (d : nn.Dropout) (x : Tensor) (g : RNG) :
  nn.training d = false -> nn.Dropout_forward d x g = Ok (x, g).
Proof.
  intros H. unfold nn.Dropout_forward. rewrite H. reflexivity.
Qed.

Lemma Dropout_forward_raises (d : nn.Dropout) (x : Tensor) (g : RNG) (E : exn -> Prop) :
  raises (nn.Dropout_forward d x) g E.
Proof.
  unfold raises, nn.Dropout_forward. destruct (_ || _); [|destruct (Qeq_bool _ _)];
    discriminate.
Qed.

End OpFacts.

(** ** What the constructors establish *)

Lemma mapR_Ok {A B : Type} (f : A -> Result B) (l : list A) (l' : list B) :
  mapR f l = Ok l' ->
  length l' = length l /\ forall b, In b l' -> exists a, In a l /\ f a = Ok b.
Proof.
  revert l'. induction l as [|a l IH]; simpl; intros l' H.
  - inversion H; subst. split; [reflexivity|]. intros b [].
  - apply bindR_Ok in H. destruct H as (b0 & Hb0 & H).
    apply bindR_Ok in H. destruct H as (bs & Hbs & H). inversion H; subst; clear H.
    destruct (IH bs Hbs) as [Hlen Hin]. split; [simpl; congruence|].
    intros b [->|Hb].
    + exists a; auto.
    + destruct (Hin b Hb) as (a' & Ha' & Hf). exists a'; auto.
Qed.

Lemma odd_kernel_padding (k : Z) :
  (k mod 2 = 1)%Z -> (0 <= k)%Z ->
  2 * Z.to_nat ((k - 1) / 2) + 1 = Z.to_nat k.
Proof.
  intros Hodd Hk.
  assert (Hq : (k - 1 = 2 * ((k - 1) / 2))%Z).
  { pose proof (Z.div_mod (k - 1) 2 ltac:(lia)) as Hd.
    assert ((k - 1) mod 2 = 0)%Z; [|lia].
    pose proof (Z.div_mod k 2 ltac:(lia)) as Hk2.
    replace (k - 1)%Z with (0 + (k / 2) * 2)%Z by lia.
    apply Z.mod_add; lia. }
  assert (0 <= (k - 1) / 2)%Z by lia.
  lia.
Qed.

Section Constructors.
Context {F : Type} {SF : Scalar F}.

Local Abbreviation Tensor := (@Torch.Tensor F).

Lemma Conv1d_init_Ok (i o : nat) (k p : Z) (w : nat -> nat -> nat -> F)
    (b : nat -> F) (c : @nn.Conv1d F) :
  nn.Conv1d_init i o k p w b = Ok c ->
  (0 <= k)%Z /\ (0 <= p)%Z /\ nn.in_channels c = i /\ nn.out_channels c = o /\
  nn.kernel_size c = Z.to_nat k /\ nn.padding c = Z.to_nat p.
Proof.
  unfold nn.Conv1d_init.
  destruct (k <? 0)%Z eqn:Ek; [discriminate|].
  destruct (p <? 0)%Z eqn:Ep; [discriminate|].
  intros H; inversion H; subst; clear H. simpl.
  apply Z.ltb_ge in Ek. apply Z.ltb_ge in Ep. auto 10.
Qed.

Lemma Encoder_init_wf (w : Encoder.Weights) (input_dim emb_dim hid_dim n_layers : nat)
    (k : Z) (p : Q) (enc : @Encoder.Encoder F) :
  Encoder.__init__ w input_dim emb_dim hid_dim n_layers k p = Ok enc ->
  encoder_wf enc input_dim emb_dim hid_dim n_layers k.
Proof.
  unfold Encoder.__init__.
  destruct (k mod 2 =? 1)%Z eqn:Ek; cbn [negb]; [|discriminate].
  apply Z.eqb_eq in Ek. intros H.
  apply bindR_Ok in H. destruct H as (cs & Hcs & H).
  apply bindR_Ok in H. destruct H as (d & Hd & H).
  inversion H; subst; clear H.
  apply mapR_Ok in Hcs. destruct Hcs as [Hlen Hin].
  constructor; simpl; auto.
  - rewrite Hlen. apply length_seq.
  - intros c Hc. destruct (Hin c Hc) as (i & _ & Hi).
    apply Conv1d_init_Ok in Hi. destruct Hi as (Hk & Hp & H1 & H2 & H3 & H4).
    split; [exact Hk|]. constructor; auto.
Qed.

Lemma Decoder_init_wf (w : Decoder.Weights) (output_dim emb_dim hid_dim n_layers : nat)
    (k : Z) (p : Q) (pad : Z) (dec : @Decoder.Decoder F) :
  Decoder.__init__ w output_dim emb_dim hid_dim n_layers k p pad = Ok dec ->
  decoder_wf dec output_dim emb_dim hid_dim n_layers k.
Proof.
  unfold Decoder.__init__. intros H.
  apply bindR_Ok in H. destruct H as (cs & Hcs & H).
  apply bindR_Ok in H. destruct H as (d & Hd & H).
  inversion H; subst; clear H.
  apply mapR_Ok in Hcs. destruct Hcs as [Hlen Hin].
  constructor; simpl; auto.
  - rewrite Hlen. apply length_seq.
  - intros c Hc. destruct (Hin c Hc) as (i & _ & Hi).
    apply Conv1d_init_Ok in Hi. destruct Hi as (Hk & Hp & H1 & H2 & H3 & H4).
    split; [exact Hk|]. constructor; auto.
Qed.

Lemma encoder_wf_train (enc : @Encoder.Encoder F) (i e h n : nat) (k : Z) (mode : bool) :
  encoder_wf enc i e h n k -> encoder_wf (Encoder.train enc mode) i e h n k.
Proof. intros []; constructor; auto. Qed.

Lemma decoder_wf_train (dec : @Decoder.Decoder F) (o e h n : nat) (k : Z) (mode : bool) :
  decoder_wf dec o e h n k -> decoder_wf (Decoder.train dec mode) o e h n k.
Proof. intros []; constructor; auto. Qed.

(** The pad index is stored as it is given, and [train] keeps it. *)
Lemma Decoder_init_pad (w : Decoder.Weights) (output_dim emb_dim hid_dim n_layers : nat)
    (k : Z) (p : Q) (pad : Z) (dec : @Decoder.Decoder F) (mode : bool) :
  Decoder.__init__ w output_dim emb_dim hid_dim n_layers k p pad = Ok dec ->
  Decoder.pad_idx (Decoder.train dec mode) = pad.
Proof.
  unfold Decoder.__init__. intros H.
  apply bindR_Ok in H. destruct H as (cs & _ & H).
  apply bindR_Ok in H. destruct H as (d & _ & H).
  inversion H; subst; reflexivity.
Qed.

End Constructors.

Lemma int64_fits (v : Z) : int64 v -> Torch.int_fits v = true.
Proof.
  unfold int64, Torch.int_fits. intros [Hlo Hhi].
  apply andb_true_iff. split; [apply Z.leb_le; exact Hlo|apply Z.ltb_lt; lia].
Qed.

(** ** The encoder returns tensors of the expected shapes *)

Ltac shape_inv :=
  unfold Torch.shape in *;
  repeat match goal with
         | H : (_, _, _) = (_, _, _) |- _ => inversion H; clear H
         end.

Section EncoderFacts.
Context {F : Type} {SF : Scalar F}.

Local Abbreviation Tensor := (@Torch.Tensor F).

(** A stage keeps the shape of its input: the convolution pads
    [(k - 1) / 2] positions on both sides and [k] is odd. *)
Lemma Encoder_stage_returns (self : @Encoder.Encoder F) (conv : @nn.Conv1d F)
    (h : nat) (k : Z) (x : Tensor) (g : RNG) :
  (k mod 2 = 1)%Z -> (0 <= k)%Z ->
  conv_wf h (Z.to_nat k) (Z.to_nat ((k - 1) / 2)) conv ->
  Torch.dim1 x = h -> 1 <= h -> 1 <= Torch.dim2 x ->
  returns (Encoder.stage self conv x) g (fun y _ => Torch.shape y = Torch.shape x).
Proof.
  intros Hodd Hk [Hin Hout Hks Hpad] Hx Hh Hlen.
  pose proof (odd_kernel_padding k Hodd Hk) as Hkp.
  unfold Encoder.stage.
  apply returns_bind. eapply returns_weaken; [apply Dropout_forward_returns|].
  intros d g1 Hd. cbv beta.
  apply returns_bind, returns_lift.
  destruct (Conv1d_forward_fits conv d) as (c & Hc & Sc);
    [shape_inv; congruence | lia | shape_inv; lia |].
  exists c; split; [exact Hc|].
  apply returns_bind, returns_lift.
  assert (Hc1 : Torch.dim1 c = 2 * h) by (shape_inv; congruence).
  exists (glu_spec h c); split; [apply glu_halves; exact Hc1|].
  apply returns_bind, returns_lift.
  assert (Sg : Torch.shape (glu_spec h c) = Torch.shape x).
  { unfold glu_spec, gated, narrow1. shape_inv. simpl. f_equal; [f_equal|]; lia. }
  destruct (add_same_shape (glu_spec h c) x Sg) as (s & Hs & Ss).
  exists s; split; [exact Hs|].
  apply returns_ret. transitivity (Torch.shape s); [reflexivity|]. congruence.
Qed.

Lemma Encoder_loop_returns (self : @Encoder.Encoder F) (h : nat) (k : Z)
    (cs : list (@nn.Conv1d F)) :
  (k mod 2 = 1)%Z ->
  (forall c, In c cs -> (0 <= k)%Z /\ conv_wf h (Z.to_nat k) (Z.to_nat ((k - 1) / 2)) c) ->
  1 <= h ->
  forall (x : Tensor) (c0 : option Tensor) (g : RNG),
  Torch.dim1 x = h -> 1 <= Torch.dim2 x ->
  returns (Encoder.loop self cs x c0) g (fun r _ =>
    Torch.shape (fst r) = Torch.shape x /\
    match cs with
    | [] => snd r = c0
    | _ :: _ => exists c, snd r = Some c /\ Torch.shape c = Torch.shape x
    end).
Proof.
  intros Hodd Hcs Hh. induction cs as [|conv rest IH]; intros x c0 g Hx Hlen; simpl.
  - apply returns_ret. auto.
  - apply returns_bind.
    destruct (Hcs conv (or_introl eq_refl)) as [Hk Hwf].
    eapply returns_weaken;
      [apply (Encoder_stage_returns self conv h k x g Hodd Hk Hwf Hx Hh Hlen)|].
    intros y g1 Hy. cbv beta.
    eapply returns_weaken.
    + apply IH.
      * intros c Hc. apply Hcs. right. exact Hc.
      * shape_inv. congruence.
      * shape_inv. lia.
    + intros [ci c] g2 [H1 H2]. simpl in *. split; [congruence|].
      destruct rest.
      * exists y. split; auto.
      * destruct H2 as (c' & -> & Hc'). exists c'. split; [reflexivity|congruence].
Qed.

(** The forward pass of a constructed encoder with at least one layer, on
    tokens of the vocabulary and a sequence of 1 to 100 positions (or an
    empty batch), returns two tensors of shape (batch, length, emb_dim). *)
Lemma Encoder_forward_returns (enc : @Encoder.Encoder F)
    (input_dim emb_dim hid_dim n_layers : nat) (k : Z) (src : LongTensor) (g : RNG) :
  encoder_wf enc input_dim emb_dim hid_dim n_layers k ->
  1 <= n_layers -> 1 <= hid_dim ->
  in_vocab input_dim src ->
  1 <= cols src -> rows src = 0 \/ cols src <= 100 ->
  returns (Encoder.forward enc src) g (fun r _ =>
    Torch.shape (fst r) = (rows src, cols src, emb_dim) /\
    Torch.shape (snd r) = (rows src, cols src, emb_dim)).
Proof.
  intros W Hn Hh Hv Hs1 Hs100. destruct W.
  unfold Encoder.forward.
  apply returns_bind, returns_lift.
  destruct (Embedding_forward_in_vocab (Encoder.tok_embedding enc) src) as (te & Hte & Ste);
    [rewrite ewf_tok_num0; exact Hv|].
  exists te; split; [exact Hte|].
  apply returns_bind, returns_lift.
  destruct (Embedding_forward_in_vocab (Encoder.pos_embedding enc)
              (Torch.arange_repeat (rows src) (cols src))) as (pe & Hpe & Spe);
    [rewrite ewf_pos_num0; apply positions_in_vocab; exact Hs100|].
  exists pe; split; [exact Hpe|]. simpl in Spe.
  apply returns_bind, returns_lift.
  destruct (add_same_shape te pe) as (s & Hs & Ss); [congruence|].
  exists s; split; [exact Hs|].
  apply returns_bind. eapply returns_weaken; [apply Dropout_forward_returns|].
  intros emb g1 Semb. cbv beta.
  apply returns_bind, returns_lift.
  destruct (Linear_forward_fits (Encoder.emb2hid enc) emb) as (ci & Hci & Sci);
    [shape_inv; congruence|].
  exists ci; split; [exact Hci|].
  apply returns_bind.
  eapply returns_weaken.
  { apply (Encoder_loop_returns enc hid_dim k (Encoder.convs enc) ewf_odd0 ewf_convs0 Hh).
    - simpl. shape_inv. congruence.
    - simpl. shape_inv. lia. }
  intros [ci' c] g2 [_ Hc]. cbn [fst snd] in Hc.
  destruct (Encoder.convs enc) as [|conv rest] eqn:Ecs; [simpl in ewf_layers0; lia|].
  destruct Hc as (c' & -> & Sc').
  apply returns_bind. apply returns_ret.
  apply returns_bind, returns_lift.
  destruct (Linear_forward_fits (Encoder.hid2emb enc) (Torch.permute021 c')) as (o & Ho & So).
  { simpl. shape_inv. simpl in *. congruence. }
  exists o; split; [exact Ho|].
  apply returns_bind, returns_lift.
  destruct (add_same_shape o emb) as (s' & Hs' & Ss').
  { rewrite So, Semb, Ss, Ste. simpl. shape_inv. simpl in *. congruence. }
  exists s'; split; [exact Hs'|].
  apply returns_ret. cbn [fst snd].
  assert (Torch.shape o = (rows src, cols src, emb_dim)).
  { rewrite So. simpl. shape_inv. simpl in *. congruence. }
  split; [assumption|]. unfold Torch.mul_scalar. shape_inv. simpl. congruence.
Qed.

End EncoderFacts.

(** ** The decoder returns tensors of the expected shapes *)

Section DecoderFacts.
Context {F : Type} {SF : Scalar F}.

Local Abbreviation Tensor := (@Torch.Tensor F).

Lemma matmul_fits (x y : Tensor) :
  Torch.dim0 x = Torch.dim0 y -> Torch.dim2 x = Torch.dim1 y ->
  exists z, Torch.matmul x y = Ok z /\
            Torch.shape z = (Torch.dim0 x, Torch.dim1 x, Torch.dim2 y).
Proof.
  intros H0 H1. unfold Torch.matmul. rewrite H0, broadcast_same. simpl.
  rewrite H1, Nat.eqb_refl. eexists; split; [reflexivity|].
  unfold Torch.shape; simpl. congruence.
Qed.

Lemma calculate_attention_fits (self : @Decoder.Decoder F) (o e h n : nat) (k : Z)
    (embedded conved encoder_conved encoder_combined : Tensor) (b t s : nat) :
  decoder_wf self o e h n k ->
  Torch.shape embedded = (b, t, e) -> Torch.shape conved = (b, h, t) ->
  Torch.shape encoder_conved = (b, s, e) -> Torch.shape encoder_combined = (b, s, e) ->
  exists a c, Decoder.calculate_attention self embedded conved encoder_conved
                encoder_combined = Ok (a, c) /\
              Torch.shape a = (b, t, s) /\ Torch.shape c = (b, h, t).
Proof.
  intros W Semb Sconved Sec Sem. destruct W.
  unfold Decoder.calculate_attention.
  destruct (Linear_forward_fits (Decoder.attn_hid2emb self) (Torch.permute021 conved))
    as (ce & Hce & Sce); [simpl; shape_inv; congruence|].
  rewrite Hce. cbn [bindR]. simpl in Sce.
  destruct (add_same_shape embedded ce) as (s1 & Hs1 & Ss1);
    [rewrite Sce, Semb; shape_inv; congruence|].
  rewrite Hs1. cbn [bindR].
  destruct (matmul_fits (Torch.mul_scalar s1 (Decoder.scale self))
              (Torch.permute021 encoder_conved)) as (en & Hen & Sen).
  1, 2: simpl; shape_inv; congruence.
  rewrite Hen. cbn [bindR]. simpl in Sen.
  destruct (add_same_shape encoder_conved encoder_combined) as (es & Hes & Ses);
    [congruence|].
  rewrite Hes. cbn [bindR].
  destruct (matmul_fits (Torch.softmax en) es) as (at' & Hat & Sat).
  1, 2: simpl; shape_inv; congruence.
  rewrite Hat. cbn [bindR]. simpl in Sat.
  destruct (Linear_forward_fits (Decoder.attn_emb2hid self) at') as (ah & Hah & Sah);
    [shape_inv; congruence|].
  rewrite Hah. cbn [bindR].
  destruct (add_same_shape conved (Torch.permute021 ah)) as (s2 & Hs2 & Ss2).
  { unfold Torch.permute021. shape_inv. simpl. congruence. }
  rewrite Hs2. cbn [bindR].
  do 2 eexists. split; [reflexivity|]. split.
  - unfold Torch.softmax. shape_inv. simpl. congruence.
  - unfold Torch.mul_scalar. shape_inv. simpl. congruence.
Qed.

Lemma Decoder_stage_returns (self : @Decoder.Decoder F) (o e h n : nat) (k : Z)
    (conv : @nn.Conv1d F) (embedded encoder_conved encoder_combined x : Tensor)
    (b t s : nat) (g : RNG) :
  decoder_wf self o e h n k -> In conv (Decoder.convs self) ->
  (1 <= k)%Z -> 1 <= h -> 1 <= t ->
  Torch.shape embedded = (b, t, e) -> Torch.shape x = (b, h, t) ->
  Torch.shape encoder_conved = (b, s, e) -> Torch.shape encoder_combined = (b, s, e) ->
  Torch.int_fits (Decoder.pad_idx self) = true ->
  returns (Decoder.stage self conv embedded encoder_conved encoder_combined x) g
    (fun r _ => Torch.shape (fst r) = (b, t, s) /\ Torch.shape (snd r) = (b, h, t)).
Proof.
  intros W Hconv Hk Hh Ht Semb Sx Sec Sem Hpadidx.
  destruct (dwf_convs _ _ _ _ _ _ W conv Hconv) as [_ [Hin Hout Hks Hpad]].
  unfold Decoder.stage.
  apply returns_bind. eapply returns_weaken; [apply Dropout_forward_returns|].
  intros d g1 Sd. cbv beta. rewrite Sx in Sd.
  apply returns_bind, returns_lift.
  rewrite (dwf_kernel _ _ _ _ _ _ W).
  unfold Torch.full. destruct (k - 1 <? 0)%Z eqn:Ek; [apply Z.ltb_lt in Ek; lia|].
  rewrite Hpadidx. cbn [negb].
  eexists; split; [reflexivity|].
  apply returns_bind, returns_lift.
  unfold Torch.cat2. cbn [Torch.dim0 Torch.dim1 Torch.dim2].
  rewrite !Nat.eqb_refl. cbn [andb].
  eexists; split; [reflexivity|].
  apply returns_bind, returns_lift.
  match goal with |- exists a, nn.Conv1d_forward conv ?p = _ /\ _ =>
    destruct (Conv1d_forward_fits conv p) as (c & Hc & Sc) end.
  { simpl. shape_inv. congruence. }
  { lia. }
  { simpl. shape_inv. lia. }
  exists c; split; [exact Hc|]. simpl in Sc.
  apply returns_bind, returns_lift.
  assert (Hc1 : Torch.dim1 c = 2 * h) by (shape_inv; congruence).
  exists (glu_spec h c); split; [apply glu_halves; exact Hc1|].
  apply returns_bind, returns_lift.
  destruct (calculate_attention_fits self o e h n k embedded (glu_spec h c)
              encoder_conved encoder_combined b t s W Semb) as (a & c' & Hac & Sa & Sc');
    auto.
  { unfold glu_spec, gated, narrow1. shape_inv. simpl. f_equal; [f_equal|]; lia. }
  exists (a, c'); split; [exact Hac|].
  apply returns_bind, returns_lift.
  destruct (add_same_shape c' d) as (s' & Hs' & Ss'); [congruence|].
  exists s'; split; [exact Hs'|].
  apply returns_ret. cbn [fst snd]. split; [exact Sa|].
  transitivity (Torch.shape s'); [reflexivity|congruence].
Qed.

Lemma Decoder_loop_returns (self : @Decoder.Decoder F) (o e h n : nat) (k : Z)
    (embedded encoder_conved encoder_combined : Tensor) (b t s : nat)
    (cs : list (@nn.Conv1d F)) :
  decoder_wf self o e h n k -> (forall c, In c cs -> In c (Decoder.convs self)) ->
  (1 <= k)%Z -> 1 <= h -> 1 <= t ->
  Torch.shape embedded = (b, t, e) ->
  Torch.shape encoder_conved = (b, s, e) -> Torch.shape encoder_combined = (b, s, e) ->
  Torch.int_fits (Decoder.pad_idx self) = true ->
  forall (x : Tensor) (a0 c0 : option Tensor) (g : RNG),
  Torch.shape x = (b, h, t) ->
  returns (Decoder.loop self cs embedded encoder_conved encoder_combined x a0 c0) g
    (fun r _ =>
       match cs with
       | [] => snd (fst r) = a0 /\ snd r = c0
       | _ :: _ => exists a c, snd (fst r) = Some a /\ snd r = Some c /\
                     Torch.shape a = (b, t, s) /\ Torch.shape c = (b, h, t)
       end).
Proof.
  intros W Hcs Hk Hh Ht Semb Sec Sem Hpadidx.
  induction cs as [|conv rest IH]; intros x a0 c0 g Sx; simpl.
  - apply returns_ret. auto.
  - apply returns_bind.
    eapply returns_weaken.
    { apply (Decoder_stage_returns self o e h n k conv embedded encoder_conved
               encoder_combined x b t s g W); auto. apply Hcs. left. reflexivity. }
    intros [a c] g1 [Sa Sc]. cbn [fst snd] in *.
    eapply returns_weaken.
    + apply IH; [intros c1 Hc1; apply Hcs; right; exact Hc1 | exact Sc].
    + intros [[ci a1] c1] g2 H. cbn [fst snd] in *.
      destruct rest.
      * destruct H as [-> ->]. exists a, c. auto.
      * exact H.
Qed.

(** The forward pass of a constructed decoder with at least one layer and
    a pad index that fits, on tokens of the vocabulary, a sequence of 1 to
    100 positions and encoder outputs of shape (batch, src_len, emb_dim),
    returns logits of shape (batch, trg_len, output_dim) and attention of
    shape (batch, trg_len, src_len). *)
Lemma Decoder_forward_returns (dec : @Decoder.Decoder F)
    (output_dim emb_dim hid_dim n_layers : nat) (k : Z) (trg : LongTensor)
    (encoder_conved encoder_combined : Tensor) (s : nat) (g : RNG) :
  decoder_wf dec output_dim emb_dim hid_dim n_layers k ->
  1 <= n_layers -> 1 <= hid_dim -> (1 <= k)%Z ->
  in_vocab output_dim trg ->
  1 <= cols trg -> rows trg = 0 \/ cols trg <= 100 ->
  Torch.shape encoder_conved = (rows trg, s, emb_dim) ->
  Torch.shape encoder_combined = (rows trg, s, emb_dim) ->
  Torch.int_fits (Decoder.pad_idx dec) = true ->
  returns (Decoder.forward dec trg encoder_conved encoder_combined) g (fun r _ =>
    Torch.shape (fst r) = (rows trg, cols trg, output_dim) /\
    Torch.shape (snd r) = (rows trg, cols trg, s)).
Proof.
  intros W Hn Hh Hk Hv Ht1 Ht100 Sec Sem Hpadidx. pose proof W as W'. destruct W'.
  unfold Decoder.forward.
  apply returns_bind, returns_lift.
  destruct (Embedding_forward_in_vocab (Decoder.tok_embedding dec) trg) as (te & Hte & Ste);
    [rewrite dwf_tok_num0; exact Hv|].
  exists te; split; [exact Hte|].
  apply returns_bind, returns_lift.
  destruct (Embedding_forward_in_vocab (Decoder.pos_embedding dec)
              (Torch.arange_repeat (rows trg) (cols trg))) as (pe & Hpe & Spe);
    [rewrite dwf_pos_num0; apply positions_in_vocab; exact Ht100|].
  exists pe; split; [exact Hpe|]. simpl in Spe.
  apply returns_bind, returns_lift.
  destruct (add_same_shape te pe) as (s0 & Hs0 & Ss0); [congruence|].
  exists s0; split; [exact Hs0|].
  apply returns_bind. eapply returns_weaken; [apply Dropout_forward_returns|].
  intros emb g1 Semb. cbv beta.
  assert (Semb' : Torch.shape emb = (rows trg, cols trg, emb_dim)) by congruence.
  apply returns_bind, returns_lift.
  destruct (Linear_forward_fits (Decoder.emb2hid dec) emb) as (ci & Hci & Sci);
    [shape_inv; congruence|].
  exists ci; split; [exact Hci|].
  apply returns_bind.
  eapply returns_weaken.
  { apply (Decoder_loop_returns dec output_dim emb_dim hid_dim n_layers k emb
             encoder_conved encoder_combined (rows trg) (cols trg) s
             (Decoder.convs dec) W); auto.
    unfold Torch.permute021. shape_inv. simpl. congruence. }
  intros [[ci' a] c] g2 Hc. cbn [fst snd] in Hc.
  destruct (Decoder.convs dec) as [|conv rest] eqn:Ecs; [simpl in dwf_layers0; lia|].
  destruct Hc as (a' & c' & -> & -> & Sa' & Sc').
  apply returns_bind. apply returns_ret.
  apply returns_bind, returns_lift.
  destruct (Linear_forward_fits (Decoder.hid2emb dec) (Torch.permute021 c')) as (o & Ho & So).
  { simpl. shape_inv. congruence. }
  exists o; split; [exact Ho|]. simpl in So.
  apply returns_bind. eapply returns_weaken; [apply Dropout_forward_returns|].
  intros dr g3 Sdr. cbv beta.
  apply returns_bind, returns_lift.
  destruct (Linear_forward_fits (Decoder.out dec) dr) as (lo & Hlo & Slo);
    [shape_inv; congruence|].
  exists lo; split; [exact Hlo|].
  apply returns_bind. apply returns_ret.
  apply returns_ret. cbn [fst snd]. split; [|exact Sa'].
  rewrite Slo. shape_inv. congruence.
Qed.

End DecoderFacts.

(** ** The exceptions a forward pass can raise *)

Lemma mapR_raises {A B : Type} (f : A -> Result B) (l : list A) (e : exn) :
  mapR f l = Raise e -> exists a, In a l /\ f a = Raise e.
Proof.
  induction l as [|a l IH]; simpl; [discriminate|].
  destruct (f a) as [b|e'] eqn:Ea; simpl.
  - destruct (mapR f l) as [bs|e'] eqn:El; simpl; [discriminate|].
    intros H; inversion H; subst. destruct (IH eq_refl) as (a' & Ha' & Hf).
    exists a'; auto.
  - intros H; inversion H; subst. exists a; auto.
Qed.

Section Exceptions.
Context {F : Type} {SF : Scalar F}.

Local Abbreviation Tensor := (@Torch.Tensor F).

Ltac leaf_raises :=
  first
    [ apply raises_ret
    | apply Dropout_forward_raises
    | apply raises_lift; intros ? Hraise;
      first [ apply Embedding_forward_raises in Hraise;
              destruct Hraise as [[_ Hraise]|[_ Hraise]]
            | apply Linear_forward_raises in Hraise
            | apply Conv1d_forward_raises in Hraise
            | apply add_raises in Hraise
            | apply glu_raises in Hraise
            | apply cat2_raises in Hraise
            | apply matmul_raises in Hraise ];
      subst; unfold tensor_exn; auto ].

Lemma local_raises {A : Type} (v : option A) (g : RNG) :
  raises (local v) g tensor_exn.
Proof.
  destruct v; simpl; [apply raises_ret|].
  intros e H. inversion H. unfold tensor_exn. auto.
Qed.

Lemma Encoder_stage_raises (self : @Encoder.Encoder F) (conv : @nn.Conv1d F)
    (x : Tensor) (g : RNG) :
  raises (Encoder.stage self conv x) g tensor_exn.
Proof.
  unfold Encoder.stage.
  repeat (apply raises_bind; [leaf_raises | intros ? ? _]). leaf_raises.
Qed.

Lemma Encoder_loop_raises (self : @Encoder.Encoder F) (cs : list (@nn.Conv1d F))
    (x : Tensor) (c0 : option Tensor) (g : RNG) :
  raises (Encoder.loop self cs x c0) g tensor_exn.
Proof.
  revert x c0 g. induction cs as [|conv rest IH]; intros x c0 g; simpl.
  - apply raises_ret.
  - apply raises_bind; [apply Encoder_stage_raises | intros ? ? _; apply IH].
Qed.

Lemma Encoder_forward_raises (self : @Encoder.Encoder F) (src : LongTensor) (g : RNG) :
  raises (Encoder.forward self src) g tensor_exn.
Proof.
  unfold Encoder.forward.
  do 5 (apply raises_bind; [leaf_raises | intros ? ? _]).
  apply raises_bind; [apply Encoder_loop_raises | intros [? ?] ? _].
  apply raises_bind; [apply local_raises | intros ? ? _].
  repeat (apply raises_bind; [leaf_raises | intros ? ? _]). leaf_raises.
Qed.

End Exceptions.

(** ** A forward pass without layers *)

Section NoLayers.
Context {F : Type} {SF : Scalar F}.

Local Abbreviation Tensor := (@Torch.Tensor F).

Lemma Encoder_forward_Ok_layers (enc : @Encoder.Encoder F) (src : LongTensor)
    (g : RNG) (r : Tensor * Tensor * RNG) :
  Encoder.forward enc src g = Ok r -> Encoder.convs enc <> [].
Proof.
  intros H Hnil. unfold Encoder.forward in H. rewrite Hnil in H.
  do 5 (apply bind_Ok in H; destruct H as (? & ? & _ & H)).
  apply bind_Ok in H. destruct H as ([ci c] & g' & Hloop & H).
  simpl in Hloop. apply ret_Ok in Hloop. destruct Hloop as [Hc _]. inversion Hc; subst.
  apply bind_Ok in H. destruct H as (? & ? & H & _). discriminate.
Qed.

Lemma Decoder_forward_Ok_layers (dec : @Decoder.Decoder F) (trg : LongTensor)
    (ec em : Tensor) (g : RNG) (r : Tensor * Tensor * RNG) :
  Decoder.forward dec trg ec em g = Ok r -> Decoder.convs dec <> [].
Proof.
  intros H Hnil. unfold Decoder.forward in H. rewrite Hnil in H.
  do 5 (apply bind_Ok in H; destruct H as (? & ? & _ & H)).
  apply bind_Ok in H. destruct H as ([[ci a] c] & g' & Hloop & H).
  simpl in Hloop. apply ret_Ok in Hloop. destruct Hloop as [Hc _]. inversion Hc; subst.
  apply bind_Ok in H. destruct H as (? & ? & H & _). discriminate.
Qed.

Lemma Encoder_forward_unbound (enc : @Encoder.Encoder F) (i e h : nat) (k : Z)
    (src : LongTensor) (g : RNG) :
  encoder_wf enc i e h 0 k -> in_vocab i src -> rows src = 0 \/ cols src <= 100 ->
  Encoder.forward enc src g = Raise UnboundLocalError.
Proof.
  intros W Hv Hs. destruct W.
  destruct (Embedding_forward_in_vocab (Encoder.tok_embedding enc) src) as (te & Hte & Ste);
    [rewrite ewf_tok_num0; exact Hv|].
  destruct (Embedding_forward_in_vocab (Encoder.pos_embedding enc)
              (Torch.arange_repeat (rows src) (cols src))) as (pe & Hpe & Spe);
    [rewrite ewf_pos_num0; apply positions_in_vocab; exact Hs|].
  simpl in Spe.
  destruct (add_same_shape te pe) as (s & Hs' & Ss); [congruence|].
  destruct (Dropout_forward_returns (Encoder.dropout enc) s g) as (emb & g1 & Hd & Semb).
  destruct (Linear_forward_fits (Encoder.emb2hid enc) emb) as (ci & Hci & Sci);
    [shape_inv; congruence|].
  destruct (Encoder.convs enc) as [|c cs] eqn:Ecs; [|simpl in ewf_layers0; lia].
  unfold Encoder.forward, bind, lift. rewrite Hte, Hpe, Hs', Hd, Hci, Ecs. reflexivity.
Qed.

Lemma Decoder_forward_unbound (dec : @Decoder.Decoder F) (o e h : nat) (k : Z)
    (trg : LongTensor) (ec em : Tensor) (g : RNG) :
  decoder_wf dec o e h 0 k -> in_vocab o trg -> rows trg = 0 \/ cols trg <= 100 ->
  Decoder.forward dec trg ec em g = Raise UnboundLocalError.
Proof.
  intros W Hv Hs. destruct W.
  destruct (Embedding_forward_in_vocab (Decoder.tok_embedding dec) trg) as (te & Hte & Ste);
    [rewrite dwf_tok_num0; exact Hv|].
  destruct (Embedding_forward_in_vocab (Decoder.pos_embedding dec)
              (Torch.arange_repeat (rows trg) (cols trg))) as (pe & Hpe & Spe);
    [rewrite dwf_pos_num0; apply positions_in_vocab; exact Hs|].
  simpl in Spe.
  destruct (add_same_shape te pe) as (s & Hs' & Ss); [congruence|].
  destruct (Dropout_forward_returns (Decoder.dropout dec) s g) as (emb & g1 & Hd & Semb).
  destruct (Linear_forward_fits (Decoder.emb2hid dec) emb) as (ci & Hci & Sci);
    [shape_inv; congruence|].
  destruct (Decoder.convs dec) as [|c cs] eqn:Ecs; [|simpl in dwf_layers0; lia].
  unfold Decoder.forward, bind, lift. rewrite Hte, Hpe, Hs', Hd, Hci, Ecs. reflexivity.
Qed.







End NoLayers.

(** ** Causality: what a position of the decoder depends on *)

Section Causality.
Context {F : Type} {SF : Scalar F}.

Local Abbreviation Tensor := (@Torch.Tensor F).

Lemma shape_eq (x y : Tensor) :
  Torch.shape x = Torch.shape y ->
  Torch.dim0 x = Torch.dim0 y /\ Torch.dim1 x = Torch.dim1 y /\
  Torch.dim2 x = Torch.dim2 y.
Proof. unfold Torch.shape. intros H; inversion H; auto. Qed.

Lemma shape_triple (x : Tensor) (a b c : nat) :
  Torch.shape x = (a, b, c) ->
  Torch.dim0 x = a /\ Torch.dim1 x = b /\ Torch.dim2 x = c.
Proof. unfold Torch.shape. intros H; inversion H; auto. Qed.

Lemma agree1_refl (k : nat) (x : Tensor) : agree1 k x x.
Proof. split; auto. Qed.

Lemma agree2_refl (k : nat) (x : Tensor) : agree2 k x x.
Proof. split; auto. Qed.

Lemma permute_agree12 (k : nat) (x y : Tensor) :
  agree1 k x y -> agree2 k (Torch.permute021 x) (Torch.permute021 y).
Proof.
  intros [S D]. apply shape_eq in S. destruct S as (E0 & E1 & E2).
  split; [unfold Torch.shape; simpl; congruence|].
  intros b c t Hb Ht. simpl in *. auto.
Qed.

Lemma permute_agree21 (k : nat) (x y : Tensor) :
  agree2 k x y -> agree1 k (Torch.permute021 x) (Torch.permute021 y).
Proof.
  intros [S D]. apply shape_eq in S. destruct S as (E0 & E1 & E2).
  split; [unfold Torch.shape; simpl; congruence|].
  intros b t e Hb Ht. simpl in *. auto.
Qed.

Lemma mul_scalar_agree1 (k : nat) (x y : Tensor) (s : F) :
  agree1 k x y -> agree1 k (Torch.mul_scalar x s) (Torch.mul_scalar y s).
Proof.
  intros [S D]. apply shape_eq in S. destruct S as (E0 & E1 & E2).
  split; [unfold Torch.shape; simpl; congruence|].
  intros b t e Hb Ht. simpl in *. rewrite D by assumption. reflexivity.
Qed.

Lemma mul_scalar_agree2 (k : nat) (x y : Tensor) (s : F) :
  agree2 k x y -> agree2 k (Torch.mul_scalar x s) (Torch.mul_scalar y s).
Proof.
  intros [S D]. apply shape_eq in S. destruct S as (E0 & E1 & E2).
  split; [unfold Torch.shape; simpl; congruence|].
  intros b c t Hb Ht. simpl in *. rewrite D by assumption. reflexivity.
Qed.

Lemma Embedding_agree (E : @nn.Embedding F) (k : nat) (trg1 trg2 : LongTensor)
    (x1 x2 : Tensor) :
  same_prefix k trg1 trg2 -> k <= cols trg1 ->
  nn.Embedding_forward E trg1 = Ok x1 -> nn.Embedding_forward E trg2 = Ok x2 ->
  agree1 k x1 x2.
Proof.
  intros (Hr & Hc & Hp) Hk H1 H2.
  apply Embedding_forward_Ok in H1. apply Embedding_forward_Ok in H2.
  destruct H1 as [S1 A1]. destruct H2 as [S2 A2].
  split; [congruence|]. intros b t e Hb Ht.
  rewrite A1, A2. apply shape_triple in S1. destruct S1 as (E0 & _ & _).
  rewrite Hp; [reflexivity | lia | lia | lia].
Qed.

Lemma bidx_lt (d t k : nat) : t < k -> Torch.bidx d t < k.
Proof. unfold Torch.bidx. destruct (d =? 1); lia. Qed.

Lemma add_agree1 (k : nat) (x1 x2 y1 y2 z1 z2 : Tensor) :
  agree1 k x1 x2 -> agree1 k y1 y2 ->
  Torch.add x1 y1 = Ok z1 -> Torch.add x2 y2 = Ok z2 -> agree1 k z1 z2.
Proof.
  intros [Sx Dx] [Sy Dy] H1 H2.
  apply shape_eq in Sx. destruct Sx as (X0 & X1 & X2).
  apply shape_eq in Sy. destruct Sy as (Y0 & Y1 & Y2).
  apply add_Ok_shape in H1. apply add_Ok_shape in H2.
  destruct H1 as (B0 & B1 & B2 & A1). destruct H2 as (B0' & B1' & B2' & A2).
  split.
  - unfold Torch.shape. f_equal; [f_equal|]; congruence.
  - intros b t e Hb Ht. rewrite A1, A2.
    destruct (bidx_bound _ _ _ b B0 Hb) as (Hbx & Hby & _ & _).
    rewrite (Dx _ _ _ Hbx (bidx_lt _ _ _ Ht)), (Dy _ _ _ Hby (bidx_lt _ _ _ Ht)).
    rewrite X0, X1, X2, Y0, Y1, Y2. reflexivity.
Qed.

Lemma add_agree2 (k : nat) (x1 x2 y1 y2 z1 z2 : Tensor) :
  agree2 k x1 x2 -> agree2 k y1 y2 ->
  Torch.add x1 y1 = Ok z1 -> Torch.add x2 y2 = Ok z2 -> agree2 k z1 z2.
Proof.
  intros [Sx Dx] [Sy Dy] H1 H2.
  apply shape_eq in Sx. destruct Sx as (X0 & X1 & X2).
  apply shape_eq in Sy. destruct Sy as (Y0 & Y1 & Y2).
  apply add_Ok_shape in H1. apply add_Ok_shape in H2.
  destruct H1 as (B0 & B1 & B2 & A1). destruct H2 as (B0' & B1' & B2' & A2).
  split.
  - unfold Torch.shape. f_equal; [f_equal|]; congruence.
  - intros b c t Hb Ht. rewrite A1, A2.
    destruct (bidx_bound _ _ _ b B0 Hb) as (Hbx & Hby & _ & _).
    rewrite (Dx _ _ _ Hbx (bidx_lt _ _ _ Ht)), (Dy _ _ _ Hby (bidx_lt _ _ _ Ht)).
    rewrite X0, X1, X2, Y0, Y1, Y2. reflexivity.
Qed.

Lemma Linear_agree (L : @nn.Linear F) (k : nat) (x1 x2 y1 y2 : Tensor) :
  agree1 k x1 x2 ->
  nn.Linear_forward L x1 = Ok y1 -> nn.Linear_forward L x2 = Ok y2 -> agree1 k y1 y2.
Proof.
  intros [Sx Dx] H1 H2. apply shape_eq in Sx. destruct Sx as (X0 & X1 & X2).
  apply Linear_forward_Ok in H1. apply Linear_forward_Ok in H2.
  destruct H1 as (_ & S1 & A1). destruct H2 as (_ & S2 & A2).
  split; [congruence|]. intros b t e Hb Ht. rewrite A1, A2.
  apply shape_triple in S1. destruct S1 as (E0 & _ & _).
  f_equal. apply fsum_ext. intros i _. rewrite Dx by lia. reflexivity.
Qed.

(** A convolution of kernel size [ks] with [pad] zeros on both sides reads,
    for the output position [t], the input positions [t - pad] to
    [t - pad + ks - 1]. *)
Lemma Conv1d_agree (C : @nn.Conv1d F) (k m : nat) (x1 x2 y1 y2 : Tensor) :
  agree2 m x1 x2 -> k + nn.kernel_size C <= m + nn.padding C + 1 ->
  nn.Conv1d_forward C x1 = Ok y1 -> nn.Conv1d_forward C x2 = Ok y2 -> agree2 k y1 y2.
Proof.
  intros [Sx Dx] Hm H1 H2. apply shape_eq in Sx. destruct Sx as (X0 & X1 & X2).
  apply Conv1d_forward_Ok in H1. apply Conv1d_forward_Ok in H2.
  destruct H1 as (_ & _ & S1 & A1). destruct H2 as (_ & _ & S2 & A2).
  split; [congruence|]. intros b o t Hb Ht. rewrite A1, A2.
  apply shape_triple in S1. destruct S1 as (E0 & _ & _).
  f_equal. apply fsum_ext. intros c _. apply fsum_ext. intros j Hj.
  f_equal. unfold nn.zero_padded. rewrite <- X2.
  destruct (nn.padding C <=? t + j) eqn:E1; [|reflexivity].
  destruct (t + j <? nn.padding C + Torch.dim2 x1) eqn:E2; [|reflexivity].
  apply Nat.leb_le in E1. cbn [andb]. apply Dx; lia.
Qed.

Lemma glu_agree (k : nat) (x1 x2 y1 y2 : Tensor) :
  agree2 k x1 x2 -> Torch.glu x1 = Ok y1 -> Torch.glu x2 = Ok y2 -> agree2 k y1 y2.
Proof.
  intros [Sx Dx] H1 H2. apply shape_eq in Sx. destruct Sx as (X0 & X1 & X2).
  apply glu_Ok in H1. apply glu_Ok in H2.
  destruct H1 as (_ & S1 & A1). destruct H2 as (_ & S2 & A2).
  split; [congruence|]. intros b c t Hb Ht. rewrite A1, A2.
  apply shape_triple in S1. destruct S1 as (E0 & _ & _).
  rewrite <- X1. rewrite !Dx by lia. reflexivity.
Qed.

Lemma cat2_agree (k : nat) (pad x1 x2 z1 z2 : Tensor) :
  agree2 k x1 x2 ->
  Torch.cat2 pad x1 = Ok z1 -> Torch.cat2 pad x2 = Ok z2 ->
  agree2 (k + Torch.dim2 pad) z1 z2.
Proof.
  intros [Sx Dx] H1 H2. apply shape_eq in Sx. destruct Sx as (X0 & X1 & X2).
  apply cat2_Ok in H1. apply cat2_Ok in H2.
  destruct H1 as (P0 & _ & S1 & A1). destruct H2 as (_ & _ & S2 & A2).
  split; [congruence|]. intros b c t Hb Ht. rewrite A1, A2.
  apply shape_triple in S1. destruct S1 as (E0 & _ & _).
  destruct (t <? Torch.dim2 pad) eqn:E; [reflexivity|].
  apply Nat.ltb_ge in E. apply Dx; lia.
Qed.

Lemma matmul_agree (k : nat) (x1 x2 y z1 z2 : Tensor) :
  agree1 k x1 x2 ->
  Torch.matmul x1 y = Ok z1 -> Torch.matmul x2 y = Ok z2 -> agree1 k z1 z2.
Proof.
  intros [Sx Dx] H1 H2. apply shape_eq in Sx. destruct Sx as (X0 & X1 & X2).
  apply matmul_Ok in H1. apply matmul_Ok in H2.
  destruct H1 as (B0 & _ & S1 & S1' & A1). destruct H2 as (B0' & _ & S2 & S2' & A2).
  split.
  - unfold Torch.shape. f_equal; [f_equal|]; congruence.
  - intros b i j Hb Hi. rewrite A1, A2.
    destruct (bidx_bound _ _ _ b B0 Hb) as (Hbx & _ & _ & _).
    rewrite <- X0, <- X2. apply fsum_ext. intros l _.
    rewrite Dx by assumption. reflexivity.
Qed.

Lemma softmax_agree (k : nat) (x1 x2 : Tensor) :
  agree1 k x1 x2 -> agree1 k (Torch.softmax x1) (Torch.softmax x2).
Proof.
  intros [Sx Dx]. apply shape_eq in Sx. destruct Sx as (X0 & X1 & X2).
  split; [unfold Torch.shape; simpl; congruence|].
  intros b i j Hb Hi. simpl in *. rewrite <- X2. rewrite Dx by assumption.
  f_equal. apply fsum_ext. intros j' _. rewrite Dx by assumption. reflexivity.
Qed.

Tactic Notation "stepR" hyp(H) ident(x) ident(Hx) :=
  apply bindR_Ok in H; destruct H as (x & Hx & H).

Tactic Notation "stepM" hyp(H) ident(x) ident(Hx) :=
  let g := fresh "g" in
  apply bind_Ok in H; destruct H as (x & g & Hx & H);
  try (apply lift_Ok in Hx; destruct Hx as [Hx ->]).

Lemma calculate_attention_agree (self : @Decoder.Decoder F) (k : nat)
    (emb1 emb2 c1 c2 ec em a1 a2 r1 r2 : Tensor) :
  agree1 k emb1 emb2 -> agree2 k c1 c2 ->
  Decoder.calculate_attention self emb1 c1 ec em = Ok (a1, r1) ->
  Decoder.calculate_attention self emb2 c2 ec em = Ok (a2, r2) ->
  agree1 k a1 a2 /\ agree2 k r1 r2.
Proof.
  intros He Hc H1 H2. unfold Decoder.calculate_attention in H1, H2.
  stepR H1 ce1 Hce1. stepR H2 ce2 Hce2.
  stepR H1 s1 Hs1. stepR H2 s2 Hs2.
  stepR H1 en1 Hen1. stepR H2 en2 Hen2.
  stepR H1 es1 Hes1. stepR H2 es2 Hes2.
  stepR H1 at1 Hat1. stepR H2 at2 Hat2.
  stepR H1 ah1 Hah1. stepR H2 ah2 Hah2.
  stepR H1 t1 Ht1. stepR H2 t2 Ht2.
  inversion H1; subst a1 r1; clear H1. inversion H2; subst a2 r2; clear H2.
  assert (es2 = es1) by congruence. subst es2.
  pose proof (Linear_agree _ k _ _ _ _ (permute_agree21 k _ _ Hc) Hce1 Hce2) as Ace.
  pose proof (add_agree1 k _ _ _ _ _ _ He Ace Hs1 Hs2) as As.
  pose proof (matmul_agree k _ _ _ _ _
                (mul_scalar_agree1 k _ _ (Decoder.scale self) As) Hen1 Hen2) as Aen.
  pose proof (softmax_agree k _ _ Aen) as Aatt.
  split; [exact Aatt|].
  pose proof (matmul_agree k _ _ _ _ _ Aatt Hat1 Hat2) as Aat.
  pose proof (Linear_agree _ k _ _ _ _ Aat Hah1 Hah2) as Aah.
  apply mul_scalar_agree2.
  exact (add_agree2 k _ _ _ _ _ _ Hc (permute_agree12 k _ _ Aah) Ht1 Ht2).
Qed.

(** A stage with dropout disabled: the convolution sees the [kernel - 1]
    pad positions and the input positions up to its own, nothing later. *)
Lemma Decoder_stage_agree (self : @Decoder.Decoder F) (conv : @nn.Conv1d F) (k : nat)
    (emb1 emb2 ec em x1 x2 a1 a2 y1 y2 : Tensor) (g1 g2 g1' g2' : RNG) :
  nn.training (Decoder.dropout self) = false ->
  nn.padding conv = 0 ->
  nn.kernel_size conv = Z.to_nat (Decoder.kernel_size self) ->
  agree1 k emb1 emb2 -> agree2 k x1 x2 ->
  Decoder.stage self conv emb1 ec em x1 g1 = Ok (a1, y1, g1') ->
  Decoder.stage self conv emb2 ec em x2 g2 = Ok (a2, y2, g2') ->
  agree1 k a1 a2 /\ agree2 k y1 y2.
Proof.
  intros Hmode Hpad Hks He Hx H1 H2. unfold Decoder.stage in H1, H2.
  stepM H1 d1 Hd1. stepM H2 d2 Hd2.
  rewrite Dropout_forward_eval in Hd1, Hd2 by exact Hmode.
  inversion Hd1; subst; clear Hd1. inversion Hd2; subst; clear Hd2.
  stepM H1 p1 Hp1. stepM H2 p2 Hp2.
  stepM H1 z1 Hz1. stepM H2 z2 Hz2.
  stepM H1 c1 Hc1. stepM H2 c2 Hc2.
  stepM H1 u1 Hu1. stepM H2 u2 Hu2.
  stepM H1 ac1 Hac1. stepM H2 ac2 Hac2.
  destruct ac1 as [b1 r1]. destruct ac2 as [b2 r2].
  stepM H1 s1 Hs1. stepM H2 s2 Hs2.
  apply ret_Ok in H1. destruct H1 as [H1 _]. inversion H1; subst; clear H1.
  apply ret_Ok in H2. destruct H2 as [H2 _]. inversion H2; subst; clear H2.
  assert (Ep : p2 = p1).
  { destruct Hx as [Sx _]. apply shape_eq in Sx. destruct Sx as (X0 & X1 & _).
    rewrite <- X0, <- X1 in Hp2. congruence. }
  subst p2.
  apply full_Ok in Hp1. destruct Hp1 as (Hk1 & Sp & _).
  apply shape_triple in Sp. destruct Sp as (_ & _ & Sp).
  pose proof (cat2_agree k _ _ _ _ _ Hx Hz1 Hz2) as Az.
  assert (Ac : agree2 k c1 c2).
  { apply (Conv1d_agree conv k _ _ _ _ _ Az); [|exact Hc1|exact Hc2].
    rewrite Hks, Hpad, Sp. lia. }
  pose proof (glu_agree k _ _ _ _ Ac Hu1 Hu2) as Au.
  destruct (calculate_attention_agree self k _ _ _ _ _ _ _ _ _ _ He Au Hac1 Hac2)
    as [Aa Ar].
  split; [exact Aa|].
  apply mul_scalar_agree2.
  exact (add_agree2 k _ _ _ _ _ _ Ar Hx Hs1 Hs2).
Qed.

Lemma Decoder_loop_agree (self : @Decoder.Decoder F) (k : nat) (emb1 emb2 ec em : Tensor)
    (cs : list (@nn.Conv1d F)) :
  nn.training (Decoder.dropout self) = false ->
  (forall c, In c cs ->
     nn.padding c = 0 /\ nn.kernel_size c = Z.to_nat (Decoder.kernel_size self)) ->
  agree1 k emb1 emb2 ->
  forall (x1 x2 : Tensor) (a1 a2 c1 c2 : option Tensor) (g1 g2 : RNG)
         (r1 r2 : Tensor * option Tensor * option Tensor * RNG),
  agree2 k x1 x2 -> opt_rel (agree1 k) a1 a2 -> opt_rel (agree2 k) c1 c2 ->
  Decoder.loop self cs emb1 ec em x1 a1 c1 g1 = Ok r1 ->
  Decoder.loop self cs emb2 ec em x2 a2 c2 g2 = Ok r2 ->
  opt_rel (agree1 k) (snd (fst (fst r1))) (snd (fst (fst r2))) /\
  opt_rel (agree2 k) (snd (fst r1)) (snd (fst r2)).
Proof.
  intros Hmode Hcs He.
  induction cs as [|conv rest IH]; intros x1 x2 a1 a2 c1 c2 g1 g2 r1 r2 Hx Ha Hc H1 H2.
  - simpl in H1, H2. unfold ret in H1, H2.
    inversion H1; subst. inversion H2; subst. simpl. auto.
  - simpl in H1, H2.
    apply bind_Ok in H1. destruct H1 as ([b1 y1] & ga & Hs1 & H1).
    apply bind_Ok in H2. destruct H2 as ([b2 y2] & gb & Hs2 & H2).
    destruct (Hcs conv (or_introl eq_refl)) as [Hpad Hks].
    destruct (Decoder_stage_agree self conv k _ _ _ _ _ _ _ _ _ _ _ _ _ _
                Hmode Hpad Hks He Hx Hs1 Hs2) as [Ab Ay].
    apply (IH (fun c Hin => Hcs c (or_intror Hin)) y1 y2 (Some b1) (Some b2)
              (Some y1) (Some y2) ga gb r1 r2); auto.
Qed.

Lemma Decoder_forward_agree (self : @Decoder.Decoder F) (k : nat)
    (trg1 trg2 : LongTensor) (ec em o1 o2 a1 a2 : Tensor) (g1 g2 g1' g2' : RNG) :
  nn.training (Decoder.dropout self) = false ->
  (forall c, In c (Decoder.convs self) ->
     nn.padding c = 0 /\ nn.kernel_size c = Z.to_nat (Decoder.kernel_size self)) ->
  same_prefix k trg1 trg2 -> k <= cols trg1 ->
  Decoder.forward self trg1 ec em g1 = Ok (o1, a1, g1') ->
  Decoder.forward self trg2 ec em g2 = Ok (o2, a2, g2') ->
  agree1 k o1 o2 /\ agree1 k a1 a2.
Proof.
  intros Hmode Hcs Hp Hk H1 H2. unfold Decoder.forward in H1, H2.
  stepM H1 te1 Hte1. stepM H2 te2 Hte2.
  stepM H1 pe1 Hpe1. stepM H2 pe2 Hpe2.
  stepM H1 s1 Hs1. stepM H2 s2 Hs2.
  stepM H1 e1 He1. stepM H2 e2 He2.
  rewrite Dropout_forward_eval in He1, He2 by exact Hmode.
  inversion He1; subst; clear He1. inversion He2; subst; clear He2.
  stepM H1 ci1 Hci1. stepM H2 ci2 Hci2.
  apply bind_Ok in H1. destruct H1 as ([[x1 b1] c1] & ga & Hl1 & H1).
  apply bind_Ok in H2. destruct H2 as ([[x2 b2] c2] & gb & Hl2 & H2).
  assert (Epe : pe2 = pe1).
  { destruct Hp as (Hr & Hc & _). rewrite <- Hr, <- Hc in Hpe2. congruence. }
  subst pe2.
  pose proof (Embedding_agree _ k _ _ _ _ Hp Hk Hte1 Hte2) as Ate.
  pose proof (add_agree1 k _ _ _ _ _ _ Ate (agree1_refl k pe1) Hs1 Hs2) as Ae.
  pose proof (Linear_agree _ k _ _ _ _ Ae Hci1 Hci2) as Aci.
  destruct (Decoder_loop_agree self k _ _ ec em (Decoder.convs self) Hmode Hcs Ae
              _ _ None None None None _ _ _ _ (permute_agree12 k _ _ Aci) I I Hl1 Hl2)
    as [Ab Ac].
  cbn [fst snd] in Ab, Ac.
  destruct c1 as [c1|]; [|apply bind_Ok in H1; destruct H1 as (? & ? & H1 & _); discriminate].
  destruct c2 as [c2|]; [|apply bind_Ok in H2; destruct H2 as (? & ? & H2 & _); discriminate].
  stepM H1 v1 Hv1. stepM H2 v2 Hv2.
  apply ret_Ok in Hv1. destruct Hv1 as [-> ->].
  apply ret_Ok in Hv2. destruct Hv2 as [-> ->].
  stepM H1 h1 Hh1. stepM H2 h2 Hh2.
  stepM H1 d1 Hd1. stepM H2 d2 Hd2.
  rewrite Dropout_forward_eval in Hd1, Hd2 by exact Hmode.
  inversion Hd1; subst; clear Hd1. inversion Hd2; subst; clear Hd2.
  stepM H1 l1 Hl1'. stepM H2 l2 Hl2'.
  destruct b1 as [b1|]; [|apply bind_Ok in H1; destruct H1 as (? & ? & H1 & _); discriminate].
  destruct b2 as [b2|]; [|apply bind_Ok in H2; destruct H2 as (? & ? & H2 & _); discriminate].
  stepM H1 w1 Hw1. stepM H2 w2 Hw2.
  apply ret_Ok in Hw1. destruct Hw1 as [-> ->].
  apply ret_Ok in Hw2. destruct Hw2 as [-> ->].
  apply ret_Ok in H1. destruct H1 as [H1 _]. inversion H1; subst; clear H1.
  apply ret_Ok in H2. destruct H2 as [H2 _]. inversion H2; subst; clear H2.
  simpl in Ab, Ac. split; [|exact Ab].
  pose proof (Linear_agree _ k _ _ _ _ (permute_agree21 k _ _ Ac) Hh1 Hh2) as Ah.
  exact (Linear_agree _ k _ _ _ _ Ah Hl1' Hl2').
Qed.

End Causality.

(** ** The attention weights are a softmax over the source positions *)

Section Attention.
Context {F : Type} {SF : Scalar F}.

Local Abbreviation Tensor := (@Torch.Tensor F).

Lemma calculate_attention_softmax (self : @Decoder.Decoder F)
    (embedded conved ec em a r : Tensor) :
  Decoder.calculate_attention self embedded conved ec em = Ok (a, r) ->
  softmax_over (Torch.dim1 ec) a.
Proof.
  intros H. unfold Decoder.calculate_attention in H.
  apply bindR_Ok in H. destruct H as (ce & _ & H).
  apply bindR_Ok in H. destruct H as (s1 & _ & H).
  apply bindR_Ok in H. destruct H as (en & Hen & H).
  apply bindR_Ok in H. destruct H as (es & _ & H).
  apply bindR_Ok in H. destruct H as (at' & _ & H).
  apply bindR_Ok in H. destruct H as (ah & _ & H).
  apply bindR_Ok in H. destruct H as (s2 & _ & H).
  inversion H; subst. exists en. split; [|reflexivity].
  apply matmul_Ok in Hen. destruct Hen as (_ & _ & _ & Hd & _). exact Hd.
Qed.

Lemma Decoder_stage_softmax (self : @Decoder.Decoder F) (conv : @nn.Conv1d F)
    (embedded ec em x a y : Tensor) (g g' : RNG) :
  Decoder.stage self conv embedded ec em x g = Ok (a, y, g') ->
  softmax_over (Torch.dim1 ec) a.
Proof.
  intros H. unfold Decoder.stage in H.
  do 5 (apply bind_Ok in H; destruct H as (? & ? & _ & H)).
  apply bind_Ok in H. destruct H as ([a' c'] & g0 & Hac & H).
  apply lift_Ok in Hac. destruct Hac as [Hac _].
  apply bind_Ok in H. destruct H as (? & ? & _ & H).
  apply ret_Ok in H. destruct H as [H _]. inversion H; subst.
  eapply calculate_attention_softmax. exact Hac.
Qed.

Lemma Decoder_loop_softmax (self : @Decoder.Decoder F) (embedded ec em : Tensor)
    (cs : list (@nn.Conv1d F)) :
  forall (x : Tensor) (a0 c0 : option Tensor) (g : RNG)
         (r : Tensor * option Tensor * option Tensor * RNG),
  (forall a, a0 = Some a -> softmax_over (Torch.dim1 ec) a) ->
  Decoder.loop self cs embedded ec em x a0 c0 g = Ok r ->
  forall a, snd (fst (fst r)) = Some a -> softmax_over (Torch.dim1 ec) a.
Proof.
  induction cs as [|conv rest IH]; intros x a0 c0 g r Ha0 H a Ha.
  - simpl in H. unfold ret in H. inversion H; subst. simpl in Ha. auto.
  - simpl in H. apply bind_Ok in H. destruct H as ([b y] & g0 & Hs & H).
    apply (IH y (Some b) (Some y) g0 r); auto.
    intros a' Ha'. inversion Ha'; subst.
    eapply Decoder_stage_softmax. exact Hs.
Qed.

Lemma Decoder_forward_softmax (self : @Decoder.Decoder F) (trg : LongTensor)
    (ec em output attention : Tensor) (g g' : RNG) :
  Decoder.forward self trg ec em g = Ok (output, attention, g') ->
  softmax_over (Torch.dim1 ec) attention.
Proof.
  intros H. unfold Decoder.forward in H.
  do 5 (apply bind_Ok in H; destruct H as (? & ? & _ & H)).
  apply bind_Ok in H. destruct H as ([[ci a] c] & g0 & Hl & H).
  do 4 (apply bind_Ok in H; destruct H as (? & ? & _ & H)).
  apply bind_Ok in H. destruct H as (att & g1 & Ha & H).
  apply ret_Ok in H. destruct H as [H _]. inversion H; subst.
  destruct a as [a|]; [|discriminate].
  apply ret_Ok in Ha. destruct Ha as [-> _].
  eapply (Decoder_loop_softmax self _ ec em (Decoder.convs self) _ None None _ _);
    [discriminate | exact Hl | reflexivity].
Qed.

End Attention.

(** ** Softmax over the real numbers *)

Lemma fsum_div (n : nat) (f : nat -> R) (c : R) :
  Torch.fsum n (fun j => f j / c)%R = (Torch.fsum n f / c)%R.
Proof.
  induction n as [|n IH]; simpl.
  - unfold Rdiv. rewrite Rmult_0_l. reflexivity.
  - rewrite IH. unfold Rdiv. rewrite Rmult_plus_distr_r. reflexivity.
Qed.

Lemma fsum_exp_nonneg (n : nat) (f : nat -> R) :
  (0 <= Torch.fsum n (fun j => exp (f j)))%R.
Proof.
  induction n as [|n IH]; simpl; [apply Rle_refl|].
  pose proof (exp_pos (f n)). lra.
Qed.

Lemma fsum_exp_pos (n : nat) (f : nat -> R) :
  1 <= n -> (0 < Torch.fsum n (fun j => exp (f j)))%R.
Proof.
  intros Hn. destruct n as [|n]; [lia|]. simpl.
  pose proof (fsum_exp_nonneg n f). pose proof (exp_pos (f n)). lra.
Qed.

(** In exact arithmetic every row of a softmax over at least one entry is
    a probability distribution. *)
Lemma softmax_row (x : @Torch.Tensor R) (b i : nat) :
  1 <= Torch.dim2 x ->
  (forall j, (0 < Torch.at3 (Torch.softmax x) b i j)%R) /\
  Torch.fsum (Torch.dim2 (Torch.softmax x)) (fun j => Torch.at3 (Torch.softmax x) b i j)
    = 1%R.
Proof.
  intros Hn. simpl.
  pose proof (fsum_exp_pos (Torch.dim2 x) (fun j => Torch.at3 x b i j) Hn) as Hpos.
  split.
  - intros j. apply Rdiv_lt_0_compat; [apply exp_pos|exact Hpos].
  - rewrite (fsum_div (Torch.dim2 x) (fun j => exp (Torch.at3 x b i j))).
    apply Rdiv_diag. lra.
Qed.

(** ** The two paddings on a concrete sequence *)

(** With one position of padding on both sides, the sums of three
    neighbours of 1, 2, 3, 4 are 3, 6, 9, 7: the output at position [t] reads
    position [t + 1]. *)
Example same_conv_ramp :
  exists y, nn.Conv1d_forward Scenario.same_conv Scenario.ramp = Ok y /\
            Torch.shape y = (1, 2, 4) /\
            Torch.at3 y 0 0 0 = 3%R /\ Torch.at3 y 0 0 1 = 6%R /\
            Torch.at3 y 0 0 2 = 9%R /\ Torch.at3 y 0 0 3 = 7%R.
Proof.
  eexists. split; [reflexivity|]. split; [reflexivity|].
  repeat split; simpl; unfold nn.zero_padded; simpl; lra.
Qed.

(** With two pad positions on the left and none on the right, they are
    1, 3, 6, 9: the output at position [t] reads nothing after [t]. *)
Example causal_conv_ramp :
  exists pad padded y,
    Torch.full 1 1 (3 - 1) 0%Z = Ok pad /\
    Torch.cat2 pad Scenario.ramp = Ok padded /\
    nn.Conv1d_forward Scenario.causal_conv padded = Ok y /\
    Torch.shape y = (1, 2, 4) /\
    Torch.at3 y 0 0 0 = 1%R /\ Torch.at3 y 0 0 1 = 3%R /\
    Torch.at3 y 0 0 2 = 6%R /\ Torch.at3 y 0 0 3 = 9%R.
Proof.
  do 3 eexists. split; [reflexivity|]. split; [reflexivity|]. split; [reflexivity|].
  split; [reflexivity|].
  repeat split; simpl; unfold nn.zero_padded, Q2R; simpl; lra.
Qed.

(** A sequence of length 0 is not a valid input: the convolution of the
    first stage rejects an input shorter than its kernel. *)
Example empty_sequence_rejected :
  exists enc,
    Encoder.__init__ Scenario.encoder_weights 10 8 16 2 3%Z (1 # 4)%Q = Ok enc /\
    Encoder.forward (Encoder.eval enc) Scenario.empty_sequences Scenario.generator
      = Raise RuntimeError.
Proof.
  eexists. split; reflexivity.
Qed.

(** * The claims *)

(** C3 (amended). Shape invariance: the forward pass of an encoder
    constructed with at least one layer and one hidden channel, in either
    mode, on in-vocabulary tokens of shape (B, S) with 1 <= S <= 100, returns
    two tensors of shape (B, S, emb_dim) each; the forward pass of a decoder
    constructed with at least one layer, one hidden channel, a kernel size of
    at least 1 and a pad index that is a 64-bit signed integer, on
    in-vocabulary tokens of shape (B, T) with 1 <= T <= 100 and encoder
    outputs of shape (B, S, emb_dim), returns logits of shape
    (B, T, output_dim) and attention of shape (B, T, S). *)
Theorem shape_invariance {F : Type} {SF : Scalar F} :
  (forall (w : Encoder.Weights) (input_dim emb_dim hid_dim n_layers : nat) (k : Z)
          (p : Q) (enc : @Encoder.Encoder F) (mode : bool) (src : LongTensor) (g : RNG),
     Encoder.__init__ w input_dim emb_dim hid_dim n_layers k p = Ok enc ->
     1 <= n_layers -> 1 <= hid_dim ->
     in_vocab input_dim src -> 1 <= cols src <= 100 ->
     exists conved combined g',
       Encoder.forward (Encoder.train enc mode) src g = Ok (conved, combined, g') /\
       Torch.shape conved = (rows src, cols src, emb_dim) /\
       Torch.shape combined = (rows src, cols src, emb_dim)) /\
  (forall (w : Decoder.Weights) (output_dim emb_dim hid_dim n_layers : nat) (k : Z)
          (p : Q) (pad : Z) (dec : @Decoder.Decoder F) (mode : bool) (trg : LongTensor)
          (encoder_conved encoder_combined : @Torch.Tensor F) (s : nat) (g : RNG),
     Decoder.__init__ w output_dim emb_dim hid_dim n_layers k p pad = Ok dec ->
     1 <= n_layers -> 1 <= hid_dim -> (1 <= k)%Z -> int64 pad ->
     in_vocab output_dim trg -> 1 <= cols trg <= 100 ->
     Torch.shape encoder_conved = (rows trg, s, emb_dim) ->
     Torch.shape encoder_combined = (rows trg, s, emb_dim) ->
     exists output attention g',
       Decoder.forward (Decoder.train dec mode) trg encoder_conved encoder_combined g
         = Ok (output, attention, g') /\
       Torch.shape output = (rows trg, cols trg, output_dim) /\
       Torch.shape attention = (rows trg, cols trg, s)).
Proof.
  split.
  - intros w input_dim emb_dim hid_dim n_layers k p enc mode src g Hinit Hn Hh Hv Hs.
    apply Encoder_init_wf in Hinit.
    apply (encoder_wf_train _ _ _ _ _ _ mode) in Hinit.
    destruct (Encoder_forward_returns _ _ _ _ _ _ src g Hinit Hn Hh Hv)
      as ([conved combined] & g' & Hrun & S1 & S2); [lia | right; lia |].
    exists conved, combined, g'. auto.
  - intros w output_dim emb_dim hid_dim n_layers k p pad dec mode trg ec em s g
      Hinit Hn Hh Hk Hpad Hv Ht Sec Sem.
    pose proof (Decoder_init_pad _ _ _ _ _ _ _ _ _ mode Hinit) as Epad.
    apply Decoder_init_wf in Hinit.
    apply (decoder_wf_train _ _ _ _ _ _ mode) in Hinit.
    destruct (Decoder_forward_returns _ _ _ _ _ _ trg ec em s g Hinit Hn Hh Hk Hv)
      as ([output attention] & g' & Hrun & S1 & S2);
      [lia | right; lia | auto | auto | rewrite Epad; apply int64_fits; exact Hpad |].
    exists output, attention, g'. auto.
Qed.

Lemma scenario_src_in_vocab : in_vocab 10 Scenario.src.
Proof. intros b t Hb Ht. simpl in *. lia. Qed.

Lemma scenario_trg_in_vocab : in_vocab 12 Scenario.trg.
Proof. intros b t Hb Ht. simpl in *. lia. Qed.

Lemma shape_invariance_witness :
  (exists enc conved combined g',
     Encoder.__init__ Scenario.encoder_weights 10 8 16 2 3%Z (1 # 4)%Q = Ok enc /\
     Encoder.forward (Encoder.train enc false) Scenario.src Scenario.generator
       = Ok (conved, combined, g') /\
     Torch.shape conved = (2, 4, 8) /\ Torch.shape combined = (2, 4, 8)) /\
  (exists dec output attention g',
     Decoder.__init__ Scenario.decoder_weights 12 8 16 2 3%Z (1 # 4)%Q 0%Z = Ok dec /\
     Decoder.forward (Decoder.train dec false) Scenario.trg Scenario.encoder_conved
       Scenario.encoder_combined Scenario.generator = Ok (output, attention, g') /\
     Torch.shape output = (2, 3, 12) /\ Torch.shape attention = (2, 3, 4)).
Proof.
  split.
  - eexists.
    destruct (proj1 (@shape_invariance R R_scalar) Scenario.encoder_weights 10 8 16 2 3%Z
                (1 # 4)%Q _ false Scenario.src Scenario.generator eq_refl)
      as (conved & combined & g' & H);
      [lia | lia | exact scenario_src_in_vocab | simpl; lia |].
    exists conved, combined, g'. split; [reflexivity | exact H].
  - eexists.
    destruct (proj2 (@shape_invariance R R_scalar) Scenario.decoder_weights 12 8 16 2 3%Z
                (1 # 4)%Q 0%Z _ false Scenario.trg Scenario.encoder_conved
                Scenario.encoder_combined 4 Scenario.generator eq_refl)
      as (output & attention & g' & H);
      [lia | lia | lia | unfold int64; lia | exact scenario_trg_in_vocab | simpl; lia
      | reflexivity | reflexivity |].
    exists output, attention, g'. split; [reflexivity | exact H].
Defined.

(** C3 as stated fails for sequences of length 0, which are no longer than
    100: the convolution of the first stage rejects an input shorter than its
    kernel, and the forward pass raises instead of returning. *)
Lemma shape_invariance_counterexample :
  exists enc,
    Encoder.__init__ Scenario.encoder_weights 10 8 16 2 3%Z (1 # 4)%Q = Ok enc /\
    in_vocab 10 Scenario.empty_sequences /\
    cols Scenario.empty_sequences <= 100 /\
    Encoder.forward (Encoder.eval enc) Scenario.empty_sequences Scenario.generator
      = Raise RuntimeError.
Proof.
  eexists. split; [reflexivity|].
  split; [intros b t Hb Ht; simpl in Ht; lia|].
  split; [simpl; lia|reflexivity].
Qed.

(** C4. The wrapper is a pure composition: [Seq2Seq.forward] runs the
    encoder on the source tokens, then the decoder on the target tokens and
    the two encoder outputs, and returns the decoder's result as it is; an
    exception of either component is propagated unchanged. *)
Theorem seq2seq_composition {F : Type} {SF : Scalar F}
    (self : @Seq2Seq.Seq2Seq F) (src trg : LongTensor) (g : RNG) :
  Seq2Seq.forward self src trg g =
  match Encoder.forward (Seq2Seq.encoder self) src g with
  | Ok (encoder_conved, encoder_combined, g') =>
      Decoder.forward (Seq2Seq.decoder self) trg encoder_conved encoder_combined g'
  | Raise e => Raise e
  end.
Proof.
  unfold Seq2Seq.forward, bind.
  destruct (Encoder.forward (Seq2Seq.encoder self) src g) as [[[c m] g']|e];
    [|reflexivity].
  destruct (Decoder.forward (Seq2Seq.decoder self) trg c m g') as [[[o a] g'']|e];
    reflexivity.
Qed.

(** C6. The odd-kernel precondition: constructing an encoder with an even
    kernel size raises [AssertionError], whatever the other arguments; with
    an odd kernel size the constructor never raises [AssertionError]; and no
    forward pass of any encoder raises [AssertionError], so the check is made
    at construction only. *)
Theorem odd_kernel_precondition {F : Type} {SF : Scalar F} :
  (forall (w : @Encoder.Weights F) (input_dim emb_dim hid_dim n_layers : nat)
          (k : Z) (p : Q),
     Encoder.__init__ w input_dim emb_dim hid_dim n_layers (2 * k) p
       = Raise AssertionError) /\
  (forall (w : @Encoder.Weights F) (input_dim emb_dim hid_dim n_layers : nat)
          (k : Z) (p : Q),
     Encoder.__init__ w input_dim emb_dim hid_dim n_layers (2 * k + 1) p
       <> Raise AssertionError) /\
  (forall (enc : @Encoder.Encoder F) (src : LongTensor) (g : RNG),
     Encoder.forward enc src g <> Raise AssertionError).
Proof.
  split; [|split].
  - intros w i e h n k p. unfold Encoder.__init__.
    replace ((2 * k) mod 2)%Z with 0%Z; [reflexivity|].
    symmetry. rewrite Z.mul_comm. apply Z.mod_mul. lia.
  - intros w i e h n k p. unfold Encoder.__init__.
    replace ((2 * k + 1) mod 2)%Z with 1%Z.
    + cbn [Z.eqb Pos.eqb negb].
      match goal with |- bindR ?m _ <> _ => destruct m as [cs|e'] eqn:Ecs end; simpl.
      * destruct (nn.Dropout_init p) as [d|e'] eqn:Ed; simpl; [discriminate|].
        unfold nn.Dropout_init in Ed. destruct (_ && _); inversion Ed. discriminate.
      * apply mapR_raises in Ecs. destruct Ecs as (a & _ & Ha).
        unfold nn.Conv1d_init in Ha.
        destruct (_ <? 0)%Z; [inversion Ha; discriminate|].
        destruct (_ <? 0)%Z; [inversion Ha; discriminate|discriminate].
    + symmetry. rewrite Z.add_comm, Z.mul_comm. rewrite Z.mod_add by lia. reflexivity.
  - intros enc src g H. apply Encoder_forward_raises in H.
    destruct H as [H|[H|H]]; discriminate.
Qed.

(** C7. Encoder same-length convolution: in a constructed encoder (its
    kernel size [k] is odd), every stage of the loop, in either mode, maps an
    input of [hid_dim] channels and length at least [k] to an output of the
    same shape, so of the same length: its convolution pads [(k - 1) / 2]
    positions on both sides. *)
Theorem encoder_same_length {F : Type} {SF : Scalar F}
    (w : @Encoder.Weights F) (input_dim emb_dim hid_dim n_layers : nat) (k : Z) (p : Q)
    (enc : @Encoder.Encoder F) (mode : bool) (conv : @nn.Conv1d F)
    (x : @Torch.Tensor F) (g : RNG) :
  Encoder.__init__ w input_dim emb_dim hid_dim n_layers k p = Ok enc ->
  In conv (Encoder.convs enc) ->
  1 <= hid_dim -> Torch.dim1 x = hid_dim ->
  (k <= Z.of_nat (Torch.dim2 x))%Z ->
  (k mod 2 = 1)%Z /\
  nn.kernel_size conv = Z.to_nat k /\
  nn.padding conv = Z.to_nat ((k - 1) / 2) /\
  exists y g', Encoder.stage (Encoder.train enc mode) conv x g = Ok (y, g') /\
               Torch.dim2 y = Torch.dim2 x /\ Torch.shape y = Torch.shape x.
Proof.
  intros Hinit Hconv Hh Hx Hlen. apply Encoder_init_wf in Hinit.
  destruct Hinit. destruct (ewf_convs0 conv Hconv) as [Hk Hwf].
  split; [exact ewf_odd0|]. split; [apply Hwf|]. split; [apply Hwf|].
  assert (Hk1 : (1 <= k)%Z).
  { pose proof (odd_kernel_padding k ewf_odd0 Hk). lia. }
  destruct (Encoder_stage_returns (Encoder.train enc mode) conv hid_dim k x g
              ewf_odd0 Hk Hwf Hx Hh) as (y & g' & Hrun & Sy); [lia|].
  exists y, g'. split; [exact Hrun|]. split; [|exact Sy].
  unfold Torch.shape in Sy. inversion Sy. reflexivity.
Qed.

Lemma encoder_same_length_witness :
  exists enc conv y g',
    Encoder.__init__ Scenario.encoder_weights 10 8 16 2 3%Z (1 # 4)%Q = Ok enc /\
    nth_error (Encoder.convs enc) 0 = Some conv /\
    Encoder.stage (Encoder.train enc true) conv Scenario.conv_input Scenario.generator
      = Ok (y, g') /\
    Torch.dim2 y = 4.
Proof.
  do 2 eexists.
  destruct (@encoder_same_length R R_scalar Scenario.encoder_weights 10 8 16 2 3%Z
              (1 # 4)%Q _ true _ Scenario.conv_input Scenario.generator eq_refl
              (or_introl eq_refl))
    as (_ & _ & _ & y & g' & Hrun & Hlen & _); [lia | reflexivity | simpl; lia |].
  exists y, g'. split; [reflexivity|]. split; [reflexivity|]. split; [exact Hrun|exact Hlen].
Defined.




(** C10. The lower bound on [n_layers]: a constructed encoder or decoder
    without layers never returns from its forward pass, and on in-vocabulary
    tokens of at most 100 positions the exception is [UnboundLocalError];
    hence a forward pass that returns belongs to a module of at least one
    layer. *)
Theorem n_layers_lower_bound {F : Type} {SF : Scalar F} :
  (forall (w : @Encoder.Weights F) (input_dim emb_dim hid_dim : nat) (k : Z) (p : Q)
          (enc : @Encoder.Encoder F) (mode : bool) (src : LongTensor) (g : RNG),
     Encoder.__init__ w input_dim emb_dim hid_dim 0 k p = Ok enc ->
     (exists e, Encoder.forward (Encoder.train enc mode) src g = Raise e) /\
     (in_vocab input_dim src -> cols src <= 100 ->
      Encoder.forward (Encoder.train enc mode) src g = Raise UnboundLocalError)) /\
  (forall (w : @Decoder.Weights F) (output_dim emb_dim hid_dim : nat) (k : Z) (p : Q)
          (pad : Z) (dec : @Decoder.Decoder F) (mode : bool) (trg : LongTensor)
          (encoder_conved encoder_combined : @Torch.Tensor F) (g : RNG),
     Decoder.__init__ w output_dim emb_dim hid_dim 0 k p pad = Ok dec ->
     (exists e, Decoder.forward (Decoder.train dec mode) trg encoder_conved
                  encoder_combined g = Raise e) /\
     (in_vocab output_dim trg -> cols trg <= 100 ->
      Decoder.forward (Decoder.train dec mode) trg encoder_conved encoder_combined g
        = Raise UnboundLocalError)) /\
  (forall (w : @Encoder.Weights F) (input_dim emb_dim hid_dim n_layers : nat) (k : Z)
          (p : Q) (enc : @Encoder.Encoder F) (mode : bool) (src : LongTensor) (g : RNG)
          (r : @Torch.Tensor F * @Torch.Tensor F * RNG),
     Encoder.__init__ w input_dim emb_dim hid_dim n_layers k p = Ok enc ->
     Encoder.forward (Encoder.train enc mode) src g = Ok r -> 1 <= n_layers) /\
  (forall (w : @Decoder.Weights F) (output_dim emb_dim hid_dim n_layers : nat) (k : Z)
          (p : Q) (pad : Z) (dec : @Decoder.Decoder F) (mode : bool) (trg : LongTensor)
          (encoder_conved encoder_combined : @Torch.Tensor F) (g : RNG)
          (r : @Torch.Tensor F * @Torch.Tensor F * RNG),
     Decoder.__init__ w output_dim emb_dim hid_dim n_layers k p pad = Ok dec ->
     Decoder.forward (Decoder.train dec mode) trg encoder_conved encoder_combined g = Ok r ->
     1 <= n_layers).
Proof.
  assert (HE : forall (enc : @Encoder.Encoder F) i e h n k src g r,
             encoder_wf enc i e h n k -> Encoder.forward enc src g = Ok r -> 1 <= n).
  { intros enc i e h n k src g r W Hrun. apply Encoder_forward_Ok_layers in Hrun.
    destruct W. destruct (Encoder.convs enc); [congruence|simpl in *; lia]. }
  assert (HD : forall (dec : @Decoder.Decoder F) o e h n k trg ec em g r,
             decoder_wf dec o e h n k -> Decoder.forward dec trg ec em g = Ok r -> 1 <= n).
  { intros dec o e h n k trg ec em g r W Hrun. apply Decoder_forward_Ok_layers in Hrun.
    destruct W. destruct (Decoder.convs dec); [congruence|simpl in *; lia]. }
  split; [|split; [|split]].
  - intros w i e h k p enc mode src g Hinit. apply Encoder_init_wf in Hinit.
    apply (encoder_wf_train _ _ _ _ _ _ mode) in Hinit. split.
    + destruct (Encoder.forward (Encoder.train enc mode) src g) as [r|err] eqn:Hrun.
      * apply (HE _ _ _ _ _ _ _ _ _ Hinit) in Hrun. lia.
      * exists err. reflexivity.
    + intros Hv Hs. apply (Encoder_forward_unbound _ _ _ _ _ _ _ Hinit Hv). right. exact Hs.
  - intros w o e h k p pad dec mode trg ec em g Hinit. apply Decoder_init_wf in Hinit.
    apply (decoder_wf_train _ _ _ _ _ _ mode) in Hinit. split.
    + destruct (Decoder.forward (Decoder.train dec mode) trg ec em g) as [r|err] eqn:Hrun.
      * apply (HD _ _ _ _ _ _ _ _ _ _ _ Hinit) in Hrun. lia.
      * exists err. reflexivity.
    + intros Hv Hs. apply (Decoder_forward_unbound _ _ _ _ _ _ _ _ _ Hinit Hv). right. exact Hs.
  - intros w i e h n k p enc mode src g r Hinit Hrun. apply Encoder_init_wf in Hinit.
    apply (encoder_wf_train _ _ _ _ _ _ mode) in Hinit. eapply HE; eauto.
  - intros w o e h n k p pad dec mode trg ec em g r Hinit Hrun. apply Decoder_init_wf in Hinit.
    apply (decoder_wf_train _ _ _ _ _ _ mode) in Hinit. eapply HD; eauto.
Qed.

Lemma n_layers_lower_bound_witness :
  (exists enc,
     Encoder.__init__ Scenario.encoder_weights 10 8 16 0 3%Z (1 # 4)%Q = Ok enc /\
     Encoder.forward (Encoder.train enc false) Scenario.src Scenario.generator
       = Raise UnboundLocalError) /\
  (exists dec,
     Decoder.__init__ Scenario.decoder_weights 12 8 16 0 3%Z (1 # 4)%Q 0%Z = Ok dec /\
     Decoder.forward (Decoder.train dec false) Scenario.trg Scenario.encoder_conved
       Scenario.encoder_combined Scenario.generator = Raise UnboundLocalError).
Proof.
  split.
  - eexists. split; [reflexivity|].
    apply (proj1 (@n_layers_lower_bound R R_scalar) Scenario.encoder_weights 10 8 16 3%Z
             (1 # 4)%Q _ false Scenario.src Scenario.generator eq_refl).
    + exact scenario_src_in_vocab.
    + simpl; lia.
  - eexists. split; [reflexivity|].
    apply (proj1 (proj2 (@n_layers_lower_bound R R_scalar)) Scenario.decoder_weights
             12 8 16 3%Z (1 # 4)%Q 0%Z _ false Scenario.trg Scenario.encoder_conved
             Scenario.encoder_combined Scenario.generator eq_refl).
    + exact scenario_trg_in_vocab.
    + simpl; lia.
Defined.

(** C8. GLU correctness: on a tensor of [2 * h] channels, [F.glu] along the
    channel axis returns the tensor of [h] channels whose entries are those
    of the first [h] channels times the sigmoid of those of the last [h]
    channels; and every stage of a constructed encoder or decoder, in either
    mode, applies exactly this unit to the output of its convolution: the
    stage is the residual stage whose body convolves and then gates the
    [2 * hid_dim] channels as the specification says, for every input and
    generator, exceptions included. *)
Theorem glu_correctness {F : Type} {SF : Scalar F} :
  (forall (h : nat) (x : @Torch.Tensor F),
     Torch.dim1 x = 2 * h ->
     exists y, Torch.glu x = Ok y /\ y = glu_spec h x /\
               Torch.shape y = (Torch.dim0 x, h, Torch.dim2 x) /\
               forall b c t, Torch.at3 y b c t =
                 fmul (Torch.at3 x b c t) (Torch.sigmoid (Torch.at3 x b (h + c) t))) /\
  (forall (w : @Encoder.Weights F) (input_dim emb_dim hid_dim n_layers : nat) (k : Z)
          (p : Q) (enc : @Encoder.Encoder F) (mode : bool) (conv : @nn.Conv1d F)
          (x : @Torch.Tensor F) (g : RNG),
     Encoder.__init__ w input_dim emb_dim hid_dim n_layers k p = Ok enc ->
     In conv (Encoder.convs enc) ->
     Encoder.stage (Encoder.train enc mode) conv x g =
     bind (residual_stage BeforeDropout (Encoder.dropout (Encoder.train enc mode))
             (Encoder.scale (Encoder.train enc mode)) (gated_encoder_body hid_dim conv) x)
          (fun r => ret (snd r)) g) /\
  (forall (w : @Decoder.Weights F) (output_dim emb_dim hid_dim n_layers : nat) (k : Z)
          (p : Q) (pad : Z) (dec : @Decoder.Decoder F) (mode : bool)
          (conv : @nn.Conv1d F)
          (embedded encoder_conved encoder_combined x : @Torch.Tensor F) (g : RNG),
     Decoder.__init__ w output_dim emb_dim hid_dim n_layers k p pad = Ok dec ->
     In conv (Decoder.convs dec) ->
     Decoder.stage (Decoder.train dec mode) conv embedded encoder_conved
       encoder_combined x g =
     residual_stage AfterDropout (Decoder.dropout (Decoder.train dec mode))
       (Decoder.scale (Decoder.train dec mode))
       (gated_decoder_body hid_dim (Decoder.train dec mode) conv embedded
          encoder_conved encoder_combined) x g).
Proof.
  split; [|split].
  - intros h x Hx. exists (glu_spec h x). split; [apply glu_halves; exact Hx|].
    split; [reflexivity|]. split; reflexivity.
  - intros w i e h n k p enc mode conv x g Hinit Hconv.
    apply Encoder_init_wf in Hinit. destruct (ewf_convs _ _ _ _ _ _ Hinit conv Hconv) as [_ W].
    unfold Encoder.stage, residual_stage, gated_encoder_body, bind, lift.
    destruct (nn.Dropout_forward _ x g) as [[d g1]|err]; [|reflexivity].
    destruct (nn.Conv1d_forward conv d) as [c|err] eqn:Hc; cbn [bindR]; [|reflexivity].
    apply Conv1d_forward_Ok in Hc. destruct Hc as (_ & _ & Sc & _).
    rewrite (glu_halves h c) by (destruct W; shape_inv; congruence).
    destruct (Torch.add (glu_spec h c) x); reflexivity.
  - intros w o e h n k p pad dec mode conv emb ec em x g Hinit Hconv.
    apply Decoder_init_wf in Hinit. destruct (dwf_convs _ _ _ _ _ _ Hinit conv Hconv) as [_ W].
    unfold Decoder.stage, residual_stage, gated_decoder_body, bind, lift.
    destruct (nn.Dropout_forward _ x g) as [[d g1]|err]; [|reflexivity].
    destruct (Torch.full _ _ _ _) as [pd|err]; cbn [bindR]; [|reflexivity].
    destruct (Torch.cat2 pd d) as [z|err]; cbn [bindR]; [|reflexivity].
    destruct (nn.Conv1d_forward conv z) as [c|err] eqn:Hc; cbn [bindR]; [|reflexivity].
    apply Conv1d_forward_Ok in Hc. destruct Hc as (_ & _ & Sc & _).
    rewrite (glu_halves h c) by (destruct W; shape_inv; congruence).
    reflexivity.
Qed.

Lemma glu_correctness_witness :
  (exists y, Torch.glu Scenario.conv_input = Ok y /\
             Torch.shape y = (2, 8, 4) /\
             Torch.at3 y 1 2 3 = (INR 6 * Torch.sigmoid (INR 14))%R) /\
  (exists enc conv,
     Encoder.__init__ Scenario.encoder_weights 10 8 16 2 3%Z (1 # 4)%Q = Ok enc /\
     nth_error (Encoder.convs enc) 0 = Some conv /\
     Encoder.stage (Encoder.train enc true) conv Scenario.conv_input Scenario.generator =
     bind (residual_stage BeforeDropout (Encoder.dropout (Encoder.train enc true))
             (Encoder.scale (Encoder.train enc true)) (gated_encoder_body 16 conv)
             Scenario.conv_input)
          (fun r => ret (snd r)) Scenario.generator) /\
  (exists dec conv,
     Decoder.__init__ Scenario.decoder_weights 12 8 16 2 3%Z (1 # 4)%Q 0%Z = Ok dec /\
     nth_error (Decoder.convs dec) 0 = Some conv /\
     Decoder.stage (Decoder.train dec true) conv Scenario2.embedded
       Scenario.encoder_conved Scenario.encoder_combined Scenario.conv_input
       Scenario.generator =
     residual_stage AfterDropout (Decoder.dropout (Decoder.train dec true))
       (Decoder.scale (Decoder.train dec true))
       (gated_decoder_body 16 (Decoder.train dec true) conv Scenario2.embedded
          Scenario.encoder_conved Scenario.encoder_combined)
       Scenario.conv_input Scenario.generator).
Proof.
  split; [|split].
  - destruct (proj1 (@glu_correctness R R_scalar) 8 Scenario.conv_input eq_refl)
      as (y & Hy & _ & Sy & Hat).
    exists y. split; [exact Hy|]. split; [exact Sy|]. rewrite Hat. reflexivity.
  - do 2 eexists. split; [reflexivity|]. split; [reflexivity|].
    apply (proj1 (proj2 (@glu_correctness R R_scalar)) Scenario.encoder_weights 10 8 16 2
             3%Z (1 # 4)%Q _ true _ Scenario.conv_input Scenario.generator eq_refl
             (or_introl eq_refl)).
  - do 2 eexists. split; [reflexivity|]. split; [reflexivity|].
    apply (proj2 (proj2 (@glu_correctness R R_scalar)) Scenario.decoder_weights 12 8 16 2
             3%Z (1 # 4)%Q 0%Z _ true _ Scenario2.embedded Scenario.encoder_conved
             Scenario.encoder_combined Scenario.conv_input Scenario.generator eq_refl
             (or_introl eq_refl)).
Defined.

(** C9. The residual operand: a decoder stage is a residual stage whose
    residual operand is the stage input after dropout, the tensor that is
    padded and convolved; an encoder stage is a residual stage whose residual
    operand is the stage input before dropout; when dropout is disabled the
    two kinds of residual stage coincide. *)
Theorem residual_asymmetry {F : Type} {SF : Scalar F} :
  (forall (self : @Decoder.Decoder F) (conv : @nn.Conv1d F)
          (embedded encoder_conved encoder_combined x : @Torch.Tensor F) (g : RNG),
     Decoder.stage self conv embedded encoder_conved encoder_combined x g =
     residual_stage AfterDropout (Decoder.dropout self) (Decoder.scale self)
       (decoder_body self conv embedded encoder_conved encoder_combined) x g) /\
  (forall (self : @Encoder.Encoder F) (conv : @nn.Conv1d F) (x : @Torch.Tensor F)
          (g : RNG),
     Encoder.stage self conv x g =
     bind (residual_stage BeforeDropout (Encoder.dropout self) (Encoder.scale self)
             (encoder_body conv) x)
          (fun r => ret (snd r)) g) /\
  (forall (A : Type) (drop : nn.Dropout) (scale : F)
          (body : @Torch.Tensor F -> Result (A * @Torch.Tensor F))
          (x : @Torch.Tensor F) (g : RNG),
     nn.training drop = false ->
     residual_stage BeforeDropout drop scale body x g =
     residual_stage AfterDropout drop scale body x g).
Proof.
  split; [|split].
  - intros. unfold Decoder.stage, residual_stage, decoder_body, bind, lift.
    destruct (nn.Dropout_forward (Decoder.dropout self) x g) as [[d g1]|e]; [|reflexivity].
    repeat match goal with
           | |- context [bindR ?r _] =>
               match r with
               | bindR _ _ => fail 1
               | _ => destruct r as [?|?]; cbn [bindR]; try reflexivity
               end
           end.
  - intros. unfold Encoder.stage, residual_stage, encoder_body, bind, lift.
    destruct (nn.Dropout_forward (Encoder.dropout self) x g) as [[d g1]|e]; [|reflexivity].
    repeat match goal with
           | |- context [bindR ?r _] =>
               match r with
               | bindR _ _ => fail 1
               | _ => destruct r as [?|?]; cbn [bindR]; try reflexivity
               end
           end.
    match goal with
    | |- context [Torch.add ?a ?b] => destruct (Torch.add a b); reflexivity
    end.
  - intros A drop scale body x g Hmode. unfold residual_stage, bind.
    rewrite Dropout_forward_eval by exact Hmode. reflexivity.
Qed.

Lemma residual_asymmetry_witness :
  residual_stage BeforeDropout (nn.eval Scenario.dropout_half) 1%R
    (encoder_body Scenario.zero_conv) Scenario.one Scenario.dropping_generator =
  residual_stage AfterDropout (nn.eval Scenario.dropout_half) 1%R
    (encoder_body Scenario.zero_conv) Scenario.one Scenario.dropping_generator.
Proof.
  apply (proj2 (proj2 (@residual_asymmetry R R_scalar))). reflexivity.
Defined.

(** In training mode the two residual operands give different results: on
    an input that dropout zeroes, the stage that adds the input before
    dropout returns 1 where the stage that adds it after dropout returns 0. *)
Lemma residual_operands_differ :
  exists y1 y2 g1 g2,
    residual_stage BeforeDropout Scenario.dropout_half 1%R
      (encoder_body Scenario.zero_conv) Scenario.one Scenario.dropping_generator
      = Ok (tt, y1, g1) /\
    residual_stage AfterDropout Scenario.dropout_half 1%R
      (encoder_body Scenario.zero_conv) Scenario.one Scenario.dropping_generator
      = Ok (tt, y2, g2) /\
    Torch.at3 y1 0 0 0 = 1%R /\ Torch.at3 y2 0 0 0 = 0%R.
Proof.
  do 4 eexists. split; [reflexivity|]. split; [reflexivity|].
  split; simpl; unfold Torch.sigmoid; simpl; lra.
Qed.

(** C1. Causality of the decoder: for a constructed decoder with dropout
    disabled, any encoder outputs and two target batches of one shape that
    agree on the positions before [k], the logits of the two forward passes
    agree at position [k - 1], in every row and for every entry of the
    vocabulary: each stage pads [kernel_size - 1] positions on the left and
    none on the right. *)
Theorem decoder_causality {F : Type} {SF : Scalar F}
    (w : @Decoder.Weights F) (output_dim emb_dim hid_dim n_layers : nat) (kernel : Z)
    (p : Q) (pad : Z) (dec : @Decoder.Decoder F) (trg1 trg2 : LongTensor)
    (encoder_conved encoder_combined : @Torch.Tensor F) (k : nat) (g1 g2 : RNG)
    (output1 attention1 output2 attention2 : @Torch.Tensor F) (g1' g2' : RNG) :
  Decoder.__init__ w output_dim emb_dim hid_dim n_layers kernel p pad = Ok dec ->
  same_prefix k trg1 trg2 -> 1 <= k <= cols trg1 ->
  Decoder.forward (Decoder.eval dec) trg1 encoder_conved encoder_combined g1
    = Ok (output1, attention1, g1') ->
  Decoder.forward (Decoder.eval dec) trg2 encoder_conved encoder_combined g2
    = Ok (output2, attention2, g2') ->
  Torch.shape output1 = Torch.shape output2 /\
  forall b v, b < Torch.dim0 output1 ->
    Torch.at3 output1 b (k - 1) v = Torch.at3 output2 b (k - 1) v.
Proof.
  intros Hinit Hp Hk H1 H2. apply Decoder_init_wf in Hinit.
  apply (decoder_wf_train _ _ _ _ _ _ false) in Hinit.
  destruct (Decoder_forward_agree (Decoder.eval dec) k trg1 trg2 encoder_conved
              encoder_combined output1 output2 attention1 attention2 g1 g2 g1' g2')
    as [[So Do] _]; auto.
  - intros c Hc. destruct (dwf_convs _ _ _ _ _ _ Hinit c Hc) as [_ [_ _ Hks Hpad]].
    split; [exact Hpad|]. rewrite Hks. f_equal. symmetry.
    exact (dwf_kernel _ _ _ _ _ _ Hinit).
  - lia.
  - split; [exact So|]. intros b v Hb. apply Do; [exact Hb | lia].
Qed.

Lemma scenario_trg_altered_in_vocab : in_vocab 12 Scenario.trg_altered.
Proof.
  intros b t Hb Ht. simpl in *. destruct (t <? 2); lia.
Qed.

Lemma scenario_same_prefix : same_prefix 2 Scenario.trg Scenario.trg_altered.
Proof.
  split; [reflexivity|]. split; [reflexivity|].
  intros b t Hb Ht Hk. simpl. destruct (Nat.ltb_spec t 2); [reflexivity|lia].
Qed.

Lemma decoder_causality_witness :
  exists dec output1 attention1 g1' output2 attention2 g2',
    Decoder.__init__ Scenario.decoder_weights 12 8 16 2 3%Z (1 # 4)%Q 0%Z = Ok dec /\
    Decoder.forward (Decoder.eval dec) Scenario.trg Scenario.encoder_conved
      Scenario.encoder_combined Scenario.generator = Ok (output1, attention1, g1') /\
    Decoder.forward (Decoder.eval dec) Scenario.trg_altered Scenario.encoder_conved
      Scenario.encoder_combined Scenario.generator = Ok (output2, attention2, g2') /\
    Torch.at3 output1 0 1 0 = Torch.at3 output2 0 1 0.
Proof.
  eexists.
  assert (W : decoder_wf _ 12 8 16 2 3%Z)
    by (apply (@Decoder_init_wf R R_scalar Scenario.decoder_weights 12 8 16 2 3%Z
                 (1 # 4)%Q 0%Z _ eq_refl)).
  apply (decoder_wf_train _ _ _ _ _ _ false) in W.
  destruct (Decoder_forward_returns _ _ _ _ _ _ Scenario.trg Scenario.encoder_conved
              Scenario.encoder_combined 4 Scenario.generator W)
    as ([o1 a1] & g1' & H1 & S1 & _);
    [lia | lia | lia | exact scenario_trg_in_vocab | simpl; lia | right; simpl; lia
    | reflexivity | reflexivity | reflexivity |].
  destruct (Decoder_forward_returns _ _ _ _ _ _ Scenario.trg_altered Scenario.encoder_conved
              Scenario.encoder_combined 4 Scenario.generator W)
    as ([o2 a2] & g2' & H2 & _);
    [lia | lia | lia | exact scenario_trg_altered_in_vocab | simpl; lia | right; simpl; lia
    | reflexivity | reflexivity | reflexivity |].
  exists o1, a1, g1', o2, a2, g2'.
  split; [reflexivity|]. split; [exact H1|]. split; [exact H2|].
  cbn [fst] in S1. apply shape_triple in S1. destruct S1 as (S0 & _ & _).
  apply (@decoder_causality R R_scalar Scenario.decoder_weights 12 8 16 2 3%Z (1 # 4)%Q 0%Z
           _ Scenario.trg Scenario.trg_altered Scenario.encoder_conved
           Scenario.encoder_combined 2 Scenario.generator Scenario.generator
           o1 a1 o2 a2 g1' g2' eq_refl scenario_same_prefix);
    [simpl; lia | exact H1 | exact H2 | rewrite S0; simpl; lia].
Defined.




(** * Further properties *)

(** ** The constructors *)

Lemma mapR_all_Ok {A B : Type} (f : A -> Result B) (l : list A) :
  (forall a, In a l -> exists b, f a = Ok b) -> exists l', mapR f l = Ok l'.
Proof.
  induction l as [|a l IH]; intros H; simpl.
  - exists []. reflexivity.
  - destruct (H a (or_introl eq_refl)) as (b & Hb). rewrite Hb. simpl.
    destruct IH as (l' & Hl'); [intros a' Ha'; apply H; right; exact Ha'|].
    rewrite Hl'. simpl. eexists. reflexivity.
Qed.

Lemma Dropout_init_accepts (p : Q) :
  (exists d, nn.Dropout_init p = Ok d) <-> (0 <= p /\ p <= 1)%Q.
Proof.
  unfold nn.Dropout_init. split.
  - intros (d & H). destruct (Qle_bool 0 p && Qle_bool p 1) eqn:E; [|discriminate].
    apply andb_true_iff in E. destruct E as [E0 E1].
    apply Qle_bool_iff in E0. apply Qle_bool_iff in E1. auto.
  - intros [H0 H1]. apply Qle_bool_iff in H0. apply Qle_bool_iff in H1.
    rewrite H0, H1. simpl. eexists. reflexivity.
Qed.

Section ConstructorFacts.
Context {F : Type} {SF : Scalar F}.

Lemma Conv1d_init_accepts (i o : nat) (k p : Z) (w : nat -> nat -> nat -> F)
    (b : nat -> F) :
  (exists c, nn.Conv1d_init i o k p w b = Ok c) <-> (0 <= k /\ 0 <= p)%Z.
Proof.
  unfold nn.Conv1d_init. split.
  - intros (c & H).
    destruct (k <? 0)%Z eqn:Ek; [discriminate|].
    destruct (p <? 0)%Z eqn:Ep; [discriminate|].
    apply Z.ltb_ge in Ek. apply Z.ltb_ge in Ep. auto.
  - intros [Hk Hp].
    destruct (k <? 0)%Z eqn:Ek; [apply Z.ltb_lt in Ek; lia|].
    destruct (p <? 0)%Z eqn:Ep; [apply Z.ltb_lt in Ep; lia|].
    eexists. reflexivity.
Qed.

(** The stack of convolutions can be built when there is none to build or
    the kernel size and padding are not negative. *)
Lemma convs_accept (h n : nat) (k p : Z) (cw : nat -> nat -> nat -> nat -> F)
    (cb : nat -> nat -> F) :
  (exists cs, mapR (fun i => nn.Conv1d_init h (2 * h) k p (cw i) (cb i)) (seq 0 n) = Ok cs)
  <-> (n = 0 \/ (0 <= k /\ 0 <= p)%Z).
Proof.
  split.
  - intros (cs & H). destruct n as [|n]; [left; reflexivity|right].
    cbn [seq mapR] in H. apply bindR_Ok in H. destruct H as (c & Hc & _).
    apply (proj1 (Conv1d_init_accepts h (2 * h) k p (cw 0) (cb 0))). exists c. exact Hc.
  - intros [->|H].
    + exists []. reflexivity.
    + apply mapR_all_Ok. intros i _.
      apply (proj2 (Conv1d_init_accepts h (2 * h) k p (cw i) (cb i))). exact H.
Qed.

End ConstructorFacts.

Lemma odd_padding_nonneg (k : Z) :
  (k mod 2 = 1)%Z -> (0 <= k)%Z -> (0 <= (k - 1) / 2)%Z.
Proof.
  intros Hodd Hk. apply Z.div_pos; [|lia].
  assert (k <> 0)%Z by (intros ->; discriminate). lia.
Qed.

(** X1. The constructors accept exactly these arguments: the encoder an odd
    kernel size, the decoder any; both a kernel size that is not negative
    unless no layer is built, and a dropout probability between 0 and 1. *)
Theorem constructors_accept {F : Type} {SF : Scalar F} :
  (forall (w : @Encoder.Weights F) (input_dim emb_dim hid_dim n_layers : nat)
          (k : Z) (p : Q),
     (exists enc, Encoder.__init__ w input_dim emb_dim hid_dim n_layers k p = Ok enc)
     <-> ((k mod 2 = 1)%Z /\ (n_layers = 0 \/ (0 <= k)%Z) /\ (0 <= p /\ p <= 1)%Q)) /\
  (forall (w : @Decoder.Weights F) (output_dim emb_dim hid_dim n_layers : nat)
          (k : Z) (p : Q) (pad : Z),
     (exists dec, Decoder.__init__ w output_dim emb_dim hid_dim n_layers k p pad = Ok dec)
     <-> ((n_layers = 0 \/ (0 <= k)%Z) /\ (0 <= p /\ p <= 1)%Q)).
Proof.
  split.
  - intros w i e h n k p. unfold Encoder.__init__. split.
    + intros (enc & H).
      destruct (k mod 2 =? 1)%Z eqn:Ek; cbn [negb] in H; [|discriminate].
      apply Z.eqb_eq in Ek.
      apply bindR_Ok in H. destruct H as (cs & Hcs & H).
      apply bindR_Ok in H. destruct H as (d & Hd & _).
      split; [exact Ek|]. split.
      * assert (Hex : exists cs, mapR (fun i => nn.Conv1d_init h (2 * h) k ((k - 1) / 2)
                  (Encoder.conv_w w i) (Encoder.conv_b w i)) (seq 0 n) = Ok cs)
          by (exists cs; exact Hcs).
        apply convs_accept in Hex. destruct Hex as [Hn|[Hk _]]; auto.
      * apply Dropout_init_accepts. exists d. exact Hd.
    + intros (Ek & Hn & Hp).
      apply Z.eqb_eq in Ek. rewrite Ek. cbn [negb].
      destruct (proj2 (convs_accept h n k ((k - 1) / 2) (Encoder.conv_w w)
                         (Encoder.conv_b w))) as (cs & Hcs).
      { destruct Hn as [Hn|Hk]; [left; exact Hn|right].
        split; [exact Hk|]. apply odd_padding_nonneg; [apply Z.eqb_eq; exact Ek|exact Hk]. }
      rewrite Hcs. cbn [bindR].
      destruct (proj2 (Dropout_init_accepts p) Hp) as (d & Hd). rewrite Hd. cbn [bindR].
      eexists. reflexivity.
  - intros w o e h n k p pad. unfold Decoder.__init__. split.
    + intros (dec & H).
      apply bindR_Ok in H. destruct H as (cs & Hcs & H).
      apply bindR_Ok in H. destruct H as (d & Hd & _).
      split.
      * assert (Hex : exists cs, mapR (fun i => nn.Conv1d_init h (2 * h) k 0
                  (Decoder.conv_w w i) (Decoder.conv_b w i)) (seq 0 n) = Ok cs)
          by (exists cs; exact Hcs).
        apply convs_accept in Hex. destruct Hex as [Hn|[Hk _]]; auto.
      * apply Dropout_init_accepts. exists d. exact Hd.
    + intros (Hn & Hp).
      destruct (proj2 (convs_accept h n k 0 (Decoder.conv_w w) (Decoder.conv_b w)))
        as (cs & Hcs).
      { destruct Hn as [Hn|Hk]; [left; exact Hn|right; lia]. }
      rewrite Hcs. cbn [bindR].
      destruct (proj2 (Dropout_init_accepts p) Hp) as (d & Hd). rewrite Hd. cbn [bindR].
      eexists. reflexivity.
Qed.

(** ** When a forward pass returns, and what it raises otherwise *)

Tactic Notation "next" hyp(H) "as" ident(x) ident(Hx) :=
  let g := fresh "g" in
  apply bind_Ok in H; destruct H as (x & g & Hx & H);
  try (apply lift_Ok in Hx; destruct Hx as [Hx ->]).

Section Outcomes.
Context {F : Type} {SF : Scalar F}.

Local Abbreviation Tensor := (@Torch.Tensor F).

Lemma Embedding_forward_Ok_in_vocab (E : @nn.Embedding F) (idx : LongTensor) (y : Tensor) :
  nn.Embedding_forward E idx = Ok y -> in_vocab (nn.num_embeddings E) idx.
Proof.
  unfold nn.Embedding_forward.
  destruct (all_lt2 _ _ _) eqn:Eq; [|destruct (_ =? _); discriminate].
  intros _ b t Hb Ht. rewrite all_lt2_spec in Eq. apply in_range_spec. auto.
Qed.


Lemma positions_in_vocab_inv (n b s : nat) :
  in_vocab n (Torch.arange_repeat b s) -> b = 0 \/ s <= n.
Proof.
  intros H. destruct b as [|b]; [left; reflexivity|right].
  destruct (Nat.le_gt_cases s n) as [Hs|Hs]; [exact Hs|].
  specialize (H 0 n ltac:(simpl; lia) ltac:(simpl; lia)). simpl in H. lia.
Qed.

Lemma Conv1d_forward_Ok_out (C : @nn.Conv1d F) (x y : Tensor) :
  nn.Conv1d_forward C x = Ok y -> 1 <= nn.out_channels C.
Proof.
  unfold nn.Conv1d_forward.
  destruct (negb _); [discriminate|].
  destruct (nn.out_channels C =? 0) eqn:E; [discriminate|].
  intros _. apply Nat.eqb_neq in E. lia.
Qed.

Lemma add_Ok_same (x y z : Tensor) :
  Torch.shape x = Torch.shape y -> Torch.add x y = Ok z -> Torch.shape z = Torch.shape x.
Proof.
  intros S H. destruct (add_same_shape x y S) as (z' & Hz' & Sz'). congruence.
Qed.

(** A stage of a constructed encoder that returns: the input has
    [hid_dim >= 1] channels and is not empty, the output has its shape. *)
Lemma Encoder_stage_Ok (self : @Encoder.Encoder F) (conv : @nn.Conv1d F) (h : nat)
    (k : Z) (x y : Tensor) (g g' : RNG) :
  (k mod 2 = 1)%Z -> (0 <= k)%Z ->
  conv_wf h (Z.to_nat k) (Z.to_nat ((k - 1) / 2)) conv ->
  Encoder.stage self conv x g = Ok (y, g') ->
  Torch.dim1 x = h /\ 1 <= h /\ 1 <= Torch.dim2 x /\ Torch.shape y = Torch.shape x.
Proof.
  intros Hodd Hk [Hin Hout Hks Hpad] H.
  pose proof (odd_kernel_padding k Hodd Hk) as Hkp.
  unfold Encoder.stage in H.
  next H as d Hd. apply Dropout_forward_Ok in Hd.
  next H as c Hc. next H as u Hu. next H as s Hs.
  apply ret_Ok in H. destruct H as [-> _].
  pose proof (Conv1d_forward_Ok_out _ _ _ Hc) as Hout1.
  apply Conv1d_forward_Ok in Hc. destruct Hc as (Hc1 & Hc2 & Sc & _).
  apply glu_Ok in Hu. destruct Hu as (_ & Su & _).
  apply shape_eq in Hd. destruct Hd as (D0 & D1 & D2).
  apply shape_triple in Sc. destruct Sc as (C0 & C1 & C2).
  apply shape_triple in Su. destruct Su as (U0 & U1 & U2).
  assert (Hx1 : Torch.dim1 x = h) by congruence.
  assert (Hh : 1 <= h) by lia.
  assert (Hlen : 1 <= Torch.dim2 x) by lia.
  assert (Sux : Torch.shape u = Torch.shape x).
  { unfold Torch.shape. rewrite U0, U1, U2, C0, C1, C2, D0, D2, Hout, Hks, Hpad, Hx1.
    rewrite Nat.div2_double. f_equal. lia. }
  repeat split; auto.
  transitivity (Torch.shape s); [reflexivity|].
  rewrite (add_Ok_same _ _ _ Sux Hs). exact Sux.
Qed.

Lemma Encoder_loop_Ok (self : @Encoder.Encoder F) (h : nat) (k : Z)
    (cs : list (@nn.Conv1d F)) :
  (k mod 2 = 1)%Z ->
  (forall c, In c cs -> (0 <= k)%Z /\ conv_wf h (Z.to_nat k) (Z.to_nat ((k - 1) / 2)) c) ->
  forall (x : Tensor) (c0 : option Tensor) (g : RNG)
         (r : Tensor * option Tensor * RNG),
  Encoder.loop self cs x c0 g = Ok r ->
  match cs with
  | [] => snd (fst r) = c0
  | _ :: _ => Torch.dim1 x = h /\ 1 <= h /\ 1 <= Torch.dim2 x /\
              exists c, snd (fst r) = Some c /\ Torch.shape c = Torch.shape x
  end.
Proof.
  intros Hodd. induction cs as [|conv rest IH]; intros Hcs x c0 g r H.
  - simpl in H. unfold ret in H. inversion H; subst. reflexivity.
  - simpl in H. apply bind_Ok in H. destruct H as (y & g0 & Hs & H).
    destruct (Hcs conv (or_introl eq_refl)) as [Hk Hwf].
    destruct (Encoder_stage_Ok self conv h k x y g g0 Hodd Hk Hwf Hs)
      as (Hx & Hh & Hlen & Sy).
    specialize (IH (fun c Hin => Hcs c (or_intror Hin)) y (Some y) g0 r H).
    repeat split; auto.
    destruct rest.
    + exists y. split; auto.
    + destruct IH as (_ & _ & _ & c1 & Hc1 & Sc1). exists c1. split; [exact Hc1|congruence].
Qed.

(** A forward pass of a constructed encoder that returns was given valid
    input, and its outputs have the shape (batch, length, emb_dim). *)
Lemma Encoder_forward_Ok_valid (enc : @Encoder.Encoder F)
    (input_dim emb_dim hid_dim n_layers : nat) (k : Z) (src : LongTensor) (g g' : RNG)
    (conved combined : Tensor) :
  encoder_wf enc input_dim emb_dim hid_dim n_layers k ->
  Encoder.forward enc src g = Ok (conved, combined, g') ->
  in_vocab input_dim src /\ positions_fit src /\
  1 <= n_layers /\ 1 <= cols src /\ 1 <= hid_dim /\
  Torch.shape conved = (rows src, cols src, emb_dim) /\
  Torch.shape combined = (rows src, cols src, emb_dim).
Proof.
  intros W H. pose proof H as Hrun. destruct W.
  unfold Encoder.forward in H.
  next H as te Hte. next H as pe Hpe. next H as s Hs. next H as emb Hemb.
  next H as ci Hci.
  apply bind_Ok in H. destruct H as ([x c] & g1 & Hl & _).
  pose proof (Embedding_forward_Ok_in_vocab _ _ _ Hte) as Hv.
  pose proof (Embedding_forward_Ok_in_vocab _ _ _ Hpe) as Hp.
  rewrite ewf_tok_num0 in Hv. rewrite ewf_pos_num0 in Hp.
  apply positions_in_vocab_inv in Hp.
  apply Embedding_forward_Ok in Hte. destruct Hte as [Ste _].
  apply Embedding_forward_Ok in Hpe. destruct Hpe as [Spe _]. simpl in Spe.
  assert (Ss : Torch.shape s = Torch.shape te) by (apply (add_Ok_same te pe); congruence).
  apply Dropout_forward_Ok in Hemb.
  apply Linear_forward_Ok in Hci. destruct Hci as (_ & Sci & _).
  pose proof (Encoder_forward_Ok_layers _ _ _ _ Hrun) as Hne.
  pose proof (Encoder_loop_Ok enc hid_dim k (Encoder.convs enc) ewf_odd0 ewf_convs0
                _ _ _ _ Hl) as Hloop.
  destruct (Encoder.convs enc) as [|conv rest] eqn:Ecs; [congruence|].
  destruct Hloop as (_ & Hh & Hlen & _). simpl in Hlen.
  assert (Hcols : Torch.dim1 ci = cols src).
  { apply shape_triple in Sci. destruct Sci as (_ & Hc1 & _).
    apply shape_eq in Hemb. destruct Hemb as (_ & He1 & _).
    apply shape_eq in Ss. destruct Ss as (_ & Hs1 & _).
    apply shape_triple in Ste. destruct Ste as (_ & Ht1 & _). congruence. }
  assert (Hvalid : in_vocab input_dim src /\ positions_fit src /\ 1 <= n_layers /\
                   1 <= cols src /\ 1 <= hid_dim).
  { split; [exact Hv|]. split; [exact Hp|].
    split; [simpl in ewf_layers0; lia|]. split; [lia|exact Hh]. }
  destruct Hvalid as (V1 & V2 & V3 & V4 & V5).
  assert (W : encoder_wf enc input_dim emb_dim hid_dim n_layers k).
  { constructor; auto. rewrite Ecs. exact ewf_layers0. rewrite Ecs. exact ewf_convs0. }
  destruct (Encoder_forward_returns enc _ _ _ _ _ src g W V3 V5 V1 V4 V2)
    as ([c' m'] & g2 & Hrun' & S1 & S2).
  rewrite Hrun in Hrun'. inversion Hrun'; subst. auto 10.
Qed.




End Outcomes.



(** ** Inference does not touch the generator *)

Lemma generator_free_ret {A : Type} (a : A) : generator_free (ret a).
Proof. exists (Ok a). reflexivity. Qed.

Lemma generator_free_lift {A : Type} (r : Result A) : generator_free (lift r).
Proof. exists r. reflexivity. Qed.

Lemma generator_free_raise {A : Type} (e : exn) : generator_free (@raise A e).
Proof. exists (Raise e). reflexivity. Qed.

Lemma generator_free_bind {A B : Type} (m : M A) (f : A -> M B) :
  generator_free m -> (forall a, generator_free (f a)) -> generator_free (bind m f).
Proof.
  intros (r & Hr) Hf. destruct r as [a|e].
  - destruct (Hf a) as (r' & Hr'). exists r'. intros g.
    unfold bind. rewrite Hr. simpl. apply Hr'.
  - exists (Raise e). intros g. unfold bind. rewrite Hr. reflexivity.
Qed.

Lemma generator_free_local {A : Type} (v : option A) : generator_free (local v).
Proof. destruct v; [apply generator_free_ret|apply generator_free_raise]. Qed.

Section Inference.
Context {F : Type} {SF : Scalar F}.

Local Abbreviation Tensor := (@Torch.Tensor F).

Lemma generator_free_dropout (d : nn.Dropout) (x : Tensor) :
  nn.training d = false -> generator_free (nn.Dropout_forward d x).
Proof.
  intros H. exists (Ok x). intros g. apply Dropout_forward_eval. exact H.
Qed.

Ltac free_steps Hmode :=
  repeat first
    [ apply generator_free_ret
    | apply generator_free_lift
    | apply generator_free_local
    | apply generator_free_dropout; exact Hmode
    | apply generator_free_bind; [|intros ?] ].

Lemma generator_free_Encoder_loop (self : @Encoder.Encoder F) (cs : list (@nn.Conv1d F)) :
  nn.training (Encoder.dropout self) = false ->
  forall (x : Tensor) (c0 : option Tensor), generator_free (Encoder.loop self cs x c0).
Proof.
  intros Hmode. induction cs as [|conv rest IH]; intros x c0; simpl.
  - apply generator_free_ret.
  - apply generator_free_bind; [|intros y; apply IH].
    unfold Encoder.stage. free_steps Hmode.
Qed.

Lemma generator_free_Encoder_forward (self : @Encoder.Encoder F) (src : LongTensor) :
  nn.training (Encoder.dropout self) = false ->
  generator_free (Encoder.forward self src).
Proof.
  intros Hmode. unfold Encoder.forward.
  do 5 (apply generator_free_bind; [free_steps Hmode|intros ?]).
  apply generator_free_bind; [apply generator_free_Encoder_loop; exact Hmode|].
  intros [? ?]. free_steps Hmode.
Qed.

Lemma generator_free_Decoder_loop (self : @Decoder.Decoder F) (embedded ec em : Tensor)
    (cs : list (@nn.Conv1d F)) :
  nn.training (Decoder.dropout self) = false ->
  forall (x : Tensor) (a0 c0 : option Tensor),
    generator_free (Decoder.loop self cs embedded ec em x a0 c0).
Proof.
  intros Hmode. induction cs as [|conv rest IH]; intros x a0 c0; simpl.
  - apply generator_free_ret.
  - apply generator_free_bind; [|intros [a y]; apply IH].
    unfold Decoder.stage.
    do 5 (apply generator_free_bind; [free_steps Hmode|intros ?]).
    apply generator_free_bind; [free_steps Hmode|intros [? ?]]. free_steps Hmode.
Qed.

Lemma generator_free_Decoder_forward (self : @Decoder.Decoder F) (trg : LongTensor)
    (ec em : Tensor) :
  nn.training (Decoder.dropout self) = false ->
  generator_free (Decoder.forward self trg ec em).
Proof.
  intros Hmode. unfold Decoder.forward.
  do 5 (apply generator_free_bind; [free_steps Hmode|intros ?]).
  apply generator_free_bind; [apply generator_free_Decoder_loop; exact Hmode|].
  intros [[? ?] ?]. free_steps Hmode.
Qed.

End Inference.

(** X3. Deterministic inference: after [eval()], the forward passes of the
    encoder, the decoder and the wrapper neither read nor advance the random
    generator; their result, tensors or exception, is the same for every
    generator. *)
Theorem inference_is_generator_free {F : Type} {SF : Scalar F} :
  (forall (enc : @Encoder.Encoder F) (src : LongTensor),
     generator_free (Encoder.forward (Encoder.eval enc) src)) /\
  (forall (dec : @Decoder.Decoder F) (trg : LongTensor) (ec em : @Torch.Tensor F),
     generator_free (Decoder.forward (Decoder.eval dec) trg ec em)) /\
  (forall (model : @Seq2Seq.Seq2Seq F) (src trg : LongTensor),
     generator_free (Seq2Seq.forward (Seq2Seq.eval model) src trg)).
Proof.
  split; [|split].
  - intros enc src. apply generator_free_Encoder_forward. reflexivity.
  - intros dec trg ec em. apply generator_free_Decoder_forward. reflexivity.
  - intros model src trg. unfold Seq2Seq.forward.
    apply generator_free_bind; [apply generator_free_Encoder_forward; reflexivity|].
    intros [c m].
    apply generator_free_bind; [apply generator_free_Decoder_forward; reflexivity|].
    intros [o a]. apply generator_free_ret.
Qed.

(** ** The wrapper end to end *)

(** X4. End to end: for an encoder and a decoder constructed with one
    [emb_dim], at least one layer and one hidden channel each, a decoder
    kernel size of at least 1 and a pad index that is a 64-bit signed
    integer, the wrapper, in either mode, on in-vocabulary batches of one
    batch size and of 1 to 100 positions, returns logits of shape
    (B, T, output_dim) and attention of shape (B, T, S). *)
Theorem seq2seq_shapes {F : Type} {SF : Scalar F}
    (we : @Encoder.Weights F) (wd : @Decoder.Weights F)
    (input_dim output_dim emb_dim enc_hid dec_hid enc_layers dec_layers : nat)
    (enc_kernel dec_kernel : Z) (enc_p dec_p : Q) (pad : Z)
    (enc : @Encoder.Encoder F) (dec : @Decoder.Decoder F) (mode : bool)
    (src trg : LongTensor) (g : RNG) :
  Encoder.__init__ we input_dim emb_dim enc_hid enc_layers enc_kernel enc_p = Ok enc ->
  Decoder.__init__ wd output_dim emb_dim dec_hid dec_layers dec_kernel dec_p pad = Ok dec ->
  1 <= enc_layers -> 1 <= dec_layers -> 1 <= enc_hid -> 1 <= dec_hid ->
  (1 <= dec_kernel)%Z -> int64 pad ->
  rows src = rows trg -> in_vocab input_dim src -> in_vocab output_dim trg ->
  1 <= cols src <= 100 -> 1 <= cols trg <= 100 ->
  exists output attention g',
    Seq2Seq.forward (Seq2Seq.train (Seq2Seq.__init__ enc dec) mode) src trg g
      = Ok (output, attention, g') /\
    Torch.shape output = (rows trg, cols trg, output_dim) /\
    Torch.shape attention = (rows trg, cols trg, cols src).
Proof.
  intros He Hd Hne Hnd Hhe Hhd Hk Hpad Hrows Hvs Hvt Hs Ht.
  pose proof (Decoder_init_pad _ _ _ _ _ _ _ _ _ mode Hd) as Epad.
  apply Encoder_init_wf in He. apply (encoder_wf_train _ _ _ _ _ _ mode) in He.
  apply Decoder_init_wf in Hd. apply (decoder_wf_train _ _ _ _ _ _ mode) in Hd.
  destruct (Encoder_forward_returns _ _ _ _ _ _ src g He Hne Hhe Hvs)
    as ([c m] & g1 & Hrun1 & S1 & S2); [lia | right; lia |].
  cbn [fst snd] in S1, S2. rewrite Hrows in S1, S2.
  destruct (Decoder_forward_returns _ _ _ _ _ _ trg c m (cols src) g1 Hd Hnd Hhd Hk Hvt)
    as ([o a] & g2 & Hrun2 & S3 & S4);
    [lia | right; lia | exact S1 | exact S2 | rewrite Epad; apply int64_fits; exact Hpad |].
  exists o, a, g2. split; [|split; [exact S3|exact S4]].
  unfold Seq2Seq.forward, bind. cbn [Seq2Seq.train Seq2Seq.__init__ Seq2Seq.encoder
    Seq2Seq.decoder]. rewrite Hrun1, Hrun2. reflexivity.
Qed.

Lemma seq2seq_shapes_witness :
  exists enc dec output attention g',
    Encoder.__init__ Scenario.encoder_weights 10 8 16 2 3%Z (1 # 4)%Q = Ok enc /\
    Decoder.__init__ Scenario.decoder_weights 12 8 16 2 3%Z (1 # 4)%Q 0%Z = Ok dec /\
    Seq2Seq.forward (Seq2Seq.train (Seq2Seq.__init__ enc dec) true) Scenario.src
      Scenario.trg Scenario.generator = Ok (output, attention, g') /\
    Torch.shape output = (2, 3, 12) /\ Torch.shape attention = (2, 3, 4).
Proof.
  do 2 eexists.
  destruct (@seq2seq_shapes R R_scalar Scenario.encoder_weights Scenario.decoder_weights
              10 12 8 16 16 2 2 3%Z 3%Z (1 # 4)%Q (1 # 4)%Q 0%Z _ _ true Scenario.src
              Scenario.trg Scenario.generator eq_refl eq_refl)
    as (o & a & g' & H);
    [lia | lia | lia | lia | lia | unfold int64; lia | reflexivity
    | exact scenario_src_in_vocab
    | exact scenario_trg_in_vocab | simpl; lia | simpl; lia |].
  exists o, a, g'. split; [reflexivity|]. split; [reflexivity|]. exact H.
Defined.

(** X5. Through the wrapper no attention row is empty: in any arithmetic,
    whenever the wrapper around a constructed encoder and any decoder
    returns, the source has at least one position and the attention is a
    softmax over exactly that many energies per row; the empty source that
    the decoder alone accepts cannot arise, because the encoder rejects
    it. *)
Theorem seq2seq_attention_nonempty {F : Type} {SF : Scalar F}
    (we : @Encoder.Weights F) (input_dim emb_dim hid_dim n_layers : nat) (k : Z) (p : Q)
    (enc : @Encoder.Encoder F) (dec : @Decoder.Decoder F) (mode : bool)
    (src trg : LongTensor) (g g' : RNG) (output attention : @Torch.Tensor F) :
  Encoder.__init__ we input_dim emb_dim hid_dim n_layers k p = Ok enc ->
  Seq2Seq.forward (Seq2Seq.__init__ (Encoder.train enc mode) dec) src trg g
    = Ok (output, attention, g') ->
  1 <= cols src /\ Torch.dim2 attention = cols src /\
  softmax_over (cols src) attention.
Proof.
  intros He Hrun.
  apply Encoder_init_wf in He. apply (encoder_wf_train _ _ _ _ _ _ mode) in He.
  unfold Seq2Seq.forward in Hrun. cbn [Seq2Seq.__init__ Seq2Seq.encoder Seq2Seq.decoder]
    in Hrun.
  apply bind_Ok in Hrun. destruct Hrun as ([c m] & g1 & Hrun1 & Hrun).
  apply bind_Ok in Hrun. destruct Hrun as ([o a] & g2 & Hrun2 & Hrun).
  apply ret_Ok in Hrun. destruct Hrun as [Hrun _]. inversion Hrun; subst o a; clear Hrun.
  apply (Encoder_forward_Ok_valid _ _ _ _ _ _ _ _ _ _ _ He) in Hrun1.
  destruct Hrun1 as (_ & _ & _ & Hs & _ & Sc & _).
  apply shape_triple in Sc. destruct Sc as (_ & Sc & _).
  apply Decoder_forward_softmax in Hrun2. rewrite Sc in Hrun2.
  split; [exact Hs|]. split; [|exact Hrun2].
  destruct Hrun2 as (energy & Hd & ->). simpl. exact Hd.
Qed.

Lemma seq2seq_attention_nonempty_witness :
  exists enc dec output attention g',
    Encoder.__init__ Scenario.encoder_weights 10 8 16 2 3%Z (1 # 4)%Q = Ok enc /\
    Decoder.__init__ Scenario.decoder_weights 12 8 16 2 3%Z (1 # 4)%Q 0%Z = Ok dec /\
    Seq2Seq.forward (Seq2Seq.__init__ (Encoder.train enc true) dec) Scenario.src
      Scenario.trg Scenario.generator = Ok (output, attention, g') /\
    Torch.dim2 attention = 4.
Proof.
  do 2 eexists.
  assert (We : encoder_wf _ 10 8 16 2 3%Z)
    by (apply (@Encoder_init_wf R R_scalar Scenario.encoder_weights 10 8 16 2 3%Z
                 (1 # 4)%Q _ eq_refl)).
  apply (encoder_wf_train _ _ _ _ _ _ true) in We.
  assert (Wd : decoder_wf _ 12 8 16 2 3%Z)
    by (apply (@Decoder_init_wf R R_scalar Scenario.decoder_weights 12 8 16 2 3%Z
                 (1 # 4)%Q 0%Z _ eq_refl)).
  destruct (Encoder_forward_returns _ _ _ _ _ _ Scenario.src Scenario.generator We)
    as ([c m] & g1 & Hrun1 & S1 & S2);
    [lia | lia | exact scenario_src_in_vocab | simpl; lia | right; simpl; lia |].
  destruct (Decoder_forward_returns _ _ _ _ _ _ Scenario.trg c m 4 g1 Wd)
    as ([o a] & g2 & Hrun2 & _);
    [lia | lia | lia | exact scenario_trg_in_vocab | simpl; lia | right; simpl; lia
    | exact S1 | exact S2 | reflexivity |].
  match type of Hrun2 with
  | Decoder.forward ?d _ _ _ _ = _ =>
      match type of Hrun1 with
      | Encoder.forward ?e _ _ = _ =>
          assert (Hrun : Seq2Seq.forward (Seq2Seq.__init__ e d) Scenario.src
                           Scenario.trg Scenario.generator = Ok (o, a, g2))
      end
  end.
  { unfold Seq2Seq.forward, bind.
    cbn [Seq2Seq.__init__ Seq2Seq.encoder Seq2Seq.decoder]. rewrite Hrun1, Hrun2.
    reflexivity. }
  exists o, a, g2. split; [reflexivity|]. split; [reflexivity|]. split; [exact Hrun|].
  destruct (seq2seq_attention_nonempty Scenario.encoder_weights 10 8 16 2 3%Z (1 # 4)%Q
              _ _ true Scenario.src Scenario.trg Scenario.generator g2 o a eq_refl Hrun)
    as (_ & Hd & _).
  exact Hd.
Defined.

(** ** The outcome of the decoder's forward pass *)

Section DecoderOutcomes.
Context {F : Type} {SF : Scalar F}.

Local Abbreviation Tensor := (@Torch.Tensor F).









End DecoderOutcomes.



(** ** What the attention weights depend on *)

(** X7. The attention weights do not depend on [encoder_combined]: two calls
    of [calculate_attention] that differ in that argument only and both
    return, return the same attention tensor; [encoder_combined] enters the
    attended encoding only. *)
Theorem attention_ignores_encoder_combined {F : Type} {SF : Scalar F}
    (self : @Decoder.Decoder F)
    (embedded conved encoder_conved combined1 combined2 : @Torch.Tensor F)
    (attention1 attended1 attention2 attended2 : @Torch.Tensor F) :
  Decoder.calculate_attention self embedded conved encoder_conved combined1
    = Ok (attention1, attended1) ->
  Decoder.calculate_attention self embedded conved encoder_conved combined2
    = Ok (attention2, attended2) ->
  attention1 = attention2.
Proof.
  intros H1 H2. unfold Decoder.calculate_attention in H1, H2.
  apply bindR_Ok in H1. destruct H1 as (ce1 & Hce1 & H1).
  apply bindR_Ok in H2. destruct H2 as (ce2 & Hce2 & H2).
  assert (ce2 = ce1) by congruence. subst ce2.
  apply bindR_Ok in H1. destruct H1 as (s1 & Hs1 & H1).
  apply bindR_Ok in H2. destruct H2 as (s2 & Hs2 & H2).
  assert (s2 = s1) by congruence. subst s2.
  apply bindR_Ok in H1. destruct H1 as (en1 & Hen1 & H1).
  apply bindR_Ok in H2. destruct H2 as (en2 & Hen2 & H2).
  assert (en2 = en1) by congruence. subst en2.
  apply bindR_Ok in H1. destruct H1 as (es1 & _ & H1).
  apply bindR_Ok in H2. destruct H2 as (es2 & _ & H2).
  apply bindR_Ok in H1. destruct H1 as (at1 & _ & H1).
  apply bindR_Ok in H2. destruct H2 as (at2 & _ & H2).
  apply bindR_Ok in H1. destruct H1 as (ah1 & _ & H1).
  apply bindR_Ok in H2. destruct H2 as (ah2 & _ & H2).
  apply bindR_Ok in H1. destruct H1 as (t1 & _ & H1).
  apply bindR_Ok in H2. destruct H2 as (t2 & _ & H2).
  inversion H1. inversion H2. reflexivity.
Qed.

Lemma attention_ignores_encoder_combined_witness :
  exists dec a1 r1 a2 r2,
    Decoder.__init__ Scenario.decoder_weights 12 8 16 2 3%Z (1 # 4)%Q 0%Z = Ok dec /\
    Decoder.calculate_attention dec Scenario2.embedded Scenario2.conved
      Scenario.encoder_conved Scenario.encoder_combined = Ok (a1, r1) /\
    Decoder.calculate_attention dec Scenario2.embedded Scenario2.conved
      Scenario.encoder_conved Scenario2.encoder_combined' = Ok (a2, r2) /\
    a1 = a2.
Proof.
  eexists.
  assert (W : decoder_wf _ 12 8 16 2 3%Z)
    by (apply (@Decoder_init_wf R R_scalar Scenario.decoder_weights 12 8 16 2 3%Z
                 (1 # 4)%Q 0%Z _ eq_refl)).
  destruct (calculate_attention_fits _ _ _ _ _ _ Scenario2.embedded Scenario2.conved
              Scenario.encoder_conved Scenario.encoder_combined 2 3 4 W)
    as (a1 & r1 & H1 & _); try reflexivity.
  destruct (calculate_attention_fits _ _ _ _ _ _ Scenario2.embedded Scenario2.conved
              Scenario.encoder_conved Scenario2.encoder_combined' 2 3 4 W)
    as (a2 & r2 & H2 & _); try reflexivity.
  exists a1, r1, a2, r2. split; [reflexivity|]. split; [exact H1|]. split; [exact H2|].
  exact (@attention_ignores_encoder_combined R R_scalar _ _ _ _ _ _ _ _ _ _ H1 H2).
Defined.

(** ** Layers compose *)

Section Layers.
Context {F : Type} {SF : Scalar F}.

Local Abbreviation Tensor := (@Torch.Tensor F).

Lemma bind_assoc {A B C : Type} (m : M A) (f : A -> M B) (k : B -> M C) (g : RNG) :
  bind (bind m f) k g = bind m (fun a => bind (f a) k) g.
Proof. unfold bind. destruct (m g) as [[a g1]|e]; reflexivity. Qed.

Lemma bind_ext {A B : Type} (m : M A) (f f' : A -> M B) (g : RNG) :
  (forall a g1, f a g1 = f' a g1) -> bind m f g = bind m f' g.
Proof. intros H. unfold bind. destruct (m g) as [[a g1]|e]; [apply H|reflexivity]. Qed.

Lemma Encoder_loop_app (self : @Encoder.Encoder F) (cs1 cs2 : list (@nn.Conv1d F)) :
  forall (x : Tensor) (c0 : option Tensor) (g : RNG),
  Encoder.loop self (cs1 ++ cs2) x c0 g =
  bind (Encoder.loop self cs1 x c0)
       (fun r => Encoder.loop self cs2 (fst r) (snd r)) g.
Proof.
  induction cs1 as [|conv rest IH]; intros x c0 g; simpl.
  - reflexivity.
  - rewrite bind_assoc. apply bind_ext. intros y g1. apply IH.
Qed.

Lemma Decoder_loop_app (self : @Decoder.Decoder F) (embedded ec em : Tensor)
    (cs1 cs2 : list (@nn.Conv1d F)) :
  forall (x : Tensor) (a0 c0 : option Tensor) (g : RNG),
  Decoder.loop self (cs1 ++ cs2) embedded ec em x a0 c0 g =
  bind (Decoder.loop self cs1 embedded ec em x a0 c0)
       (fun r => Decoder.loop self cs2 embedded ec em (fst (fst r)) (snd (fst r)) (snd r))
       g.
Proof.
  induction cs1 as [|conv rest IH]; intros x a0 c0 g; simpl.
  - reflexivity.
  - rewrite bind_assoc. apply bind_ext. intros [a y] g1. apply IH.
Qed.

End Layers.

(** X8. Layers compose, and the attention is that of the last layer: the
    loop over a stack of layers [cs1 ++ cs2] is the loop over [cs1] followed
    by the loop over [cs2], in the encoder and in the decoder, with the
    generator threaded and exceptions propagated; so after a stack that ends
    with the layer [conv], the attention and the output of the decoder's loop
    are those of [conv]'s stage, run on the output of the layers before it. *)
Theorem layers_compose {F : Type} {SF : Scalar F} :
  (forall (self : @Encoder.Encoder F) (cs1 cs2 : list (@nn.Conv1d F))
          (x : @Torch.Tensor F) (c0 : option (@Torch.Tensor F)) (g : RNG),
     Encoder.loop self (cs1 ++ cs2) x c0 g =
     bind (Encoder.loop self cs1 x c0)
          (fun r => Encoder.loop self cs2 (fst r) (snd r)) g) /\
  (forall (self : @Decoder.Decoder F) (embedded ec em : @Torch.Tensor F)
          (cs1 cs2 : list (@nn.Conv1d F)) (x : @Torch.Tensor F)
          (a0 c0 : option (@Torch.Tensor F)) (g : RNG),
     Decoder.loop self (cs1 ++ cs2) embedded ec em x a0 c0 g =
     bind (Decoder.loop self cs1 embedded ec em x a0 c0)
          (fun r => Decoder.loop self cs2 embedded ec em (fst (fst r)) (snd (fst r))
                      (snd r)) g) /\
  (forall (self : @Decoder.Decoder F) (embedded ec em : @Torch.Tensor F)
          (cs : list (@nn.Conv1d F)) (conv : @nn.Conv1d F) (x : @Torch.Tensor F)
          (a0 c0 : option (@Torch.Tensor F)) (g g' : RNG)
          (x' : @Torch.Tensor F) (a c : option (@Torch.Tensor F)),
     Decoder.loop self (cs ++ [conv]) embedded ec em x a0 c0 g = Ok (x', a, c, g') ->
     exists before g0 attention,
       Decoder.loop self cs embedded ec em x a0 c0 g = Ok (before, g0) /\
       Decoder.stage self conv embedded ec em (fst (fst before)) g0
         = Ok (attention, x', g') /\
       a = Some attention /\ c = Some x').
Proof.
  split; [|split].
  - intros. apply Encoder_loop_app.
  - intros. apply Decoder_loop_app.
  - intros self embedded ec em cs conv x a0 c0 g g' x' a c H.
    rewrite Decoder_loop_app in H.
    apply bind_Ok in H. destruct H as (before & g0 & Hb & H).
    simpl in H. apply bind_Ok in H. destruct H as ([att y] & g1 & Hs & H).
    apply ret_Ok in H. destruct H as [H ->]. inversion H; subst.
    exists before, g0, att. auto.
Qed.

(** ** What an output position depends on *)

Lemma bidx_id (d i : nat) : i < d -> Torch.bidx d i = i.
Proof. unfold Torch.bidx. destruct (Nat.eqb_spec d 1); lia. Qed.

Lemma broadcast_equal (a d : nat) : Torch.broadcast_dim a a = Ok d -> d = a.
Proof. rewrite broadcast_same. intros H; inversion H; reflexivity. Qed.

Section Windows.
Context {F : Type} {SF : Scalar F}.

Local Abbreviation Tensor := (@Torch.Tensor F).

Lemma agree1_on_refl (P : nat -> nat -> Prop) (x : Tensor) : agree1_on P x x.
Proof. split; auto. Qed.

Lemma agree1_on_weaken (P Q : nat -> nat -> Prop) (x y : Tensor) :
  agree1_on P x y -> (forall b t, Q b t -> P b t) -> agree1_on Q x y.
Proof. intros [S D] H. split; auto. Qed.

Lemma agree2_on_weaken (P Q : nat -> nat -> Prop) (x y : Tensor) :
  agree2_on P x y -> (forall b t, Q b t -> P b t) -> agree2_on Q x y.
Proof. intros [S D] H. split; auto. Qed.

Lemma permute_agree12_on (P : nat -> nat -> Prop) (x y : Tensor) :
  agree1_on P x y -> agree2_on P (Torch.permute021 x) (Torch.permute021 y).
Proof.
  intros [S D]. apply shape_eq in S. destruct S as (E0 & E1 & E2).
  split; [unfold Torch.shape; simpl; congruence|].
  intros b c t Hb Ht HP. simpl in *. auto.
Qed.

Lemma permute_agree21_on (P : nat -> nat -> Prop) (x y : Tensor) :
  agree2_on P x y -> agree1_on P (Torch.permute021 x) (Torch.permute021 y).
Proof.
  intros [S D]. apply shape_eq in S. destruct S as (E0 & E1 & E2).
  split; [unfold Torch.shape; simpl; congruence|].
  intros b t e Hb Ht HP. simpl in *. auto.
Qed.

Lemma mul_scalar_agree1_on (P : nat -> nat -> Prop) (x y : Tensor) (s : F) :
  agree1_on P x y -> agree1_on P (Torch.mul_scalar x s) (Torch.mul_scalar y s).
Proof.
  intros [S D]. apply shape_eq in S. destruct S as (E0 & E1 & E2).
  split; [unfold Torch.shape; simpl; congruence|].
  intros b t e Hb Ht HP. simpl in *. rewrite D by assumption. reflexivity.
Qed.

Lemma mul_scalar_agree2_on (P : nat -> nat -> Prop) (x y : Tensor) (s : F) :
  agree2_on P x y -> agree2_on P (Torch.mul_scalar x s) (Torch.mul_scalar y s).
Proof.
  intros [S D]. apply shape_eq in S. destruct S as (E0 & E1 & E2).
  split; [unfold Torch.shape; simpl; congruence|].
  intros b c t Hb Ht HP. simpl in *. rewrite D by assumption. reflexivity.
Qed.

Lemma Embedding_agree_on (E : @nn.Embedding F) (P : nat -> nat -> Prop)
    (trg1 trg2 : LongTensor) (x1 x2 : Tensor) :
  same_tokens_on P trg1 trg2 ->
  nn.Embedding_forward E trg1 = Ok x1 -> nn.Embedding_forward E trg2 = Ok x2 ->
  agree1_on P x1 x2.
Proof.
  intros (Hr & Hc & Hp) H1 H2.
  apply Embedding_forward_Ok in H1. apply Embedding_forward_Ok in H2.
  destruct H1 as [S1 A1]. destruct H2 as [S2 A2].
  split; [congruence|]. intros b t e Hb Ht HP.
  rewrite A1, A2. apply shape_triple in S1. destruct S1 as (E0 & E1 & _).
  rewrite Hp; [reflexivity | lia | lia | exact HP].
Qed.

(** A sum agrees where both operands agree at the entries it reads. *)
Lemma add_agree1_on (P Px Py : nat -> nat -> Prop) (x1 x2 y1 y2 z1 z2 : Tensor) :
  agree1_on Px x1 x2 -> agree1_on Py y1 y2 ->
  Torch.add x1 y1 = Ok z1 -> Torch.add x2 y2 = Ok z2 ->
  (forall b t, b < Torch.dim0 z1 -> t < Torch.dim1 z1 -> P b t ->
     Px (Torch.bidx (Torch.dim0 x1) b) (Torch.bidx (Torch.dim1 x1) t) /\
     Py (Torch.bidx (Torch.dim0 y1) b) (Torch.bidx (Torch.dim1 y1) t)) ->
  agree1_on P z1 z2.
Proof.
  intros [Sx Dx] [Sy Dy] H1 H2 Hside.
  apply shape_eq in Sx. destruct Sx as (X0 & X1 & X2).
  apply shape_eq in Sy. destruct Sy as (Y0 & Y1 & Y2).
  apply add_Ok_shape in H1. apply add_Ok_shape in H2.
  destruct H1 as (B0 & B1 & B2 & A1). destruct H2 as (B0' & B1' & B2' & A2).
  split.
  - unfold Torch.shape. f_equal; [f_equal|]; congruence.
  - intros b t e Hb Ht HP. rewrite A1, A2.
    destruct (bidx_bound _ _ _ b B0 Hb) as (Hbx & Hby & _ & _).
    destruct (bidx_bound _ _ _ t B1 Ht) as (Htx & Hty & _ & _).
    destruct (Hside b t Hb Ht HP) as [HPx HPy].
    rewrite (Dx _ _ _ Hbx Htx HPx), (Dy _ _ _ Hby Hty HPy).
    rewrite X0, X1, X2, Y0, Y1, Y2. reflexivity.
Qed.

Lemma add_agree2_on (P Px Py : nat -> nat -> Prop) (x1 x2 y1 y2 z1 z2 : Tensor) :
  agree2_on Px x1 x2 -> agree2_on Py y1 y2 ->
  Torch.add x1 y1 = Ok z1 -> Torch.add x2 y2 = Ok z2 ->
  (forall b t, b < Torch.dim0 z1 -> t < Torch.dim2 z1 -> P b t ->
     Px (Torch.bidx (Torch.dim0 x1) b) (Torch.bidx (Torch.dim2 x1) t) /\
     Py (Torch.bidx (Torch.dim0 y1) b) (Torch.bidx (Torch.dim2 y1) t)) ->
  agree2_on P z1 z2.
Proof.
  intros [Sx Dx] [Sy Dy] H1 H2 Hside.
  apply shape_eq in Sx. destruct Sx as (X0 & X1 & X2).
  apply shape_eq in Sy. destruct Sy as (Y0 & Y1 & Y2).
  apply add_Ok_shape in H1. apply add_Ok_shape in H2.
  destruct H1 as (B0 & B1 & B2 & A1). destruct H2 as (B0' & B1' & B2' & A2).
  split.
  - unfold Torch.shape. f_equal; [f_equal|]; congruence.
  - intros b c t Hb Ht HP. rewrite A1, A2.
    destruct (bidx_bound _ _ _ b B0 Hb) as (Hbx & Hby & _ & _).
    destruct (bidx_bound _ _ _ t B2 Ht) as (Htx & Hty & _ & _).
    destruct (Hside b t Hb Ht HP) as [HPx HPy].
    rewrite (Dx _ _ _ Hbx Htx HPx), (Dy _ _ _ Hby Hty HPy).
    rewrite X0, X1, X2, Y0, Y1, Y2. reflexivity.
Qed.

Lemma Linear_agree_on (L : @nn.Linear F) (P : nat -> nat -> Prop) (x1 x2 y1 y2 : Tensor) :
  agree1_on P x1 x2 ->
  nn.Linear_forward L x1 = Ok y1 -> nn.Linear_forward L x2 = Ok y2 -> agree1_on P y1 y2.
Proof.
  intros [Sx Dx] H1 H2. apply shape_eq in Sx. destruct Sx as (X0 & X1 & X2).
  apply Linear_forward_Ok in H1. apply Linear_forward_Ok in H2.
  destruct H1 as (_ & S1 & A1). destruct H2 as (_ & S2 & A2).
  split; [congruence|]. intros b t e Hb Ht HP. rewrite A1, A2.
  apply shape_triple in S1. destruct S1 as (E0 & E1 & _).
  f_equal. apply fsum_ext. intros i _. rewrite Dx by (lia || assumption). reflexivity.
Qed.

(** The output of a convolution at position [t] reads the input at the
    positions [t + j - padding] that exist, for [j] below the kernel size. *)
Lemma Conv1d_agree_on (C : @nn.Conv1d F) (P Q : nat -> nat -> Prop)
    (x1 x2 y1 y2 : Tensor) :
  agree2_on P x1 x2 ->
  (forall b t j, Q b t -> j < nn.kernel_size C -> nn.padding C <= t + j ->
     t + j < nn.padding C + Torch.dim2 x1 -> P b (t + j - nn.padding C)) ->
  nn.Conv1d_forward C x1 = Ok y1 -> nn.Conv1d_forward C x2 = Ok y2 ->
  agree2_on Q y1 y2.
Proof.
  intros [Sx Dx] Hread H1 H2. apply shape_eq in Sx. destruct Sx as (X0 & X1 & X2).
  apply Conv1d_forward_Ok in H1. apply Conv1d_forward_Ok in H2.
  destruct H1 as (_ & _ & S1 & A1). destruct H2 as (_ & _ & S2 & A2).
  split; [congruence|]. intros b o t Hb Ht HQ. rewrite A1, A2.
  apply shape_triple in S1. destruct S1 as (E0 & _ & _).
  f_equal. apply fsum_ext. intros c _. apply fsum_ext. intros j Hj.
  f_equal. unfold nn.zero_padded. rewrite <- X2.
  destruct (nn.padding C <=? t + j) eqn:E1; [|reflexivity].
  destruct (t + j <? nn.padding C + Torch.dim2 x1) eqn:E2; [|reflexivity].
  apply Nat.leb_le in E1. apply Nat.ltb_lt in E2. cbn [andb].
  apply Dx; [lia | lia | apply Hread; assumption].
Qed.

Lemma glu_agree_on (P : nat -> nat -> Prop) (x1 x2 y1 y2 : Tensor) :
  agree2_on P x1 x2 -> Torch.glu x1 = Ok y1 -> Torch.glu x2 = Ok y2 ->
  agree2_on P y1 y2.
Proof.
  intros [Sx Dx] H1 H2. apply shape_eq in Sx. destruct Sx as (X0 & X1 & X2).
  apply glu_Ok in H1. apply glu_Ok in H2.
  destruct H1 as (_ & S1 & A1). destruct H2 as (_ & S2 & A2).
  split; [congruence|]. intros b c t Hb Ht HP. rewrite A1, A2.
  apply shape_triple in S1. destruct S1 as (E0 & _ & E2).
  rewrite <- X1. rewrite !Dx by (lia || assumption). reflexivity.
Qed.

Lemma cat2_agree_on (P : nat -> nat -> Prop) (pad x1 x2 z1 z2 : Tensor) :
  agree2_on P x1 x2 ->
  Torch.cat2 pad x1 = Ok z1 -> Torch.cat2 pad x2 = Ok z2 ->
  agree2_on (fun b t => t < Torch.dim2 pad \/
                        (Torch.dim2 pad <= t /\ P b (t - Torch.dim2 pad))) z1 z2.
Proof.
  intros [Sx Dx] H1 H2. apply shape_eq in Sx. destruct Sx as (X0 & X1 & X2).
  apply cat2_Ok in H1. apply cat2_Ok in H2.
  destruct H1 as (P0 & _ & S1 & A1). destruct H2 as (_ & _ & S2 & A2).
  split; [congruence|]. intros b c t Hb Ht HP. rewrite A1, A2.
  apply shape_triple in S1. destruct S1 as (E0 & _ & E2).
  destruct (t <? Torch.dim2 pad) eqn:E; [reflexivity|].
  apply Nat.ltb_ge in E. destruct HP as [HP|[_ HP]]; [lia|].
  apply Dx; [lia | lia | exact HP].
Qed.

Lemma matmul_agree_on (P Px : nat -> nat -> Prop) (x1 x2 y z1 z2 : Tensor) :
  agree1_on Px x1 x2 ->
  Torch.matmul x1 y = Ok z1 -> Torch.matmul x2 y = Ok z2 ->
  (forall b t, b < Torch.dim0 z1 -> P b t -> Px (Torch.bidx (Torch.dim0 x1) b) t) ->
  agree1_on P z1 z2.
Proof.
  intros [Sx Dx] H1 H2 Hside. apply shape_eq in Sx. destruct Sx as (X0 & X1 & X2).
  apply matmul_Ok in H1. apply matmul_Ok in H2.
  destruct H1 as (B0 & _ & S1 & S1' & A1). destruct H2 as (B0' & _ & S2 & S2' & A2).
  split.
  - unfold Torch.shape. f_equal; [f_equal|]; congruence.
  - intros b i j Hb Hi HP. rewrite A1, A2.
    destruct (bidx_bound _ _ _ b B0 Hb) as (Hbx & _ & _ & _).
    rewrite <- X0, <- X2. apply fsum_ext. intros l _.
    rewrite Dx; [reflexivity | exact Hbx | lia | apply Hside; assumption].
Qed.

Lemma softmax_agree_on (P : nat -> nat -> Prop) (x1 x2 : Tensor) :
  agree1_on P x1 x2 -> agree1_on P (Torch.softmax x1) (Torch.softmax x2).
Proof.
  intros [Sx Dx]. apply shape_eq in Sx. destruct Sx as (X0 & X1 & X2).
  split; [unfold Torch.shape; simpl; congruence|].
  intros b i j Hb Hi HP. simpl in *. rewrite <- X2. rewrite Dx by assumption.
  f_equal. apply fsum_ext. intros j' _. rewrite Dx by assumption. reflexivity.
Qed.

End Windows.

Section EncoderField.
Context {F : Type} {SF : Scalar F}.

Local Abbreviation Tensor := (@Torch.Tensor F).

(** A sum of two tensors of one shape agrees where both agree. *)
Lemma add_agree1_on_same (P Px Py : nat -> nat -> Prop) (x1 x2 y1 y2 z1 z2 : Tensor) :
  agree1_on Px x1 x2 -> agree1_on Py y1 y2 ->
  Torch.dim0 x1 = Torch.dim0 y1 -> Torch.dim1 x1 = Torch.dim1 y1 ->
  (forall b t, P b t -> Px b t /\ Py b t) ->
  Torch.add x1 y1 = Ok z1 -> Torch.add x2 y2 = Ok z2 ->
  agree1_on P z1 z2.
Proof.
  intros Hx Hy E0 E1 HP H1 H2.
  apply (add_agree1_on P Px Py x1 x2 y1 y2 z1 z2 Hx Hy H1 H2).
  intros b t Hb Ht Hbt.
  apply add_Ok_shape in H1. destruct H1 as (B0 & B1 & _).
  rewrite <- E0 in B0. rewrite <- E1 in B1.
  apply broadcast_equal in B0. apply broadcast_equal in B1.
  rewrite <- E0, <- E1. rewrite !bidx_id by lia. apply HP. exact Hbt.
Qed.

Lemma add_agree2_on_same (P Px Py : nat -> nat -> Prop) (x1 x2 y1 y2 z1 z2 : Tensor) :
  agree2_on Px x1 x2 -> agree2_on Py y1 y2 ->
  Torch.dim0 x1 = Torch.dim0 y1 -> Torch.dim2 x1 = Torch.dim2 y1 ->
  (forall b t, P b t -> Px b t /\ Py b t) ->
  Torch.add x1 y1 = Ok z1 -> Torch.add x2 y2 = Ok z2 ->
  agree2_on P z1 z2.
Proof.
  intros Hx Hy E0 E2 HP H1 H2.
  apply (add_agree2_on P Px Py x1 x2 y1 y2 z1 z2 Hx Hy H1 H2).
  intros b t Hb Ht Hbt.
  apply add_Ok_shape in H1. destruct H1 as (B0 & _ & B2 & _).
  rewrite <- E0 in B0. rewrite <- E2 in B2.
  apply broadcast_equal in B0. apply broadcast_equal in B2.
  rewrite <- E0, <- E2. rewrite !bidx_id by lia. apply HP. exact Hbt.
Qed.

(** A stage with dropout disabled maps agreement on [P] to agreement on
    [Q] when [Q] lies in [P] together with the positions read around it. *)
Lemma Encoder_stage_on (self : @Encoder.Encoder F) (conv : @nn.Conv1d F) (h : nat)
    (k : Z) (P Q : nat -> nat -> Prop) (x1 x2 y1 y2 : Tensor) (g1 g2 g1' g2' : RNG) :
  nn.training (Encoder.dropout self) = false ->
  (k mod 2 = 1)%Z -> (0 <= k)%Z ->
  conv_wf h (Z.to_nat k) (Z.to_nat ((k - 1) / 2)) conv ->
  agree2_on P x1 x2 ->
  (forall b t, Q b t -> P b t) ->
  (forall b t j, Q b t -> j < Z.to_nat k -> Z.to_nat ((k - 1) / 2) <= t + j ->
     P b (t + j - Z.to_nat ((k - 1) / 2))) ->
  Encoder.stage self conv x1 g1 = Ok (y1, g1') ->
  Encoder.stage self conv x2 g2 = Ok (y2, g2') ->
  agree2_on Q y1 y2.
Proof.
  intros Hmode Hodd Hk [Hin Hout Hks Hpad] Hx HQP Hread H1 H2.
  pose proof (odd_kernel_padding k Hodd Hk) as Hkp.
  unfold Encoder.stage in H1, H2.
  next H1 as d1 Hd1. next H2 as d2 Hd2.
  rewrite Dropout_forward_eval in Hd1, Hd2 by exact Hmode.
  inversion Hd1; subst; clear Hd1. inversion Hd2; subst; clear Hd2.
  next H1 as c1 Hc1. next H2 as c2 Hc2.
  next H1 as u1 Hu1. next H2 as u2 Hu2.
  next H1 as s1 Hs1. next H2 as s2 Hs2.
  apply ret_Ok in H1. destruct H1 as [-> _].
  apply ret_Ok in H2. destruct H2 as [-> _].
  assert (Ac : agree2_on Q c1 c2).
  { apply (Conv1d_agree_on conv P Q _ _ _ _ Hx); [|exact Hc1|exact Hc2].
    intros b t j HQ Hj Hlo _. rewrite Hpad. apply Hread; [exact HQ|lia|lia]. }
  pose proof (glu_agree_on Q _ _ _ _ Ac Hu1 Hu2) as Au.
  apply Conv1d_forward_Ok in Hc1. destruct Hc1 as (_ & Hlen & Sc & _).
  apply shape_triple in Sc. destruct Sc as (C0 & _ & C2).
  pose proof Hu1 as Hu1'. apply glu_Ok in Hu1'. destruct Hu1' as (_ & Su & _).
  apply shape_triple in Su. destruct Su as (U0 & _ & U2).
  apply mul_scalar_agree2_on.
  apply (add_agree2_on_same Q Q P _ _ _ _ _ _ Au Hx); [| |auto|exact Hs1|exact Hs2].
  - congruence.
  - rewrite U2, C2, Hks, Hpad. rewrite Hks, Hpad in Hlen. lia.
Qed.

Lemma Encoder_loop_on (self : @Encoder.Encoder F) (h : nat) (k : Z)
    (B : nat -> Prop) (lo hi : Z) (cs : list (@nn.Conv1d F)) :
  nn.training (Encoder.dropout self) = false ->
  (k mod 2 = 1)%Z ->
  (forall c, In c cs -> (0 <= k)%Z /\ conv_wf h (Z.to_nat k) (Z.to_nat ((k - 1) / 2)) c) ->
  forall (n : nat) (x1 x2 : Tensor) (c1 c2 : option Tensor) (g1 g2 : RNG)
         (r1 r2 : Tensor * option Tensor * RNG),
  let V := fun m b t =>
             B b /\ window lo hi (Z.of_nat m * ((k - 1) / 2))
                      (Z.of_nat m * ((k - 1) / 2)) t in
  agree2_on (V n) x1 x2 -> opt_rel (agree2_on (V n)) c1 c2 ->
  Encoder.loop self cs x1 c1 g1 = Ok r1 ->
  Encoder.loop self cs x2 c2 g2 = Ok r2 ->
  opt_rel (agree2_on (V (n + length cs))) (snd (fst r1)) (snd (fst r2)).
Proof.
  intros Hmode Hodd. induction cs as [|conv rest IH];
    intros Hcs n x1 x2 c1 c2 g1 g2 r1 r2 V Hx Hc H1 H2.
  - simpl in H1, H2. unfold ret in H1, H2.
    inversion H1; subst. inversion H2; subst. simpl. rewrite Nat.add_0_r. exact Hc.
  - simpl in H1, H2.
    apply bind_Ok in H1. destruct H1 as (y1 & ga & Hs1 & H1).
    apply bind_Ok in H2. destruct H2 as (y2 & gb & Hs2 & H2).
    destruct (Hcs conv (or_introl eq_refl)) as [Hk Hwf].
    pose proof (odd_kernel_padding k Hodd Hk) as Hkp.
    pose proof (odd_padding_nonneg k Hodd Hk) as Hr.
    assert (Ay : agree2_on (V (S n)) y1 y2).
    { apply (Encoder_stage_on self conv h k (V n) (V (S n)) x1 x2 y1 y2 g1 g2 ga gb
               Hmode Hodd Hk Hwf Hx); [| |exact Hs1|exact Hs2].
      - intros b t [Hb [Hlo Hhi]]. split; [exact Hb|]. unfold window in *. nia.
      - intros b t j [Hb [Hlo Hhi]] Hj Hpad. split; [exact Hb|].
        unfold window in *. nia. }
    simpl length. rewrite Nat.add_succ_r.
    apply (IH (fun c Hin => Hcs c (or_intror Hin)) (S n) y1 y2 (Some y1) (Some y2)
              ga gb r1 r2); [exact Ay|exact Ay|exact H1|exact H2].
Qed.

Lemma Encoder_forward_on (enc : @Encoder.Encoder F)
    (input_dim emb_dim hid_dim n_layers : nat) (k : Z) (B : nat -> Prop) (lo hi : Z)
    (src1 src2 : LongTensor) (c1 m1 c2 m2 : Tensor) (g1 g2 g1' g2' : RNG) :
  encoder_wf enc input_dim emb_dim hid_dim n_layers k ->
  nn.training (Encoder.dropout enc) = false ->
  same_tokens_on (fun b t => B b /\ window lo hi 0 0 t) src1 src2 ->
  Encoder.forward enc src1 g1 = Ok (c1, m1, g1') ->
  Encoder.forward enc src2 g2 = Ok (c2, m2, g2') ->
  let V := fun b t =>
             B b /\ window lo hi (Z.of_nat n_layers * ((k - 1) / 2))
                      (Z.of_nat n_layers * ((k - 1) / 2)) t in
  agree1_on V c1 c2 /\ agree1_on V m1 m2.
Proof.
  intros W Hmode Hp H1 H2 V.
  pose proof (ewf_odd _ _ _ _ _ _ W) as Hodd.
  pose proof (ewf_convs _ _ _ _ _ _ W) as Hconvs.
  pose proof (ewf_layers _ _ _ _ _ _ W) as Hlayers.
  destruct (Encoder_forward_Ok_valid _ _ _ _ _ _ _ _ _ _ _ W H1)
    as (_ & _ & _ & _ & _ & Sc1 & _).
  unfold Encoder.forward in H1, H2.
  next H1 as te1 Hte1. next H2 as te2 Hte2.
  next H1 as pe1 Hpe1. next H2 as pe2 Hpe2.
  next H1 as s1 Hs1. next H2 as s2 Hs2.
  next H1 as e1 He1. next H2 as e2 He2.
  rewrite Dropout_forward_eval in He1, He2 by exact Hmode.
  apply (ret_Ok s1 e1) in He1. destruct He1 as [<- _].
  apply (ret_Ok s2 e2) in He2. destruct He2 as [<- _].
  next H1 as ci1 Hci1. next H2 as ci2 Hci2.
  apply bind_Ok in H1. destruct H1 as ([x1 l1] & ga & Hl1 & H1).
  apply bind_Ok in H2. destruct H2 as ([x2 l2] & gb & Hl2 & H2).
  assert (Epe : pe2 = pe1).
  { destruct Hp as (Hr & Hc & _). rewrite <- Hr, <- Hc in Hpe2. congruence. }
  subst pe2.
  set (P0 := fun b t => B b /\ window lo hi 0 0 t) in *.
  pose proof (Embedding_agree_on _ P0 _ _ _ _ Hp Hte1 Hte2) as Ate.
  pose proof Hte1 as Ste. apply Embedding_forward_Ok in Ste. destruct Ste as [Ste _].
  pose proof Hpe1 as Spe. apply Embedding_forward_Ok in Spe. destruct Spe as [Spe _].
  simpl in Spe.
  apply shape_triple in Ste. destruct Ste as (T0 & T1 & T2).
  apply shape_triple in Spe. destruct Spe as (P0' & P1 & P2).
  assert (Ae : agree1_on P0 e1 e2).
  { apply (add_agree1_on_same P0 P0 P0 _ _ _ _ _ _ Ate (agree1_on_refl P0 pe1));
      [congruence | congruence | auto | exact Hs1 | exact Hs2]. }
  assert (Se : Torch.dim0 e1 = rows src1 /\ Torch.dim1 e1 = cols src1).
  { apply add_Ok_shape in Hs1. destruct Hs1 as (B0 & B1 & _).
    rewrite T0, P0' in B0. rewrite T1, P1 in B1.
    apply broadcast_equal in B0. apply broadcast_equal in B1. auto. }
  destruct Se as [Se0 Se1].
  pose proof (Linear_agree_on _ P0 _ _ _ _ Ae Hci1 Hci2) as Aci.
  assert (AV0 : agree2_on (fun b t => B b /\ window lo hi (Z.of_nat 0 * ((k - 1) / 2))
                             (Z.of_nat 0 * ((k - 1) / 2)) t)
                  (Torch.permute021 ci1) (Torch.permute021 ci2)).
  { apply (agree2_on_weaken P0); [apply permute_agree12_on; exact Aci|].
    intros b t [Hb [Hlo Hhi]]. split; [exact Hb|]. unfold window in *. lia. }
  pose proof (Encoder_loop_on enc hid_dim k B lo hi (Encoder.convs enc) Hmode Hodd
                Hconvs 0 _ _ None None _ _ _ _ AV0 I Hl1 Hl2) as Al.
  cbn [fst snd] in Al. rewrite Hlayers in Al. simpl Nat.add in Al.
  destruct l1 as [l1|]; [|apply bind_Ok in H1; destruct H1 as (? & ? & H1 & _); discriminate].
  destruct l2 as [l2|]; [|apply bind_Ok in H2; destruct H2 as (? & ? & H2 & _); discriminate].
  next H1 as v1 Hv1. next H2 as v2 Hv2.
  apply ret_Ok in Hv1. destruct Hv1 as [-> ->].
  apply ret_Ok in Hv2. destruct Hv2 as [-> ->].
  next H1 as o1 Ho1. next H2 as o2 Ho2.
  next H1 as t1 Ht1. next H2 as t2 Ht2.
  apply ret_Ok in H1. destruct H1 as [H1 _]. injection H1 as -> ->.
  apply ret_Ok in H2. destruct H2 as [H2 _]. injection H2 as -> ->.
  simpl in Al.
  pose proof (Linear_agree_on _ V _ _ _ _ (permute_agree21_on V _ _ Al) Ho1 Ho2) as Ao.
  split; [exact Ao|].
  apply mul_scalar_agree1_on.
  apply shape_triple in Sc1. destruct Sc1 as (O0 & O1 & _).
  apply (add_agree1_on_same V V P0 _ _ _ _ _ _ Ao Ae); [congruence | congruence | |exact Ht1|exact Ht2].
  intros b t HV. split; [exact HV|]. destruct HV as [Hb [Hlo Hhi]].
  split; [exact Hb|].
  assert (Hr : (0 <= Z.of_nat n_layers * ((k - 1) / 2))%Z).
  { destruct (Encoder.convs enc) as [|conv rest] eqn:Ecs.
    - simpl in Hlayers. subst n_layers. simpl. lia.
    - destruct (Hconvs conv (or_introl eq_refl)) as [Hk _].
      pose proof (odd_padding_nonneg k Hodd Hk). nia. }
  unfold window in *. lia.
Qed.

End EncoderField.

(** X9. The receptive field of the encoder: with dropout disabled, the two
    outputs of a constructed encoder at row [b] and position [t] depend only
    on the tokens of row [b] at the positions within
    [n_layers * (kernel_size - 1) / 2] of [t]. Two batches of one shape that
    agree there give the same outputs at (b, t); in particular the rows of a
    batch do not influence each other. *)
Theorem encoder_receptive_field {F : Type} {SF : Scalar F}
    (w : @Encoder.Weights F) (input_dim emb_dim hid_dim n_layers : nat) (k : Z) (p : Q)
    (enc : @Encoder.Encoder F) (src1 src2 : LongTensor) (b t : nat) (g1 g2 g1' g2' : RNG)
    (conved1 combined1 conved2 combined2 : @Torch.Tensor F) :
  Encoder.__init__ w input_dim emb_dim hid_dim n_layers k p = Ok enc ->
  rows src1 = rows src2 -> cols src1 = cols src2 ->
  b < rows src1 -> t < cols src1 ->
  (forall t', t' < cols src1 ->
     (Z.of_nat t - Z.of_nat n_layers * ((k - 1) / 2) <= Z.of_nat t'
      <= Z.of_nat t + Z.of_nat n_layers * ((k - 1) / 2))%Z ->
     item src1 b t' = item src2 b t') ->
  Encoder.forward (Encoder.eval enc) src1 g1 = Ok (conved1, combined1, g1') ->
  Encoder.forward (Encoder.eval enc) src2 g2 = Ok (conved2, combined2, g2') ->
  forall e, Torch.at3 conved1 b t e = Torch.at3 conved2 b t e /\
            Torch.at3 combined1 b t e = Torch.at3 combined2 b t e.
Proof.
  intros Hinit Hr Hc Hb Ht Hsame H1 H2 e.
  apply Encoder_init_wf in Hinit. apply (encoder_wf_train _ _ _ _ _ _ false) in Hinit.
  set (r := (Z.of_nat n_layers * ((k - 1) / 2))%Z) in *.
  destruct (Encoder_forward_Ok_valid _ _ _ _ _ _ _ _ _ _ _ Hinit H1)
    as (_ & _ & _ & _ & _ & Sc & Sm).
  apply shape_triple in Sc. destruct Sc as (C0 & C1 & _).
  apply shape_triple in Sm. destruct Sm as (M0 & M1 & _).
  destruct (Encoder_forward_on (Encoder.eval enc) input_dim emb_dim hid_dim n_layers k
              (fun b' => b' = b) (Z.of_nat t - r) (Z.of_nat t + r) src1 src2
              conved1 combined1 conved2 combined2 g1 g2 g1' g2' Hinit eq_refl)
    as [[_ Ac] [_ Am]]; [|exact H1|exact H2|].
  - split; [exact Hr|]. split; [exact Hc|].
    intros b' t' Hb' Ht' [-> [Hlo Hhi]]. apply Hsame; [exact Ht'|].
    unfold window in *. lia.
  - assert (HV : (fun b' => b' = b) b /\
                 window (Z.of_nat t - r) (Z.of_nat t + r) r r t)
      by (split; [reflexivity|unfold window; lia]).
    split; [apply Ac|apply Am]; try exact HV; lia.
Qed.

Lemma scenario2_src_altered_in_vocab : in_vocab 10 Scenario2.src_altered.
Proof.
  intros b t Hb Ht. simpl in *. destruct (t <? 3); lia.
Qed.

Lemma encoder_receptive_field_witness :
  exists enc conved1 combined1 g1' conved2 combined2 g2',
    Encoder.__init__ Scenario.encoder_weights 10 8 16 2 3%Z (1 # 4)%Q = Ok enc /\
    Encoder.forward (Encoder.eval enc) Scenario.src Scenario.generator
      = Ok (conved1, combined1, g1') /\
    Encoder.forward (Encoder.eval enc) Scenario2.src_altered Scenario.generator
      = Ok (conved2, combined2, g2') /\
    Torch.at3 conved1 1 0 0 = Torch.at3 conved2 1 0 0 /\
    Torch.at3 combined1 1 0 0 = Torch.at3 combined2 1 0 0.
Proof.
  eexists.
  assert (W : encoder_wf _ 10 8 16 2 3%Z)
    by (apply (@Encoder_init_wf R R_scalar Scenario.encoder_weights 10 8 16 2 3%Z
                 (1 # 4)%Q _ eq_refl)).
  apply (encoder_wf_train _ _ _ _ _ _ false) in W.
  destruct (Encoder_forward_returns _ _ _ _ _ _ Scenario.src Scenario.generator W)
    as ([c1 m1] & g1' & H1 & _);
    [lia | lia | exact scenario_src_in_vocab | simpl; lia | right; simpl; lia |].
  destruct (Encoder_forward_returns _ _ _ _ _ _ Scenario2.src_altered Scenario.generator W)
    as ([c2 m2] & g2' & H2 & _);
    [lia | lia | exact scenario2_src_altered_in_vocab | simpl; lia | right; simpl; lia |].
  exists c1, m1, g1', c2, m2, g2'.
  split; [reflexivity|]. split; [exact H1|]. split; [exact H2|].
  apply (@encoder_receptive_field R R_scalar Scenario.encoder_weights 10 8 16 2 3%Z
           (1 # 4)%Q _ Scenario.src Scenario2.src_altered 1 0 Scenario.generator
           Scenario.generator g1' g2' c1 m1 c2 m2 eq_refl eq_refl eq_refl);
    [simpl; lia | simpl; lia | | exact H1 | exact H2].
  intros t' Ht' Hw. simpl.
  destruct (Nat.ltb_spec t' 3) as [_|Hge]; [reflexivity|].
  change ((3 - 1) / 2)%Z with 1%Z in Hw. lia.
Defined.

Section DecoderWindow.
Context {F : Type} {SF : Scalar F}.

Local Abbreviation Tensor := (@Torch.Tensor F).

(** Sums of tensors with one time axis, for a set of positions that does
    not depend on the row: the batch axis may broadcast. *)
Lemma add_agree1_on_time (P : nat -> Prop) (x1 x2 y1 y2 z1 z2 : Tensor) :
  agree1_on (fun _ => P) x1 x2 -> agree1_on (fun _ => P) y1 y2 ->
  Torch.dim1 x1 = Torch.dim1 y1 ->
  Torch.add x1 y1 = Ok z1 -> Torch.add x2 y2 = Ok z2 ->
  agree1_on (fun _ => P) z1 z2 /\ Torch.dim1 z1 = Torch.dim1 x1.
Proof.
  intros Hx Hy E1 H1 H2.
  pose proof H1 as H1'. apply add_Ok_shape in H1'. destruct H1' as (_ & B1 & _).
  rewrite <- E1 in B1. apply broadcast_equal in B1.
  split; [|exact B1].
  apply (add_agree1_on _ _ _ x1 x2 y1 y2 z1 z2 Hx Hy H1 H2).
  intros b t Hb Ht HP. rewrite <- E1. rewrite !bidx_id by lia. auto.
Qed.

Lemma add_agree2_on_time (P : nat -> Prop) (x1 x2 y1 y2 z1 z2 : Tensor) :
  agree2_on (fun _ => P) x1 x2 -> agree2_on (fun _ => P) y1 y2 ->
  Torch.dim2 x1 = Torch.dim2 y1 ->
  Torch.add x1 y1 = Ok z1 -> Torch.add x2 y2 = Ok z2 ->
  agree2_on (fun _ => P) z1 z2 /\ Torch.dim2 z1 = Torch.dim2 x1.
Proof.
  intros Hx Hy E2 H1 H2.
  pose proof H1 as H1'. apply add_Ok_shape in H1'. destruct H1' as (_ & _ & B2 & _).
  rewrite <- E2 in B2. apply broadcast_equal in B2.
  split; [|exact B2].
  apply (add_agree2_on _ _ _ x1 x2 y1 y2 z1 z2 Hx Hy H1 H2).
  intros b t Hb Ht HP. rewrite <- E2. rewrite !bidx_id by lia. auto.
Qed.

Lemma calculate_attention_on (self : @Decoder.Decoder F) (P : nat -> Prop)
    (emb1 emb2 c1 c2 ec em a1 a2 r1 r2 : Tensor) :
  agree1_on (fun _ => P) emb1 emb2 -> agree2_on (fun _ => P) c1 c2 ->
  Torch.dim1 emb1 = Torch.dim2 c1 ->
  Decoder.calculate_attention self emb1 c1 ec em = Ok (a1, r1) ->
  Decoder.calculate_attention self emb2 c2 ec em = Ok (a2, r2) ->
  agree1_on (fun _ => P) a1 a2 /\ agree2_on (fun _ => P) r1 r2 /\
  Torch.dim1 a1 = Torch.dim1 emb1 /\ Torch.dim2 r1 = Torch.dim2 c1.
Proof.
  intros He Hc Hdim H1 H2. unfold Decoder.calculate_attention in H1, H2.
  apply bindR_Ok in H1. destruct H1 as (ce1 & Hce1 & H1).
  apply bindR_Ok in H2. destruct H2 as (ce2 & Hce2 & H2).
  apply bindR_Ok in H1. destruct H1 as (s1 & Hs1 & H1).
  apply bindR_Ok in H2. destruct H2 as (s2 & Hs2 & H2).
  apply bindR_Ok in H1. destruct H1 as (en1 & Hen1 & H1).
  apply bindR_Ok in H2. destruct H2 as (en2 & Hen2 & H2).
  apply bindR_Ok in H1. destruct H1 as (es1 & Hes1 & H1).
  apply bindR_Ok in H2. destruct H2 as (es2 & Hes2 & H2).
  apply bindR_Ok in H1. destruct H1 as (at1 & Hat1 & H1).
  apply bindR_Ok in H2. destruct H2 as (at2 & Hat2 & H2).
  apply bindR_Ok in H1. destruct H1 as (ah1 & Hah1 & H1).
  apply bindR_Ok in H2. destruct H2 as (ah2 & Hah2 & H2).
  apply bindR_Ok in H1. destruct H1 as (t1 & Ht1 & H1).
  apply bindR_Ok in H2. destruct H2 as (t2 & Ht2 & H2).
  injection H1 as <- <-. injection H2 as <- <-.
  assert (es2 = es1) by congruence. subst es2.
  pose proof (Linear_agree_on _ _ _ _ _ _ (permute_agree21_on _ _ _ Hc) Hce1 Hce2) as Ace.
  pose proof Hce1 as Sce. apply Linear_forward_Ok in Sce. destruct Sce as (_ & Sce & _).
  apply shape_triple in Sce. destruct Sce as (_ & Ce1 & _). simpl in Ce1.
  destruct (add_agree1_on_time P _ _ _ _ _ _ He Ace ltac:(congruence) Hs1 Hs2)
    as [As Ds].
  assert (Aen : agree1_on (fun _ => P) en1 en2).
  { apply (matmul_agree_on _ (fun _ => P) _ _ _ _ _
             (mul_scalar_agree1_on _ _ _ (Decoder.scale self) As) Hen1 Hen2). auto. }
  pose proof Hen1 as Sen. apply matmul_Ok in Sen. destruct Sen as (_ & _ & En1 & _).
  simpl in En1.
  pose proof (softmax_agree_on _ _ _ Aen) as Aatt.
  assert (Aat : agree1_on (fun _ => P) at1 at2).
  { apply (matmul_agree_on _ (fun _ => P) _ _ _ _ _ Aatt Hat1 Hat2). auto. }
  pose proof Hat1 as Sat. apply matmul_Ok in Sat. destruct Sat as (_ & _ & At1 & _).
  simpl in At1.
  pose proof (Linear_agree_on _ _ _ _ _ _ Aat Hah1 Hah2) as Aah.
  pose proof Hah1 as Sah. apply Linear_forward_Ok in Sah. destruct Sah as (_ & Sah & _).
  apply shape_triple in Sah. destruct Sah as (_ & Ah1 & _).
  destruct (add_agree2_on_time P _ _ _ _ _ _ Hc (permute_agree12_on _ _ _ Aah)
              ltac:(simpl; congruence) Ht1 Ht2) as [At Dt].
  split; [exact Aatt|]. split; [apply mul_scalar_agree2_on; exact At|].
  split; [simpl; congruence|simpl; exact Dt].
Qed.

(** A stage with dropout disabled moves the low end of the window up by
    [kernel_size - 1] positions and keeps the high end. *)
Lemma Decoder_stage_window (self : @Decoder.Decoder F) (o e h n : nat) (k : Z)
    (conv : @nn.Conv1d F) (lo hi : Z) (m T : nat)
    (emb1 emb2 ec em x1 x2 a1 a2 y1 y2 : Tensor) (g1 g2 g1' g2' : RNG) :
  decoder_wf self o e h n k -> In conv (Decoder.convs self) ->
  nn.training (Decoder.dropout self) = false ->
  agree1_on (fun _ => window lo hi 0 0) emb1 emb2 ->
  agree2_on (fun _ => window lo hi (Z.of_nat m * (k - 1)) 0) x1 x2 ->
  Torch.dim1 emb1 = T -> Torch.dim2 x1 = T ->
  Decoder.stage self conv emb1 ec em x1 g1 = Ok (a1, y1, g1') ->
  Decoder.stage self conv emb2 ec em x2 g2 = Ok (a2, y2, g2') ->
  (agree1_on (fun _ => window lo hi (Z.of_nat (S m) * (k - 1)) 0) a1 a2 /\
   Torch.dim1 a1 = T) /\
  (agree2_on (fun _ => window lo hi (Z.of_nat (S m) * (k - 1)) 0) y1 y2 /\
   Torch.dim2 y1 = T).
Proof.
  intros W Hconv Hmode He Hx HTe HTx H1 H2.
  destruct (dwf_convs _ _ _ _ _ _ W conv Hconv) as [Hk0 [Hin Hout Hks Hpad]].
  pose proof (dwf_kernel _ _ _ _ _ _ W) as Hkernel.
  unfold Decoder.stage in H1, H2.
  next H1 as d1 Hd1. next H2 as d2 Hd2.
  rewrite Dropout_forward_eval in Hd1, Hd2 by exact Hmode.
  apply (ret_Ok x1 d1) in Hd1. destruct Hd1 as [-> _].
  apply (ret_Ok x2 d2) in Hd2. destruct Hd2 as [-> _].
  next H1 as p1 Hp1. next H2 as p2 Hp2.
  next H1 as z1 Hz1. next H2 as z2 Hz2.
  next H1 as c1 Hc1. next H2 as c2 Hc2.
  next H1 as u1 Hu1. next H2 as u2 Hu2.
  next H1 as ac1 Hac1. next H2 as ac2 Hac2.
  destruct ac1 as [b1 r1]. destruct ac2 as [b2 r2].
  next H1 as s1 Hs1. next H2 as s2 Hs2.
  apply ret_Ok in H1. destruct H1 as [H1 _]. injection H1 as -> ->.
  apply ret_Ok in H2. destruct H2 as [H2 _]. injection H2 as -> ->.
  assert (Ep : p2 = p1).
  { destruct Hx as [Sx _]. apply shape_eq in Sx. destruct Sx as (X0 & X1 & _).
    rewrite <- X0, <- X1 in Hp2. congruence. }
  subst p2. rewrite Hkernel in Hp1.
  apply full_Ok in Hp1. destruct Hp1 as (Hk1 & Sp & _).
  apply shape_triple in Sp. destruct Sp as (_ & _ & Sp).
  pose proof (cat2_agree_on _ _ _ _ _ _ Hx Hz1 Hz2) as Az.
  pose proof Hz1 as Sz. apply cat2_Ok in Sz. destruct Sz as (_ & _ & Sz & _).
  apply shape_triple in Sz. destruct Sz as (_ & _ & Sz).
  set (Q := fun _ : nat => window lo hi (Z.of_nat (S m) * (k - 1)) 0) in *.
  assert (Ac : agree2_on Q c1 c2).
  { apply (Conv1d_agree_on conv _ Q _ _ _ _ Az); [|exact Hc1|exact Hc2].
    intros b t j [Hlo Hhi] Hj _ _. rewrite Hpad, Nat.sub_0_r. rewrite Hks in Hj.
    destruct (Nat.lt_ge_cases (t + j) (Torch.dim2 p1)) as [Hlt|Hge]; [left; exact Hlt|].
    right. split; [exact Hge|]. rewrite Sp in *. unfold window in *. nia. }
  pose proof Hc1 as Sc. apply Conv1d_forward_Ok in Sc. destruct Sc as (_ & Hlen & Sc & _).
  apply shape_triple in Sc. destruct Sc as (_ & _ & Sc).
  pose proof (glu_agree_on Q _ _ _ _ Ac Hu1 Hu2) as Au.
  pose proof Hu1 as Su. apply glu_Ok in Su. destruct Su as (_ & Su & _).
  apply shape_triple in Su. destruct Su as (_ & _ & Su).
  assert (HTu : Torch.dim2 u1 = T).
  { rewrite Su, Sc, Sz, Sp, Hks, Hpad, HTx. lia. }
  assert (AeQ : agree1_on Q emb1 emb2).
  { apply (agree1_on_weaken _ Q _ _ He). intros _ t [Hlo Hhi]. unfold window in *. nia. }
  destruct (calculate_attention_on self _ _ _ _ _ _ _ _ _ _ _ AeQ Au
              ltac:(congruence) Hac1 Hac2) as (Ab & Ar & Db & Dr).
  assert (AxQ : agree2_on Q x1 x2).
  { apply (agree2_on_weaken _ Q _ _ Hx). intros _ t [Hlo Hhi]. unfold window in *. nia. }
  destruct (add_agree2_on_time _ _ _ _ _ _ _ Ar AxQ ltac:(congruence) Hs1 Hs2)
    as [As Ds].
  split; [split; [exact Ab|congruence]|].
  split; [apply mul_scalar_agree2_on; exact As|simpl; congruence].
Qed.

Lemma Decoder_loop_window (self : @Decoder.Decoder F) (o e h n : nat) (k : Z)
    (lo hi : Z) (T : nat) (emb1 emb2 ec em : Tensor) (cs : list (@nn.Conv1d F)) :
  decoder_wf self o e h n k -> (forall c, In c cs -> In c (Decoder.convs self)) ->
  nn.training (Decoder.dropout self) = false ->
  agree1_on (fun _ => window lo hi 0 0) emb1 emb2 -> Torch.dim1 emb1 = T ->
  forall (m : nat) (x1 x2 : Tensor) (a1 a2 c1 c2 : option Tensor) (g1 g2 : RNG)
         (r1 r2 : Tensor * option Tensor * option Tensor * RNG),
  let R1 := fun j u v =>
              agree1_on (fun _ => window lo hi (Z.of_nat j * (k - 1)) 0) u v /\
              Torch.dim1 u = T in
  let R2 := fun j u v =>
              agree2_on (fun _ => window lo hi (Z.of_nat j * (k - 1)) 0) u v /\
              Torch.dim2 u = T in
  R2 m x1 x2 -> opt_rel (R1 m) a1 a2 -> opt_rel (R2 m) c1 c2 ->
  Decoder.loop self cs emb1 ec em x1 a1 c1 g1 = Ok r1 ->
  Decoder.loop self cs emb2 ec em x2 a2 c2 g2 = Ok r2 ->
  opt_rel (R1 (m + length cs)) (snd (fst (fst r1))) (snd (fst (fst r2))) /\
  opt_rel (R2 (m + length cs)) (snd (fst r1)) (snd (fst r2)).
Proof.
  intros W Hcs Hmode He HTe.
  induction cs as [|conv rest IH];
    intros m x1 x2 a1 a2 c1 c2 g1 g2 r1 r2 R1 R2 Hx Ha Hc H1 H2.
  - simpl in H1, H2. unfold ret in H1, H2.
    inversion H1; subst r1. inversion H2; subst r2. simpl.
    rewrite Nat.add_0_r. auto.
  - simpl in H1, H2.
    apply bind_Ok in H1. destruct H1 as ([b1 y1] & ga & Hs1 & H1).
    apply bind_Ok in H2. destruct H2 as ([b2 y2] & gb & Hs2 & H2).
    destruct Hx as [Hx HTx].
    destruct (Decoder_stage_window self o e h n k conv lo hi m T emb1 emb2 ec em
                x1 x2 b1 b2 y1 y2 g1 g2 ga gb W (Hcs conv (or_introl eq_refl)) Hmode
                He Hx HTe HTx Hs1 Hs2) as [Ab Ay].
    simpl length. rewrite Nat.add_succ_r.
    apply (IH (fun c Hin => Hcs c (or_intror Hin)) (S m) y1 y2 (Some b1) (Some b2)
              (Some y1) (Some y2) ga gb r1 r2); [exact Ay|exact Ab|exact Ay|exact H1|exact H2].
Qed.

Lemma Decoder_forward_window (dec : @Decoder.Decoder F)
    (output_dim emb_dim hid_dim n_layers : nat) (k : Z) (lo hi : Z)
    (trg1 trg2 : LongTensor) (ec em o1 o2 a1 a2 : Tensor) (g1 g2 g1' g2' : RNG) :
  decoder_wf dec output_dim emb_dim hid_dim n_layers k ->
  nn.training (Decoder.dropout dec) = false ->
  same_tokens_on (fun _ => window lo hi 0 0) trg1 trg2 ->
  Decoder.forward dec trg1 ec em g1 = Ok (o1, a1, g1') ->
  Decoder.forward dec trg2 ec em g2 = Ok (o2, a2, g2') ->
  let V := fun _ : nat => window lo hi (Z.of_nat n_layers * (k - 1)) 0 in
  (agree1_on V o1 o2 /\ Torch.dim1 o1 = cols trg1) /\
  (agree1_on V a1 a2 /\ Torch.dim1 a1 = cols trg1).
Proof.
  intros W Hmode Hp H1 H2 V.
  pose proof (dwf_layers _ _ _ _ _ _ W) as Hlayers.
  unfold Decoder.forward in H1, H2.
  next H1 as te1 Hte1. next H2 as te2 Hte2.
  next H1 as pe1 Hpe1. next H2 as pe2 Hpe2.
  next H1 as s1 Hs1. next H2 as s2 Hs2.
  next H1 as e1 He1. next H2 as e2 He2.
  rewrite Dropout_forward_eval in He1, He2 by exact Hmode.
  apply (ret_Ok s1 e1) in He1. destruct He1 as [<- _].
  apply (ret_Ok s2 e2) in He2. destruct He2 as [<- _].
  next H1 as ci1 Hci1. next H2 as ci2 Hci2.
  apply bind_Ok in H1. destruct H1 as ([[x1 b1] c1] & ga & Hl1 & H1).
  apply bind_Ok in H2. destruct H2 as ([[x2 b2] c2] & gb & Hl2 & H2).
  assert (Epe : pe2 = pe1).
  { destruct Hp as (Hr & Hc & _). rewrite <- Hr, <- Hc in Hpe2. congruence. }
  subst pe2.
  set (P0 := fun _ : nat => window lo hi 0 0) in *.
  pose proof (Embedding_agree_on _ P0 _ _ _ _ Hp Hte1 Hte2) as Ate.
  pose proof Hte1 as Ste. apply Embedding_forward_Ok in Ste. destruct Ste as [Ste _].
  pose proof Hpe1 as Spe. apply Embedding_forward_Ok in Spe. destruct Spe as [Spe _].
  simpl in Spe.
  apply shape_triple in Ste. destruct Ste as (_ & T1 & _).
  apply shape_triple in Spe. destruct Spe as (_ & P1 & _).
  destruct (add_agree1_on_time _ _ _ _ _ _ _ Ate (agree1_on_refl P0 pe1)
              ltac:(congruence) Hs1 Hs2) as [Ae De].
  assert (HTe : Torch.dim1 e1 = cols trg1) by congruence.
  pose proof (Linear_agree_on _ P0 _ _ _ _ Ae Hci1 Hci2) as Aci.
  pose proof Hci1 as Sci. apply Linear_forward_Ok in Sci. destruct Sci as (_ & Sci & _).
  apply shape_triple in Sci. destruct Sci as (_ & Ci1 & _).
  assert (A0 : agree2_on (fun _ : nat => window lo hi (Z.of_nat 0 * (k - 1)) 0)
                 (Torch.permute021 ci1) (Torch.permute021 ci2) /\
               Torch.dim2 (Torch.permute021 ci1) = cols trg1).
  { split; [|simpl; congruence].
    apply (agree2_on_weaken P0); [apply permute_agree12_on; exact Aci|].
    intros b0 t [Hlo Hhi]. unfold P0, window in *. lia. }
  destruct (Decoder_loop_window dec output_dim emb_dim hid_dim n_layers k lo hi
              (cols trg1) e1 e2 ec em (Decoder.convs dec) W (fun c Hc => Hc) Hmode Ae HTe
              0 _ _ None None None None _ _ _ _ A0 I I Hl1 Hl2) as [Ab Ac].
  cbn [fst snd] in Ab, Ac. rewrite Hlayers in Ab, Ac. simpl Nat.add in Ab, Ac.
  destruct c1 as [c1|]; [|apply bind_Ok in H1; destruct H1 as (? & ? & H1 & _); discriminate].
  destruct c2 as [c2|]; [|apply bind_Ok in H2; destruct H2 as (? & ? & H2 & _); discriminate].
  next H1 as v1 Hv1. next H2 as v2 Hv2.
  apply ret_Ok in Hv1. destruct Hv1 as [-> _].
  apply ret_Ok in Hv2. destruct Hv2 as [-> _].
  next H1 as h1 Hh1. next H2 as h2 Hh2.
  next H1 as d1 Hd1. next H2 as d2 Hd2.
  rewrite Dropout_forward_eval in Hd1, Hd2 by exact Hmode.
  apply (ret_Ok h1 d1) in Hd1. destruct Hd1 as [<- _].
  apply (ret_Ok h2 d2) in Hd2. destruct Hd2 as [<- _].
  next H1 as l1 Hl1'. next H2 as l2 Hl2'.
  destruct b1 as [b1|]; [|apply bind_Ok in H1; destruct H1 as (? & ? & H1 & _); discriminate].
  destruct b2 as [b2|]; [|apply bind_Ok in H2; destruct H2 as (? & ? & H2 & _); discriminate].
  next H1 as w1 Hw1. next H2 as w2 Hw2.
  apply ret_Ok in Hw1. destruct Hw1 as [-> _].
  apply ret_Ok in Hw2. destruct Hw2 as [-> _].
  apply ret_Ok in H1. destruct H1 as [H1 _]. injection H1 as -> ->.
  apply ret_Ok in H2. destruct H2 as [H2 _]. injection H2 as -> ->.
  simpl in Ab, Ac. destruct Ab as [Ab Db]. destruct Ac as [Ac Dc].
  split; [|split; [exact Ab|exact Db]].
  pose proof (Linear_agree_on _ V _ _ _ _ (permute_agree21_on V _ _ Ac) Hh1 Hh2) as Ah.
  split; [exact (Linear_agree_on _ V _ _ _ _ Ah Hl1' Hl2')|].
  apply Linear_forward_Ok in Hh1. destruct Hh1 as (_ & Sh & _).
  apply shape_triple in Sh. destruct Sh as (_ & Sh & _). simpl in Sh.
  apply Linear_forward_Ok in Hl1'. destruct Hl1' as (_ & Sl & _).
  apply shape_triple in Sl. destruct Sl as (_ & Sl & _). congruence.
Qed.

End DecoderWindow.

(** X10. The context window of the decoder: with dropout disabled, the
    logits and the attention of a constructed decoder at position [t] depend
    only on the target tokens at the positions from
    [t - n_layers * (kernel_size - 1)] to [t]. Two target batches of one
    shape that agree there give, with the same encoder outputs, the same
    logits and attention at position [t] in every row. *)
Theorem decoder_context_window {F : Type} {SF : Scalar F}
    (w : @Decoder.Weights F) (output_dim emb_dim hid_dim n_layers : nat) (k : Z) (p : Q)
    (pad : Z) (dec : @Decoder.Decoder F) (trg1 trg2 : LongTensor)
    (encoder_conved encoder_combined : @Torch.Tensor F) (t : nat) (g1 g2 g1' g2' : RNG)
    (output1 attention1 output2 attention2 : @Torch.Tensor F) :
  Decoder.__init__ w output_dim emb_dim hid_dim n_layers k p pad = Ok dec ->
  rows trg1 = rows trg2 -> cols trg1 = cols trg2 -> t < cols trg1 ->
  (forall b t', b < rows trg1 -> t' < cols trg1 ->
     (Z.of_nat t - Z.of_nat n_layers * (k - 1) <= Z.of_nat t' <= Z.of_nat t)%Z ->
     item trg1 b t' = item trg2 b t') ->
  Decoder.forward (Decoder.eval dec) trg1 encoder_conved encoder_combined g1
    = Ok (output1, attention1, g1') ->
  Decoder.forward (Decoder.eval dec) trg2 encoder_conved encoder_combined g2
    = Ok (output2, attention2, g2') ->
  (forall b v, b < Torch.dim0 output1 ->
     Torch.at3 output1 b t v = Torch.at3 output2 b t v) /\
  (forall b s, b < Torch.dim0 attention1 ->
     Torch.at3 attention1 b t s = Torch.at3 attention2 b t s).
Proof.
  intros Hinit Hr Hc Ht Hsame H1 H2.
  apply Decoder_init_wf in Hinit. apply (decoder_wf_train _ _ _ _ _ _ false) in Hinit.
  set (r := (Z.of_nat n_layers * (k - 1))%Z) in *.
  destruct (Decoder_forward_window (Decoder.eval dec) output_dim emb_dim hid_dim n_layers
              k (Z.of_nat t - r) (Z.of_nat t) trg1 trg2 encoder_conved encoder_combined
              output1 output2 attention1 attention2 g1 g2 g1' g2' Hinit eq_refl)
    as [[[_ Ao] Do] [[_ Aa] Da]]; [|exact H1|exact H2|].
  - split; [exact Hr|]. split; [exact Hc|].
    intros b t' Hb Ht' [Hlo Hhi]. apply Hsame; [exact Hb|exact Ht'|].
    unfold window in *. lia.
  - assert (HV : window (Z.of_nat t - r) (Z.of_nat t) r 0 t) by (unfold window; lia).
    split; intros b v Hb; [apply Ao|apply Aa]; try exact HV; try exact Hb; lia.
Qed.

Lemma scenario2_trg_long_in_vocab : in_vocab 12 Scenario2.trg_long.
Proof. intros b t Hb Ht. simpl in *. lia. Qed.

Lemma scenario2_trg_long_altered_in_vocab : in_vocab 12 Scenario2.trg_long_altered.
Proof.
  intros b t Hb Ht. simpl in *. destruct (0 <? t); lia.
Qed.

Lemma decoder_context_window_witness :
  exists dec output1 attention1 g1' output2 attention2 g2',
    Decoder.__init__ Scenario.decoder_weights 12 8 16 2 3%Z (1 # 4)%Q 0%Z = Ok dec /\
    Decoder.forward (Decoder.eval dec) Scenario2.trg_long Scenario.encoder_conved
      Scenario.encoder_combined Scenario.generator = Ok (output1, attention1, g1') /\
    Decoder.forward (Decoder.eval dec) Scenario2.trg_long_altered Scenario.encoder_conved
      Scenario.encoder_combined Scenario.generator = Ok (output2, attention2, g2') /\
    Torch.at3 output1 1 5 0 = Torch.at3 output2 1 5 0 /\
    Torch.at3 attention1 1 5 0 = Torch.at3 attention2 1 5 0.
Proof.
  eexists.
  assert (W : decoder_wf _ 12 8 16 2 3%Z)
    by (apply (@Decoder_init_wf R R_scalar Scenario.decoder_weights 12 8 16 2 3%Z
                 (1 # 4)%Q 0%Z _ eq_refl)).
  apply (decoder_wf_train _ _ _ _ _ _ false) in W.
  destruct (Decoder_forward_returns _ _ _ _ _ _ Scenario2.trg_long Scenario.encoder_conved
              Scenario.encoder_combined 4 Scenario.generator W)
    as ([o1 a1] & g1' & H1 & S1 & S1');
    [lia | lia | lia | exact scenario2_trg_long_in_vocab | simpl; lia | right; simpl; lia
    | reflexivity | reflexivity | reflexivity |].
  destruct (Decoder_forward_returns _ _ _ _ _ _ Scenario2.trg_long_altered
              Scenario.encoder_conved Scenario.encoder_combined 4 Scenario.generator W)
    as ([o2 a2] & g2' & H2 & _);
    [lia | lia | lia | exact scenario2_trg_long_altered_in_vocab | simpl; lia
    | right; simpl; lia | reflexivity | reflexivity | reflexivity |].
  exists o1, a1, g1', o2, a2, g2'.
  split; [reflexivity|]. split; [exact H1|]. split; [exact H2|].
  cbn [fst snd] in S1, S1'.
  apply shape_triple in S1. destruct S1 as (S0 & _ & _).
  apply shape_triple in S1'. destruct S1' as (S0' & _ & _).
  destruct (@decoder_context_window R R_scalar Scenario.decoder_weights 12 8 16 2 3%Z
              (1 # 4)%Q 0%Z _ Scenario2.trg_long Scenario2.trg_long_altered
              Scenario.encoder_conved Scenario.encoder_combined 5 Scenario.generator
              Scenario.generator g1' g2' o1 a1 o2 a2 eq_refl eq_refl eq_refl)
    as [Ho Ha]; [simpl; lia | | exact H1 | exact H2 |].
  - intros b t' Hb Ht' Hw. simpl.
    destruct (Nat.ltb_spec 0 t') as [_|Hge]; [reflexivity|lia].
  - split; [apply Ho; rewrite S0|apply Ha; rewrite S0']; simpl; lia.
Defined.


(** In evaluation mode the encoder's result does not depend on the
    generator it is run with. *)
Lemma Encoder_forward_eval_same {F : Type} {SF : Scalar F} (enc : @Encoder.Encoder F)
    (src : LongTensor) (g1 g2 g1' g2' : RNG) (r1 r2 : @Torch.Tensor F * @Torch.Tensor F) :
  Encoder.forward (Encoder.eval enc) src g1 = Ok (r1, g1') ->
  Encoder.forward (Encoder.eval enc) src g2 = Ok (r2, g2') ->
  r1 = r2.
Proof.
  intros H1 H2.
  destruct (generator_free_Encoder_forward (Encoder.eval enc) src eq_refl) as [r Hr].
  rewrite Hr in H1, H2. destruct r as [a|e]; simpl in H1, H2; congruence.
Qed.

(** X11. Teacher forcing through the whole model: in evaluation mode, for
    any encoder and a constructed decoder, the logits and the attention of
    [Seq2Seq.forward] at target position [t] depend on the source batch and
    on the target tokens at the positions from
    [t - n_layers * (kernel_size - 1)] to [t] only: two runs on the same
    source whose targets have one shape and agree on these positions return
    the same values at position [t], whatever generators they start from. *)
Theorem seq2seq_context_window {F : Type} {SF : Scalar F}
    (w : @Decoder.Weights F) (output_dim emb_dim hid_dim n_layers : nat) (k : Z) (p : Q)
    (pad : Z) (enc : @Encoder.Encoder F) (dec : @Decoder.Decoder F)
    (src trg1 trg2 : LongTensor) (t : nat) (g1 g2 g1' g2' : RNG)
    (output1 attention1 output2 attention2 : @Torch.Tensor F) :
  Decoder.__init__ w output_dim emb_dim hid_dim n_layers k p pad = Ok dec ->
  rows trg1 = rows trg2 -> cols trg1 = cols trg2 -> t < cols trg1 ->
  (forall b t', b < rows trg1 -> t' < cols trg1 ->
     (Z.of_nat t - Z.of_nat n_layers * (k - 1) <= Z.of_nat t' <= Z.of_nat t)%Z ->
     item trg1 b t' = item trg2 b t') ->
  Seq2Seq.forward (Seq2Seq.eval (Seq2Seq.__init__ enc dec)) src trg1 g1
    = Ok (output1, attention1, g1') ->
  Seq2Seq.forward (Seq2Seq.eval (Seq2Seq.__init__ enc dec)) src trg2 g2
    = Ok (output2, attention2, g2') ->
  (forall b v, b < Torch.dim0 output1 ->
     Torch.at3 output1 b t v = Torch.at3 output2 b t v) /\
  (forall b s, b < Torch.dim0 attention1 ->
     Torch.at3 attention1 b t s = Torch.at3 attention2 b t s).
Proof.
  intros Hinit Hr Hc Ht Hsame H1 H2.
  apply Decoder_init_wf in Hinit. apply (decoder_wf_train _ _ _ _ _ _ false) in Hinit.
  unfold Seq2Seq.forward in H1, H2.
  cbn [Seq2Seq.eval Seq2Seq.train Seq2Seq.__init__ Seq2Seq.encoder Seq2Seq.decoder]
    in H1, H2.
  apply bind_Ok in H1. destruct H1 as ([c1 m1] & ga & He1 & H1).
  apply bind_Ok in H2. destruct H2 as ([c2 m2] & gb & He2 & H2).
  pose proof (Encoder_forward_eval_same enc src g1 g2 ga gb _ _ He1 He2) as E.
  injection E as <- <-.
  apply bind_Ok in H1. destruct H1 as ([o1 a1] & ga' & Hd1 & H1).
  apply bind_Ok in H2. destruct H2 as ([o2 a2] & gb' & Hd2 & H2).
  apply ret_Ok in H1. destruct H1 as [H1 _]. injection H1 as -> ->.
  apply ret_Ok in H2. destruct H2 as [H2 _]. injection H2 as -> ->.
  set (r := (Z.of_nat n_layers * (k - 1))%Z) in *.
  destruct (Decoder_forward_window (Decoder.train dec false) output_dim emb_dim hid_dim
              n_layers k (Z.of_nat t - r) (Z.of_nat t) trg1 trg2 c1 m1
              o1 o2 a1 a2 ga gb ga' gb' Hinit eq_refl)
    as [[[_ Ao] Do] [[_ Aa] Da]]; [|exact Hd1|exact Hd2|].
  - split; [exact Hr|]. split; [exact Hc|].
    intros b t' Hb Ht' [Hlo Hhi]. apply Hsame; [exact Hb|exact Ht'|].
    unfold window in *. lia.
  - assert (HV : window (Z.of_nat t - r) (Z.of_nat t) r 0 t) by (unfold window; lia).
    split; intros b v Hb; [apply Ao|apply Aa]; try exact HV; try exact Hb; lia.
Qed.

Lemma seq2seq_context_window_witness :
  exists enc dec output1 attention1 g1' output2 attention2 g2',
    Encoder.__init__ Scenario.encoder_weights 10 8 16 2 3%Z (1 # 4)%Q = Ok enc /\
    Decoder.__init__ Scenario.decoder_weights 12 8 16 2 3%Z (1 # 4)%Q 0%Z = Ok dec /\
    Seq2Seq.forward (Seq2Seq.eval (Seq2Seq.__init__ enc dec)) Scenario.src
      Scenario2.trg_long Scenario.generator = Ok (output1, attention1, g1') /\
    Seq2Seq.forward (Seq2Seq.eval (Seq2Seq.__init__ enc dec)) Scenario.src
      Scenario2.trg_long_altered Scenario.dropping_generator
      = Ok (output2, attention2, g2') /\
    Torch.at3 output1 1 5 0 = Torch.at3 output2 1 5 0 /\
    Torch.at3 attention1 1 5 0 = Torch.at3 attention2 1 5 0.
Proof.
  do 2 eexists.
  assert (We : encoder_wf _ 10 8 16 2 3%Z)
    by (apply (@Encoder_init_wf R R_scalar Scenario.encoder_weights 10 8 16 2 3%Z
                 (1 # 4)%Q _ eq_refl)).
  apply (encoder_wf_train _ _ _ _ _ _ false) in We.
  assert (Wd : decoder_wf _ 12 8 16 2 3%Z)
    by (apply (@Decoder_init_wf R R_scalar Scenario.decoder_weights 12 8 16 2 3%Z
                 (1 # 4)%Q 0%Z _ eq_refl)).
  apply (decoder_wf_train _ _ _ _ _ _ false) in Wd.
  destruct (Encoder_forward_returns _ _ _ _ _ _ Scenario.src Scenario.generator We)
    as ([c1 m1] & ga & He1 & Sc1 & Sm1);
    [lia | lia | exact scenario_src_in_vocab | simpl; lia | right; simpl; lia |].
  destruct (Encoder_forward_returns _ _ _ _ _ _ Scenario.src Scenario.dropping_generator We)
    as ([c2 m2] & gb & He2 & Sc2 & Sm2);
    [lia | lia | exact scenario_src_in_vocab | simpl; lia | right; simpl; lia |].
  cbn [fst snd] in Sc1, Sm1, Sc2, Sm2.
  destruct (Decoder_forward_returns _ _ _ _ _ _ Scenario2.trg_long c1 m1 4 ga Wd)
    as ([o1 a1] & ga' & Hd1 & S1 & S1');
    [lia | lia | lia | exact scenario2_trg_long_in_vocab | simpl; lia | right; simpl; lia
    | exact Sc1 | exact Sm1 | reflexivity |].
  destruct (Decoder_forward_returns _ _ _ _ _ _ Scenario2.trg_long_altered c2 m2 4 gb Wd)
    as ([o2 a2] & gb' & Hd2 & _);
    [lia | lia | lia | exact scenario2_trg_long_altered_in_vocab | simpl; lia
    | right; simpl; lia | exact Sc2 | exact Sm2 | reflexivity |].
  match type of Hd1 with
  | Decoder.forward (Decoder.train ?d false) _ _ _ _ = _ =>
      match type of He1 with
      | Encoder.forward (Encoder.train ?e false) _ _ = _ =>
          assert (R1 : Seq2Seq.forward (Seq2Seq.eval (Seq2Seq.__init__ e d)) Scenario.src
                         Scenario2.trg_long Scenario.generator = Ok (o1, a1, ga'));
          [|assert (R2 : Seq2Seq.forward (Seq2Seq.eval (Seq2Seq.__init__ e d))
                           Scenario.src Scenario2.trg_long_altered
                           Scenario.dropping_generator = Ok (o2, a2, gb'))]
      end
  end.
  { unfold Seq2Seq.forward, bind.
    cbn [Seq2Seq.eval Seq2Seq.train Seq2Seq.__init__ Seq2Seq.encoder Seq2Seq.decoder].
    rewrite He1, Hd1. reflexivity. }
  { unfold Seq2Seq.forward, bind.
    cbn [Seq2Seq.eval Seq2Seq.train Seq2Seq.__init__ Seq2Seq.encoder Seq2Seq.decoder].
    rewrite He2, Hd2. reflexivity. }
  exists o1, a1, ga', o2, a2, gb'.
  split; [reflexivity|]. split; [reflexivity|]. split; [exact R1|]. split; [exact R2|].
  cbn [fst snd] in S1, S1'.
  apply shape_triple in S1. destruct S1 as (S0 & _ & _).
  apply shape_triple in S1'. destruct S1' as (S0' & _ & _).
  match type of R1 with
  | Seq2Seq.forward (Seq2Seq.eval (Seq2Seq.__init__ ?e ?d)) _ _ _ = _ =>
      destruct (@seq2seq_context_window R R_scalar Scenario.decoder_weights 12 8 16 2 3%Z
                  (1 # 4)%Q 0%Z e d Scenario.src Scenario2.trg_long
                  Scenario2.trg_long_altered 5 Scenario.generator
                  Scenario.dropping_generator ga' gb' o1 a1 o2 a2 eq_refl eq_refl eq_refl)
        as [Ho Ha]; [simpl; lia | | exact R1 | exact R2 |]
  end.
  - intros b t' Hb Ht' Hw. simpl.
    destruct (Nat.ltb_spec 0 t') as [_|Hge]; [reflexivity|lia].
  - split; [apply Ho; rewrite S0|apply Ha; rewrite S0']; simpl; lia.
Defined.
